(** * montepython/parser_mp.py: command line options of Monte Python

    A shallow embedding of [parser_mp.py] and of the parts of the Python
    runtime it calls, followed by the properties of the command line layer.

    - [Py]       values, exceptions and the string builtins the module uses;
    - [OsPath]   [os.path] on a POSIX file system given as a function;
    - [Argparse] the [argparse] engine of CPython 2.7 (the interpreter this
                 version of Monte Python runs on), restricted to the features
                 [create_parser] uses;
    - [ParserMp] the module itself: [MpArgumentParser], [positive_int],
                 [existing_file], [create_parser] and [parse]. *)

From stdpp Require Import gmap strings list.
From Stdlib Require Import ZArith Ascii String Lia.

Open Scope Z_scope.
Open Scope string_scope.

(** ** Python values, exceptions, strings *)

Module Py.

(** Attribute values of an [argparse.Namespace].  A float is kept as the
    text it was read from: which texts [float()] accepts is a parameter of
    the environment. *)
#[warnings="-register-all"]
Inductive value : Type :=
| VNone
| VBool (b : bool)
| VInt (z : Z)
| VFloat (literal : string)
| VStr (s : string)
| VList (l : list value).

(** Messages of [argparse] errors, kept structured instead of rendered
    ([%r] formatting is not modelled). *)
Inductive argparse_msg : Type :=
| ExpectedOneArgument
| ExpectedAtLeastOneArgument
| ExpectedArguments
| IgnoredExplicitArgument (explicit_arg : string)
| InvalidChoice (v : value)
| InvalidValue (arg_string : string)
| TypeErrorMessage (msg : string)
| AmbiguousOption (arg_string : string)
| UnrecognizedArguments (argv : list string)
| TooFewArguments
| ArgumentRequired
| ConflictingOptionString (option_string : string).

(** [str(ArgumentError(action, message))]: the name of the argument, when
    the action has one, and the message. *)
Record argument_error : Type := ArgErr {
  argument_name : option string;
  argument_message : argparse_msg
}.

Inductive message : Type :=
| Text (s : string)
| OfArgparse (e : argument_error).

(** Modelled from the spec: [ConfigurationError] stands for
    io_mp.ConfigurationError, an exception class of module io_mp, whose
    source is not at hand; it carries a human-readable message.  The other
    constructors are exceptions of the Python runtime and of argparse. *)
Inductive exn : Type :=
| IndexError
| IOError
| ValueError
| TypeError
| AttributeError
| ArgumentTypeError (msg : string)
| ArgumentError (e : argument_error)
| SystemExit (status : Z)
| ConfigurationError (msg : message).

Inductive result (A : Type) : Type :=
| Ok (a : A)
| Raise (e : exn).
Arguments Ok {A} a.
Arguments Raise {A} e.

Definition bind {A B} (r : result A) (k : A -> result B) : result B :=
  match r with
  | Ok a => k a
  | Raise e => Raise e
  end.

Fixpoint mapM {A B} (f : A -> result B) (l : list A) : result (list B) :=
  match l with
  | [] => Ok []
  | x :: l' =>
      bind (f x) (fun y => bind (mapM f l') (fun ys => Ok (y :: ys)))
  end.

Fixpoint foldM {A S} (f : S -> A -> result S) (s : S) (l : list A)
  : result S :=
  match l with
  | [] => Ok s
  | x :: l' => bind (f s x) (fun s' => foldM f s' l')
  end.

(** [s.startswith(p)] *)
Definition startswith (s p : string) : bool := String.prefix p s.

(** [s.find(sub)]: the lowest index at which [sub] occurs, or [-1]. *)
Fixpoint find_from (s sub : string) (i : Z) : Z :=
  if String.prefix sub s then i
  else match s with
       | EmptyString => -1
       | String _ s' => find_from s' sub (i + 1)
       end.

Definition find (s sub : string) : Z := find_from s sub 0.

(** [s.split(sep)] for a separator of one character. *)
Fixpoint split (sep : ascii) (s : string) : list string :=
  match s with
  | EmptyString => [EmptyString]
  | String c s' =>
      if Ascii.eqb c sep then EmptyString :: split sep s'
      else match split sep s' with
           | w :: ws => String c w :: ws
           | [] => [String c EmptyString]
           end
  end.

(** [sep.join(l)] *)
Definition join (sep : string) (l : list string) : string :=
  String.concat sep l.

(** [s.lstrip('-')] *)
Fixpoint lstrip_dash (s : string) : string :=
  match s with
  | String "-" s' => lstrip_dash s'
  | _ => s
  end.

(** [s.replace('-', '_')] *)
Fixpoint replace_dash (s : string) : string :=
  match s with
  | EmptyString => EmptyString
  | String c s' =>
      String (if Ascii.eqb c "-" then "_"%char else c) (replace_dash s')
  end.

(** [l.remove(x)] under [try ... except ValueError: pass]: the first
    occurrence goes, if there is one. *)
Fixpoint remove_first (x : string) (l : list string) : list string :=
  match l with
  | [] => []
  | y :: l' => if String.eqb y x then l' else y :: remove_first x l'
  end.

(** [f.readline()] on the text of a file. *)
Fixpoint readline (s : string) : string :=
  match s with
  | EmptyString => EmptyString
  | String c s' =>
      if Ascii.eqb c "010" then String c EmptyString
      else String c (readline s')
  end.

(** *** [int(string)]

    Base 10 literals: optional surrounding white space, an optional sign,
    one or more decimal digits.  Anything else raises [ValueError]. *)

Definition is_space (c : ascii) : bool :=
  let n := nat_of_ascii c in
  ((9 <=? n)%nat && (n <=? 13)%nat) || (n =? 32)%nat.

Definition digit_of (c : ascii) : option Z :=
  let n := nat_of_ascii c in
  if ((48 <=? n)%nat && (n <=? 57)%nat) then Some (Z.of_nat n - 48)
  else None.

Fixpoint lstrip_space (s : string) : string :=
  match s with
  | String c s' => if is_space c then lstrip_space s' else s
  | EmptyString => EmptyString
  end.

Definition all_space (s : string) : bool :=
  match lstrip_space s with
  | EmptyString => true
  | _ => false
  end.

(** Digits read so far are in [acc]; [seen] tells whether there was one. *)
Fixpoint digits (s : string) (acc : Z) (seen : bool) : option Z :=
  match s with
  | EmptyString => if seen then Some acc else None
  | String c s' =>
      match digit_of c with
      | Some d => digits s' (10 * acc + d) true
      | None => if seen && all_space s then Some acc else None
      end
  end.

Definition int (s : string) : result Z :=
  let body := lstrip_space s in
  let parsed :=
    match body with
    | String "-" s' => option_map Z.opp (digits s' 0 false)
    | String "+" s' => digits s' 0 false
    | _ => digits body 0 false
    end in
  match parsed with
  | Some z => Ok z
  | None => Raise ValueError
  end.

End Py.

Export Py.

Notation "x <- e ;; k" := (Py.bind e (fun x => k))
  (at level 100, e at next level, right associativity).

(** ** The file system and [os.path] (POSIX) *)

Module OsPath.

(** What [os.stat] finds at a path. *)
Inductive node : Type :=
| RegularFile
| Directory
| Special.

Definition filesystem : Type := string -> option node.

Definition sep : string := "/".

Definition isfile (fs : filesystem) (path : string) : bool :=
  match fs path with
  | Some RegularFile => true
  | _ => false
  end.

Definition isdir (fs : filesystem) (path : string) : bool :=
  match fs path with
  | Some Directory => true
  | _ => false
  end.

Definition exists_ (fs : filesystem) (path : string) : bool :=
  match fs path with
  | Some _ => true
  | None => false
  end.

Definition endswith_sep (s : string) : bool :=
  match rev (list_ascii_of_string s) with
  | c :: _ => Ascii.eqb c "/"
  | [] => false
  end.

(** [os.path.join(a, b)] *)
Definition join (a b : string) : string :=
  if Py.startswith b "/" then b
  else if String.eqb a "" || endswith_sep a then a +:+ b
  else a +:+ "/" +:+ b.

End OsPath.


(** ** The [argparse] engine

    [ArgumentParser] of CPython 2.7, for parsers built with [add_argument]
    (actions [store], [store_true], [store_false], [help], [version]; [nargs]
    absent or ['+']) and [add_subparsers].  Prefix characters are ['-'].
    The methods keep their names; indices into [arg_strings] become the list
    of strings still to read. *)

Module Argparse.

Abbreviation namespace := (gmap string value).

Definition SUPPRESS : string := "==SUPPRESS==".
Definition _UNRECOGNIZED_ARGS_ATTR : string := "_unrecognized_args".

Definition setattr (ns : namespace) (name : string) (v : value)
  : namespace := <[name := v]> ns.

Definition hasattr (ns : namespace) (name : string) : bool :=
  bool_decide (is_Some (ns !! name)).

Definition getattr (ns : namespace) (name : string) : result value :=
  match ns !! name with
  | Some v => Ok v
  | None => Raise AttributeError
  end.

(** [nargs]: [NargsNone] is the default (one argument), [NargsZero] the
    [nargs=0] of flags, [ONE_OR_MORE] is ['+'], [PARSER] is ['A...']. *)
Inductive nargs : Type :=
| NargsNone
| NargsZero
| ONE_OR_MORE
| PARSER.

Inductive action_class : Type :=
| _StoreAction
| _StoreConstAction (const : value)
| _HelpAction
| _VersionAction (version : string)
| _SubParsersAction
    (name_parser_map :
       list (string *
             (list string -> namespace -> result (namespace * list string)))).

Record action : Type := Action {
  option_strings : list string;
  dest : string;
  a_nargs : nargs;
  default : value;
  type : option (string -> result value);
  choices : option (list string);
  required : bool;
  class : action_class
}.

(** A parser: its [error] method and [_actions] in order of registration. *)
Record parser : Type := Parser {
  error : argument_error -> exn;
  _actions : list action
}.

(** [ArgumentParser.error] prints the usage and exits with status 2. *)
Definition ArgumentParser_error (e : argument_error) : exn := SystemExit 2.

Definition is_optional (a : action) : bool :=
  match option_strings a with
  | [] => false
  | _ => true
  end.

Definition _get_positional_actions (p : parser) : list action :=
  filter (fun a => is_optional a = false) (_actions p).

(** [_option_string_actions] as an association list. *)
Definition _option_string_actions (p : parser) : list (string * action) :=
  flat_map (fun a => map (fun s => (s, a)) (option_strings a)) (_actions p).

Fixpoint assoc {A} (k : string) (l : list (string * A)) : option A :=
  match l with
  | [] => None
  | (k', v) :: l' => if String.eqb k' k then Some v else assoc k l'
  end.

(** [_get_action_name] *)
Definition _get_action_name (a : action) : option string :=
  match option_strings a with
  | [] => Some (dest a)
  | l => Some (Py.join "/" l)
  end.

Definition argument_error_of (a : action) (m : argparse_msg) : exn :=
  ArgumentError (ArgErr (_get_action_name a) m).

(** *** Telling options from arguments *)

(** An option tuple: the action (if the parser knows the option), the
    option string, the explicit argument (after [=], or glued to a
    one-letter option). *)
Definition option_tuple : Type := option action * string * option string.

(** [option_string, explicit_arg = arg_string.split('=', 1)], when there is
    an ['='] *)
Fixpoint split_eq (s : string) : option (string * string) :=
  match s with
  | EmptyString => None
  | String c s' =>
      if Ascii.eqb c "=" then Some (EmptyString, s')
      else match split_eq s' with
           | Some (l, r) => Some (String c l, r)
           | None => None
           end
  end.

Definition all_digits (s : string) : bool :=
  forallb (fun c => bool_decide (is_Some (Py.digit_of c)))
          (list_ascii_of_string s).

(** [^-\d+$|^-\d*\.\d+$]; [$] also matches before a final newline. *)
Definition _negative_number_matcher (s : string) : bool :=
  match s with
  | String "-" body =>
      let body :=
        match rev (list_ascii_of_string body) with
        | c :: r => if Ascii.eqb c "010"
                    then string_of_list_ascii (rev r) else body
        | [] => body
        end in
      let plain := negb (String.eqb body "") && all_digits body in
      let dotted :=
        match Py.split "." body with
        | [int_part; frac] =>
            all_digits int_part && negb (String.eqb frac "")
            && all_digits frac
        | _ => false
        end in
      plain || dotted
  | _ => false
  end.

Definition _has_negative_number_optionals (p : parser) : bool :=
  existsb (fun '(s, _) => _negative_number_matcher s)
          (_option_string_actions p).

Definition second_is_dash (s : string) : bool :=
  match s with
  | String _ (String "-" _) => true
  | _ => false
  end.

Definition _get_option_tuples (p : parser) (option_string : string)
  : list option_tuple :=
  if second_is_dash option_string then
    let '(option_prefix, explicit_arg) :=
      match split_eq option_string with
      | Some (l, r) => (l, Some r)
      | None => (option_string, None)
      end in
    flat_map
      (fun '(os, a) =>
         if Py.startswith os option_prefix
         then [(Some a, os, explicit_arg)] else [])
      (_option_string_actions p)
  else
    let option_prefix := option_string in
    let short_option_prefix := String.substring 0 2 option_string in
    let short_explicit_arg :=
      String.substring 2 (String.length option_string - 2) option_string in
    flat_map
      (fun '(os, a) =>
         if String.eqb os short_option_prefix
         then [(Some a, os, Some short_explicit_arg)]
         else if Py.startswith os option_prefix
         then [(Some a, os, None)] else [])
      (_option_string_actions p).

Definition contains_space (s : string) : bool :=
  existsb (fun c => Ascii.eqb c " ") (list_ascii_of_string s).

(** [None]: a positional; [Some t]: an option.  An ambiguous abbreviation
    calls [self.error]. *)
Definition _parse_optional (p : parser) (arg_string : string)
  : result (option option_tuple) :=
  match arg_string with
  | EmptyString => Ok None
  | String c tl =>
      if negb (Ascii.eqb c "-") then Ok None
      else
        match assoc arg_string (_option_string_actions p) with
        | Some a => Ok (Some (Some a, arg_string, None))
        | None =>
            if String.eqb tl "" then Ok None
            else
              let by_eq :=
                match split_eq arg_string with
                | Some (option_string, explicit_arg) =>
                    match assoc option_string (_option_string_actions p) with
                    | Some a => Some (Some a, option_string, Some explicit_arg)
                    | None => None
                    end
                | None => None
                end in
              match by_eq with
              | Some t => Ok (Some t)
              | None =>
                  match _get_option_tuples p arg_string with
                  | _ :: _ :: _ =>
                      Raise (error p (ArgErr None (AmbiguousOption arg_string)))
                  | [t] => Ok (Some t)
                  | [] =>
                      if _negative_number_matcher arg_string
                         && negb (_has_negative_number_optionals p)
                      then Ok None
                      else if contains_space arg_string then Ok None
                      else Ok (Some (None, arg_string, None))
                  end
              end
        end
  end.

(** The letters of [arg_strings_pattern]. *)
Inductive letter : Type :=
| O (t : option_tuple)
| A
| Dash.

Definition is_O (l : letter) : bool :=
  match l with O _ => true | _ => false end.
Definition is_A (l : letter) : bool :=
  match l with A => true | _ => false end.
Definition is_Dash (l : letter) : bool :=
  match l with Dash => true | _ => false end.

(** The first loop of [_parse_known_args]: every string with its letter;
    after a ["--"] everything is an argument. *)
Fixpoint classify (p : parser) (arg_strings : list string)
  : result (list (string * letter)) :=
  match arg_strings with
  | [] => Ok []
  | s :: rest =>
      if String.eqb s "--"
      then Ok ((s, Dash) :: map (fun s' => (s', A)) rest)
      else
        t <- _parse_optional p s ;;
        rest' <- classify p rest ;;
        Ok ((s, match t with Some t => O t | None => A end) :: rest')
  end.

(** *** Matching [nargs] against the pattern *)

Fixpoint count_while (f : letter -> bool) (l : list letter) : nat :=
  match l with
  | x :: l' => if f x then S (count_while f l') else 0%nat
  | [] => 0%nat
  end.

(** [re.match(_get_nargs_pattern(action), pattern)]: the length of group 1.
    For an optional the dashes are taken out of the expression. *)
Definition match_nargs (optional : bool) (n : nargs) (pattern : list letter)
  : option nat :=
  let d := if optional then 0%nat else count_while is_Dash pattern in
  let more (l : letter) : bool :=
    match n with
    | NargsNone => negb optional && is_Dash l
    | NargsZero => false
    | ONE_OR_MORE => is_A l || (negb optional && is_Dash l)
    | PARSER => is_A l || is_O l || (negb optional && is_Dash l)
    end in
  match n with
  | NargsZero => Some d
  | _ =>
      match drop d pattern with
      | A :: rest => Some (d + 1 + count_while more rest)%nat
      | _ => None
      end
  end.

Definition _match_argument (a : action) (pattern : list letter)
  : result nat :=
  match match_nargs (is_optional a) (a_nargs a) pattern with
  | Some n => Ok n
  | None =>
      Raise (argument_error_of a
               match a_nargs a with
               | NargsNone => ExpectedOneArgument
               | ONE_OR_MORE => ExpectedAtLeastOneArgument
               | _ => ExpectedArguments
               end)
  end.

(** *** Values *)

Definition _get_value (a : action) (arg_string : string) : result value :=
  match type a with
  | None => Ok (VStr arg_string)
  | Some type_func =>
      match type_func arg_string with
      | Raise (ArgumentTypeError msg) =>
          Raise (argument_error_of a (TypeErrorMessage msg))
      | Raise TypeError | Raise ValueError =>
          Raise (argument_error_of a (InvalidValue arg_string))
      | r => r
      end
  end.

Definition _check_value (a : action) (v : value) : result unit :=
  match choices a with
  | None => Ok tt
  | Some cs =>
      match v with
      | VStr s =>
          if bool_decide (s ∈ cs) then Ok tt
          else Raise (argument_error_of a (InvalidChoice v))
      | _ => Raise (argument_error_of a (InvalidChoice v))
      end
  end.

Definition _get_values (a : action) (arg_strings : list string)
  : result value :=
  let arg_strings :=
    match a_nargs a with
    | PARSER => arg_strings
    | _ => Py.remove_first "--" arg_strings
    end in
  match arg_strings, a_nargs a with
  | [arg_string], NargsNone =>
      v <- _get_value a arg_string ;;
      _ <- _check_value a v ;;
      Ok v
  | _, PARSER =>
      vs <- Py.mapM (_get_value a) arg_strings ;;
      match vs with
      | v0 :: _ => _ <- _check_value a v0 ;; Ok (VList vs)
      | [] => Raise IndexError
      end
  | _, _ =>
      vs <- Py.mapM (_get_value a) arg_strings ;;
      _ <- Py.mapM (_check_value a) vs ;;
      Ok (VList vs)
  end.

Definition str_of (v : value) : result string :=
  match v with
  | VStr s => Ok s
  | _ => Raise TypeError
  end.

(** [action(parser, namespace, values, option_string)] *)
Definition call (a : action) (ns : namespace) (values : value)
  : result namespace :=
  match class a with
  | _StoreAction => Ok (setattr ns (dest a) values)
  | _StoreConstAction const => Ok (setattr ns (dest a) const)
  | _HelpAction => Raise (SystemExit 0)
  | _VersionAction _ => Raise (SystemExit 0)
  | _SubParsersAction name_parser_map =>
      match values with
      | VList (VStr parser_name :: vs) =>
          arg_strings <- Py.mapM str_of vs ;;
          let ns :=
            if String.eqb (dest a) SUPPRESS then ns
            else setattr ns (dest a) (VStr parser_name) in
          match assoc parser_name name_parser_map with
          | None =>
              Raise (argument_error_of a (InvalidChoice (VStr parser_name)))
          | Some parse_known_args =>
              r <- parse_known_args arg_strings ns ;;
              let '(ns, arg_strings) := r in
              match arg_strings with
              | [] => Ok ns
              | _ =>
                  let old :=
                    match ns !! _UNRECOGNIZED_ARGS_ATTR with
                    | Some (VList l) => l
                    | _ => []
                    end in
                  Ok (setattr ns _UNRECOGNIZED_ARGS_ATTR
                        (VList (old ++ map VStr arg_strings)%list))
              end
          end
      | _ => Raise TypeError
      end
  end.

(** *** The main loop of [_parse_known_args] *)

(** What the loop updates: the namespace, [extras], [seen_actions] (by
    name) and the positionals still to parse.  *)
Record state : Type := State {
  st_namespace : namespace;
  st_extras : list string;
  st_seen : list (option string);
  st_positionals : list action
}.

Definition take_action (st : state) (a : action)
           (argument_strings : list string) : result state :=
  argument_values <- _get_values a argument_strings ;;
  ns <- call a (st_namespace st) argument_values ;;
  Ok (State ns (st_extras st) (_get_action_name a :: st_seen st)
            (st_positionals st)).

(** The [while True] loop of [consume_optional] for an option with an
    explicit argument.  A one-letter option that takes no argument hands
    the rest of the string to the next letter ([-xyz]); the loop ends on an
    option that takes the explicit argument ([Stop]) or on a last letter
    that has none left ([Follow]), whose arguments are the strings that
    follow. *)
Inductive explicit_end : Type :=
| Stop
| Follow (a : action) (option_string : string).

Fixpoint explicit_loop (p : parser) (a : action) (option_string : string)
         (explicit_arg : string)
         (action_tuples : list (action * list string))
  : result (list (action * list string) * explicit_end) :=
  arg_count <- _match_argument a [A] ;;
  if (arg_count =? 0)%nat && negb (second_is_dash option_string) then
    let action_tuples := (action_tuples ++ [(a, [])])%list in
    match explicit_arg with
    | EmptyString => Raise IndexError
    | String c new_explicit_arg =>
        let option_string := String "-" (String c EmptyString) in
        match assoc option_string (_option_string_actions p) with
        | Some a' =>
            match new_explicit_arg with
            | EmptyString => Ok (action_tuples, Follow a' option_string)
            | _ =>
                explicit_loop p a' option_string new_explicit_arg
                              action_tuples
            end
        | None =>
            Raise (argument_error_of a
                     (IgnoredExplicitArgument explicit_arg))
        end
    end
  else if (arg_count =? 1)%nat then
    Ok ((action_tuples ++ [(a, [explicit_arg])])%list, Stop)
  else
    Raise (argument_error_of a (IgnoredExplicitArgument explicit_arg)).

(** [consume_optional]: [tuple] is the option at the head, [rest] the
    strings after it.  Returns the number of strings consumed, the option
    included. *)
Definition consume_optional (p : parser) (st : state) (arg_string : string)
           (tuple : option_tuple) (rest : list (string * letter))
  : result (state * nat) :=
  let '(oa, option_string, explicit_arg) := tuple in
  match oa with
  | None =>
      Ok (State (st_namespace st) (st_extras st ++ [arg_string])%list
                (st_seen st) (st_positionals st), 1%nat)
  | Some a =>
      let follow (a : action) (action_tuples : list (action * list string)) :=
        arg_count <- _match_argument a (map snd rest) ;;
        Ok ((action_tuples ++ [(a, map fst (take arg_count rest))])%list,
            S arg_count) in
      r <- match explicit_arg with
           | Some explicit_arg =>
               r <- explicit_loop p a option_string explicit_arg [] ;;
               match r with
               | (action_tuples, Stop) => Ok (action_tuples, 1%nat)
               | (action_tuples, Follow a' _) => follow a' action_tuples
               end
           | None => follow a []
           end ;;
      let '(action_tuples, stop) := r in
      st <- Py.foldM (fun st '(a, args) => take_action st a args)
                     st action_tuples ;;
      Ok (st, stop)
  end.

(** [consume_positionals].  A parser of this program declares at most one
    positional, so [_match_arguments_partial] is the match of the first
    positional left. *)
Definition consume_positionals (st : state) (strings : list (string * letter))
  : result (state * nat) :=
  match st_positionals st with
  | [] => Ok (st, 0%nat)
  | a :: positionals =>
      match match_nargs false (a_nargs a) (map snd strings) with
      | None => Ok (st, 0%nat)
      | Some arg_count =>
          st <- take_action st a (map fst (take arg_count strings)) ;;
          Ok (State (st_namespace st) (st_extras st) (st_seen st)
                    positionals, arg_count)
      end
  end.

Definition has_option (strings : list (string * letter)) : bool :=
  existsb (fun x => is_O (snd x)) strings.

(** One round of [while start_index <= max_option_string_index], entered
    with an option still ahead: the positionals before the next option,
    else the strings before it as extras and the option itself.  Returns
    the number of strings consumed (at least one). *)
Definition round (p : parser) (st : state) (strings : list (string * letter))
  : result (state * nat) :=
  let before := count_while (fun l => negb (is_O l)) (map snd strings) in
  r <- (if (0 <? before)%nat then consume_positionals st strings
        else Ok (st, 0%nat)) ;;
  let '(st, positionals_end) := r in
  if (0 <? positionals_end)%nat then Ok (st, positionals_end)
  else
    let st := State (st_namespace st)
                    (st_extras st ++ map fst (take before strings))%list
                    (st_seen st) (st_positionals st) in
    match drop before strings with
    | (arg_string, O tuple) :: rest =>
        r <- consume_optional p st arg_string tuple rest ;;
        let '(st, n) := r in
        Ok (st, (before + n)%nat)
    | _ => Ok (st, S before)
    end.

(** After the last option: the remaining positionals, and what is left
    over goes to [extras]. *)
Definition after_last_option (st : state) (strings : list (string * letter))
  : result state :=
  r <- consume_positionals st strings ;;
  let '(st, stop_index) := r in
  Ok (State (st_namespace st)
            (st_extras st ++ map fst (drop stop_index strings))%list
            (st_seen st) (st_positionals st)).

(** The loop; [skip] strings at the head were consumed by the round
    before. *)
Fixpoint consume (p : parser) (st : state) (skip : nat)
         (strings : list (string * letter)) : result state :=
  match skip, strings with
  | S skip, _ :: strings => consume p st skip strings
  | S _, [] => after_last_option st []
  | 0%nat, [] => after_last_option st []
  | 0%nat, _ :: strings' =>
      if has_option strings then
        r <- round p st strings ;;
        let '(st, n) := r in
        consume p st (Nat.pred n) strings'
      else after_last_option st strings
  end.

(** The checks at the end of [_parse_known_args]: positionals left over,
    required actions not seen; a string default of an action not seen goes
    through the type function. *)
Definition convert_default (p : parser) (st : state) (ns : namespace)
           (a : action) : result namespace :=
  if bool_decide (_get_action_name a ∈ st_seen st) then Ok ns
  else if required a then
    Raise (error p (ArgErr (_get_action_name a) ArgumentRequired))
  else
    match default a, ns !! dest a with
    | VStr d, Some (VStr d') =>
        if String.eqb d d' then
          v <- _get_value a d ;; Ok (setattr ns (dest a) v)
        else Ok ns
    | _, _ => Ok ns
    end.

Definition _parse_known_args (p : parser) (arg_strings : list string)
           (ns : namespace) : result (namespace * list string) :=
  strings <- classify p arg_strings ;;
  st <- consume p (State ns [] [] (_get_positional_actions p)) 0 strings ;;
  match st_positionals st with
  | _ :: _ => Raise (error p (ArgErr None TooFewArguments))
  | [] =>
      ns <- Py.foldM (convert_default p st) (st_namespace st) (_actions p) ;;
      Ok (ns, st_extras st)
  end.

Definition add_default (ns : namespace) (a : action) : namespace :=
  if String.eqb (dest a) SUPPRESS then ns
  else if hasattr ns (dest a) then ns
  else match default a with
       | VStr d => if String.eqb d SUPPRESS then ns
                   else setattr ns (dest a) (default a)
       | _ => setattr ns (dest a) (default a)
       end.

Definition parse_known_args (p : parser) (args : list string)
           (ns : namespace) : result (namespace * list string) :=
  let ns := fold_left add_default (_actions p) ns in
  match _parse_known_args p args ns with
  | Ok (ns, args) =>
      match ns !! _UNRECOGNIZED_ARGS_ATTR with
      | Some v =>
          more <- match v with
                  | VList l => Py.mapM str_of l
                  | _ => Raise TypeError
                  end ;;
          Ok (delete _UNRECOGNIZED_ARGS_ATTR ns, (args ++ more)%list)
      | None => Ok (ns, args)
      end
  | Raise (ArgumentError err) => Raise (error p err)
  | Raise e => Raise e
  end.

(** [parse_args(args)] with a fresh [Namespace()] *)
Definition parse_args (p : parser) (args : list string) : result namespace :=
  r <- parse_known_args p args ∅ ;;
  let '(ns, argv) := r in
  match argv with
  | [] => Ok ns
  | _ => Raise (error p (ArgErr None (UnrecognizedArguments argv)))
  end.

(** *** Building a parser *)

(** The keyword arguments of [add_argument] that this program passes. *)
Inductive kwarg : Type :=
| kw_action (name : string)
| kw_nargs (n : nargs)
| kw_default (v : value)
| kw_type (type_func : string -> result value)
| kw_choices (l : list string)
| kw_dest (s : string)
| kw_help (s : string)
| kw_version (s : string).

Fixpoint kwargs_get {B} (sel : kwarg -> option B) (kwargs : list kwarg)
  : option B :=
  match kwargs with
  | [] => None
  | k :: kwargs' =>
      match sel k with
      | Some x => Some x
      | None => kwargs_get sel kwargs'
      end
  end.

Definition get_action k := match k with kw_action x => Some x | _ => None end.
Definition get_nargs k := match k with kw_nargs x => Some x | _ => None end.
Definition get_default k := match k with kw_default x => Some x | _ => None end.
Definition get_type k := match k with kw_type x => Some x | _ => None end.
Definition get_choices k := match k with kw_choices x => Some x | _ => None end.
Definition get_dest k := match k with kw_dest x => Some x | _ => None end.
Definition get_version k := match k with kw_version x => Some x | _ => None end.

(** [_get_optional_kwargs]: the destination of an option, when [dest] is
    not given, comes from the first long option string, or else from the
    first option string. *)
Definition optional_dest (args : list string) (kwargs : list kwarg)
  : result string :=
  match kwargs_get get_dest kwargs with
  | Some d => Ok d
  | None =>
      let long_option_strings := filter (fun s => second_is_dash s) args in
      let dest_option_string :=
        match long_option_strings, args with
        | l :: _, _ => l
        | [], s :: _ => s
        | [], [] => EmptyString
        end in
      let d := Py.lstrip_dash dest_option_string in
      if String.eqb d "" then Raise ValueError
      else Ok (Py.replace_dash d)
  end.

(** The action object that [add_argument] creates. *)
Definition create_action (args : list string) (kwargs : list kwarg)
  : result action :=
  let positional :=
    match args with
    | [] => true
    | [s] => negb (Py.startswith s "-")
    | _ => false
    end in
  r <- (if positional then
          match args, kwargs_get get_dest kwargs with
          | _ :: _, Some _ => Raise ValueError
          | s :: _, None => Ok ([], s, true)
          | [], Some d => Ok ([], d, true)
          | [], None => Raise TypeError
          end
        else
          if forallb (fun s => Py.startswith s "-") args then
            d <- optional_dest args kwargs ;; Ok (args, d, false)
          else Raise ValueError) ;;
  let '(option_strings, dest, required) := r in
  let default_or (v : value) :=
    match kwargs_get get_default kwargs with
    | Some d => d
    | None => v
    end in
  match kwargs_get get_action kwargs with
  | None | Some "store" =>
      match kwargs_get get_nargs kwargs with
      | Some NargsZero => Raise ValueError
      | n =>
          Ok (Action option_strings dest
                     (match n with Some n => n | None => NargsNone end)
                     (default_or VNone)
                     (kwargs_get get_type kwargs)
                     (kwargs_get get_choices kwargs)
                     required _StoreAction)
      end
  | Some "store_true" =>
      Ok (Action option_strings dest NargsZero (default_or (VBool false))
                 None None false (_StoreConstAction (VBool true)))
  | Some "store_false" =>
      Ok (Action option_strings dest NargsZero (default_or (VBool true))
                 None None false (_StoreConstAction (VBool false)))
  | Some "help" =>
      Ok (Action option_strings dest NargsZero (default_or (VStr SUPPRESS))
                 None None false _HelpAction)
  | Some "version" =>
      Ok (Action option_strings dest NargsZero (default_or (VStr SUPPRESS))
                 None None false
                 (_VersionAction
                    (match kwargs_get get_version kwargs with
                     | Some v => v
                     | None => EmptyString
                     end)))
  | Some _ => Raise ValueError
  end.

(** [_check_conflict] with the default handler, which raises. *)
Definition _check_conflict (p : parser) (a : action) : result unit :=
  match filter (fun s => bool_decide
                           (is_Some (assoc s (_option_string_actions p))))
               (option_strings a) with
  | [] => Ok tt
  | s :: _ => Raise (argument_error_of a (ConflictingOptionString s))
  end.

Definition add_argument (p : parser) (args : list string)
           (kwargs : list kwarg) : result parser :=
  a <- create_action args kwargs ;;
  _ <- _check_conflict p a ;;
  Ok (Parser (error p) (_actions p ++ [a])%list).

(** [ArgumentParser(...)] with [add_help=True]: the parser starts with
    [add_argument('-h', '--help', action='help', default=SUPPRESS)].  The
    class of the parser shows in its [error] method only. *)
Definition ArgumentParser (error : argument_error -> exn) : parser :=
  Parser error
         [Action ["-h"; "--help"] "help" NargsZero (VStr SUPPRESS)
                 None None false _HelpAction].

(** [add_subparsers(dest=...)] followed by the [add_parser] calls, given
    with the parsers in their final state. *)
Definition add_subparsers (p : parser) (dest : string)
           (parsers : list (string * parser)) : parser :=
  Parser (error p)
         (_actions p ++
          [Action [] dest PARSER VNone None (Some (map fst parsers)) false
                  (_SubParsersAction
                     (map (fun '(name, sub) => (name, parse_known_args sub))
                          parsers))])%list.

End Argparse.

(** ** [parser_mp.py] *)

Module ParserMp.

Import Argparse.

(** Modelled from the spec: what one of the optional sampler modules
    (nested_sampling, cosmo_hammer; their sources are not at hand) exports:
    the prefix of its flags ([NS_prefix], [CH_prefix]) and, for each flag,
    the keyword arguments handed to [add_argument] ([NS_user_arguments],
    [CH_user_arguments]). *)
Record backend : Type := Backend {
  prefix : string;
  user_arguments : list (string * list kwarg)
}.

(** What the module reads from its surroundings. *)
Record environment : Type := Environment {
  (** [sys.argv] *)
  argv : list string;
  (** the files and folders on disk *)
  fs : OsPath.filesystem;
  (** the text of the file VERSION of the installation, if it can be
      opened *)
  VERSION : option string;
  (** whether [float(s)] returns *)
  float_accepts : string -> bool;
  (** the sampler modules, [None] when the import fails *)
  nested_sampling : option backend;
  cosmo_hammer : option backend
}.

(** A warning: [text % v + rest]. *)
Record warning : Type := Warning {
  w_format : string;
  w_argument : value;
  w_rest : string
}.

(** Results with the warnings given on the way. *)
Definition W (B : Type) : Type := result B * list warning.

Definition lift {B} (r : result B) : W B := (r, []).

Definition bindW {B C} (m : W B) (k : B -> W C) : W C :=
  match m with
  | (Ok b, ws) => let '(r, ws') := k b in (r, (ws ++ ws')%list)
  | (Raise e, ws) => (Raise e, ws)
  end.

Definition warn (w : warning) : W unit := (Ok tt, [w]).

Notation "x <~ e ;; k" := (bindW e (fun x => k))
  (at level 100, e at next level, right associativity).

(** *** [class MpArgumentParser(argparse.ArgumentParser)] *)

(** [error(self, message)]: [raise io_mp.ConfigurationError(message)] *)
Definition MpArgumentParser_error (message : argument_error) : exn :=
  ConfigurationError (OfArgparse message).

Definition MpArgumentParser : parser :=
  ArgumentParser MpArgumentParser_error.

Definition set_default_subparser (env : environment) (default : string)
           (args : option (list string)) : result (list string) :=
  let args :=
    match args with
    | None | Some [] => tail (argv env)
    | Some args => args
    end in
  match args with
  | [] => Raise IndexError
  | args0 :: rest =>
      if negb (bool_decide (args0 ∈ ["-h"; "--help"; "--version"; "-info"]))
      then
        if negb (Py.find args0 "-" =? -1)%Z
        then Ok (default :: args)
        else Ok args
      else if String.eqb args0 "-info" then Ok ("info" :: rest)
      else Ok args
  end.

Definition safe_parse_args (env : environment) (self : parser)
           (args : option (list string)) : result namespace :=
  args <- set_default_subparser env "run" args ;;
  parse_args self args.

(** *** The types of arguments *)

Definition positive_int (string : string) : result Z :=
  match (value <- Py.int string ;;
         if (value <=? 0)%Z then Raise ValueError else Ok value) with
  | Raise ValueError =>
      Raise (ArgumentTypeError
               ("You asked for a non-positive number of steps. "
                +:+ "I am not sure what to do, so I will exit. Sorry."))
  | r => r
  end.

Definition existing_file (env : environment) (fname : string)
  : result string :=
  if OsPath.isfile (fs env) fname then Ok fname
  else
    Raise (ArgumentTypeError ("The file '" +:+ fname +:+ "' does not exist")).

(** The functions as [type=] arguments; [str], [int] and [float] are the
    builtins. *)
Definition of_int (f : string -> result Z) (s : string) : result value :=
  z <- f s ;; Ok (VInt z).
Definition of_str (f : string -> result string) (s : string)
  : result value :=
  x <- f s ;; Ok (VStr x).
Definition str (s : string) : result value := Ok (VStr s).
Definition int (s : string) : result value := of_int Py.int s.
Definition float (env : environment) (s : string) : result value :=
  if float_accepts env s then Ok (VFloat s) else Raise ValueError.

(** *** [create_parser] *)

(** [for arg in user_arguments: group.add_argument('--'+prefix+arg,
    default=-1, **user_arguments[arg])], under [try ... except
    ImportError: pass].  A [default] among the keyword arguments is given
    twice, a [TypeError]. *)
Definition add_backend (runparser : parser) (module : option backend)
  : result parser :=
  match module with
  | None => Ok runparser
  | Some m =>
      Py.foldM
        (fun runparser '(arg, kwargs) =>
           match kwargs_get get_default kwargs with
           | Some _ => Raise TypeError
           | None =>
               add_argument runparser ["--" +:+ prefix m +:+ arg]
                            (kw_default (VInt (-1)) :: kwargs)
           end)
        runparser (user_arguments m)
  end.

(** [create_parser] is given in three parts: the arguments of the [run]
    parser, those of the [info] parser, and the function itself, which
    makes the main parser and joins the two to it. *)

(** The block [runparser = subparser.add_parser('run', ...)] up to the
    CosmoHammer arguments. *)
Definition run_arguments (env : environment) (runparser : parser)
  : result parser :=
  runparser <- add_argument runparser ["-N"]
    [kw_help "number of steps"; kw_type (of_int positive_int); kw_dest "N"] ;;
  runparser <- add_argument runparser ["-o"; "--output"]
    [kw_help "output folder"; kw_type str; kw_dest "folder"] ;;
  runparser <- add_argument runparser ["-p"; "--param"]
    [kw_help "input param file"; kw_type (of_str (existing_file env));
     kw_dest "param"] ;;
  runparser <- add_argument runparser ["-c"; "--covmat"]
    [kw_help "input cov matrix"; kw_type (of_str (existing_file env));
     kw_dest "cov"] ;;
  runparser <- add_argument runparser ["-j"; "--jumping"]
    [kw_help "jumping method"; kw_dest "jumping";
     kw_default (VStr "global");
     kw_choices ["global"; "sequential"; "fast"]] ;;
  runparser <- add_argument runparser ["-m"; "--method"]
    [kw_help "sampling method"; kw_dest "method"; kw_default (VStr "MH");
     kw_choices ["MH"; "NS"; "CH"; "IS"; "Der"]] ;;
  runparser <- add_argument runparser ["-f"]
    [kw_help "jumping factor"; kw_type (float env);
     kw_dest "jumping_factor"; kw_default (VFloat "2.4")] ;;
  runparser <- add_argument runparser ["--conf"]
    [kw_help "configuration file"; kw_type str; kw_dest "config_file";
     kw_default (VStr "default.conf")] ;;
  runparser <- add_argument runparser ["--chain-number"]
    [kw_help "chain number"] ;;
  (* MCMC restart from chain or best fit file *)
  runparser <- add_argument runparser ["-r"]
    [kw_help "restart from chain"; kw_type (of_str (existing_file env));
     kw_dest "restart"] ;;
  runparser <- add_argument runparser ["-b"; "--bestfit"]
    [kw_dest "bf"; kw_help "restart from best fit file";
     kw_type (of_str (existing_file env))] ;;
  (* Silence the output *)
  runparser <- add_argument runparser ["--silent"]
    [kw_help "params not printed on screen"; kw_action "store_true"] ;;
  (* Adding new derived parameters to a run *)
  runparser <- add_argument runparser ["--Der-target-folder"]
    [kw_dest "Der_target_folder";
     kw_help "Add additional derived params to this folder";
     kw_type str; kw_default (VStr "")] ;;
  runparser <- add_argument runparser ["--Der-param-list"]
    [kw_dest "derived_parameters";
     kw_help "Specify a number of derived parameters to be added";
     kw_type str; kw_default (VStr ""); kw_nargs ONE_OR_MORE] ;;
  (* Importance Sampling Arguments *)
  runparser <- add_argument runparser ["--IS-starting-folder"]
    [kw_dest "IS_starting_folder";
     kw_help "perform Importance Sampling from this folder or set of chains";
     kw_type str; kw_default (VStr ""); kw_nargs ONE_OR_MORE] ;;
  (* MultiNest arguments *)
  runparser <- add_backend runparser (nested_sampling env) ;;
  (* CosmoHammer arguments *)
  add_backend runparser (cosmo_hammer env).

(** The block [infoparser = subparser.add_parser('info', ...)]. *)
Definition info_arguments (infoparser : parser) : result parser :=
  infoparser <- add_argument infoparser ["files"]
    [kw_help "compute information of desired file"; kw_nargs ONE_OR_MORE] ;;
  infoparser <- add_argument infoparser ["--bins"]
    [kw_help "desired number of bins, default is 20"; kw_type int;
     kw_default (VInt 20)] ;;
  infoparser <- add_argument infoparser ["--no-mean"]
    [kw_help "remove the mean likelihood plot"; kw_dest "mean_likelihood";
     kw_action "store_false"] ;;
  infoparser <- add_argument infoparser ["--extra"]
    [kw_help "plot file for custom needs"; kw_dest "optional_plot_file";
     kw_default (VStr "")] ;;
  infoparser <- add_argument infoparser ["--noplot"]
    [kw_help "omit the plotting part"; kw_dest "plot";
     kw_action "store_false"] ;;
  infoparser <- add_argument infoparser ["--noplot-2d"]
    [kw_help "plot only the 1d posterior"; kw_dest "plot_2d";
     kw_action "store_false"] ;;
  infoparser <- add_argument infoparser ["--contours-only"]
    [kw_help "do not fill the contours in 2d plots";
     kw_dest "contours_only"; kw_action "store_true"] ;;
  infoparser <- add_argument infoparser ["--all"]
    [kw_help "plot every single subplot in a separate pdf file";
     kw_dest "subplot"; kw_action "store_true"] ;;
  infoparser <- add_argument infoparser ["--ext"]
    [kw_help "change extension for the output file";
     kw_type str; kw_dest "extension"; kw_default (VStr "pdf")] ;;
  (* Further customization *)
  infoparser <- add_argument infoparser ["--fontsize"]
    [kw_help "desired font size"; kw_type int; kw_default (VInt 16)] ;;
  infoparser <- add_argument infoparser ["--ticksize"]
    [kw_help "desired tick size"; kw_type int; kw_default (VInt 14)] ;;
  infoparser <- add_argument infoparser ["--line-width"]
    [kw_help "desired line width"; kw_type int; kw_default (VInt 4)] ;;
  infoparser <- add_argument infoparser ["--decimal"]
    [kw_help "decimal places on ticks"; kw_type int; kw_default (VInt 3)] ;;
  infoparser <- add_argument infoparser ["--ticknumber"]
    [kw_help "number of ticks on each axe"; kw_type int;
     kw_default (VInt 3)] ;;
  add_argument infoparser ["--legend-style"]
    [kw_help "style of the legend"; kw_type str;
     kw_choices ["sides"; "top"]; kw_default (VStr "sides")].

Definition create_parser (env : environment) : result parser :=
  let parser := MpArgumentParser in
  (* -- version *)
  version <- match VERSION env with
             | Some text => Ok (Py.readline text)
             | None => Raise IOError
             end ;;
  parser <- add_argument parser ["--version"]
              [kw_action "version"; kw_version version] ;;
  (* -- add the subparsers *)
  runparser <- run_arguments env MpArgumentParser ;;
  infoparser <- info_arguments MpArgumentParser ;;
  Ok (add_subparsers parser "subparser_name"
        [("run", runparser); ("info", infoparser)]).

(** *** [parse] *)

Definition is_None (v : value) : bool :=
  match v with VNone => true | _ => false end.

(** [v == s] for a string [s] *)
Definition eq_str (v : value) (s : string) : bool :=
  match v with VStr s' => String.eqb s' s | _ => false end.

(** [v.split(os.path.sep)]: only a string has the method. *)
Definition split_sep (v : value) : result (list string) :=
  match v with
  | VStr s => Ok (Py.split "/" s)
  | _ => Raise AttributeError
  end.

Definition parse (env : environment) (custom_command : string)
  : W namespace :=
  (* Create the parser *)
  parser <~ lift (create_parser env) ;;
  args <~ lift (if String.eqb custom_command ""
                then safe_parse_args env parser None
                else safe_parse_args env parser
                       (Some (Py.split " " custom_command))) ;;
  subparser_name <~ lift (getattr args "subparser_name") ;;
  if eq_str subparser_name "run" then
    restart <~ lift (getattr args "restart") ;;
    if negb (is_None restart) then
      parts <~ lift (split_sep restart) ;;
      let folder := Py.join OsPath.sep (removelast parts) in
      let args := setattr args "folder" (VStr folder) in
      let args :=
        setattr args "param" (VStr (OsPath.join folder "log.param")) in
      _ <~ warn (Warning "Restarting from " restart
                         ". Using associated log.param.") ;;
      lift (Ok args)
    else
      folder <~ lift (getattr args "folder") ;;
      if is_None folder then
        lift (Raise (ConfigurationError (Text
          ("You must provide an output folder, because you do not "
           +:+ "want your main folder to look dirty, do you ?"))))
      else
        folder <~ lift (str_of folder) ;;
        if OsPath.isdir (fs env) folder then
          if OsPath.exists_ (fs env) (OsPath.join folder "log.param") then
            old_param <~ lift (getattr args "param") ;;
            let args :=
              setattr args "param"
                      (VStr (OsPath.join folder "log.param")) in
            if negb (is_None old_param) then
              _ <~ warn (Warning
                           ("Appending to an existing folder: using the "
                            +:+ "log.param instead of ") old_param "") ;;
              lift (Ok args)
            else lift (Ok args)
          else
            param <~ lift (getattr args "param") ;;
            if is_None param then
              lift (Raise (ConfigurationError (Text
                ("The requested output folder seems empty. "
                 +:+ "You must then provide a parameter file (command"
                 +:+ " line option -p any.param)"))))
            else lift (Ok args)
        else
          param <~ lift (getattr args "param") ;;
          if is_None param then
            lift (Raise (ConfigurationError (Text
              ("The requested output folder appears to be non "
               +:+ "existent. You must then provide a parameter file "
               +:+ "(command line option -p any.param)"))))
          else lift (Ok args)
  else lift (Ok args).

End ParserMp.

(** * Properties of the command line layer *)

Import Argparse ParserMp.

(** ** Vocabulary of the statements *)

(** The argument strings [parse] hands to [safe_parse_args]: none for an
    empty [custom_command], else the command split at its blanks. *)
Definition tokens_of (custom_command : string) : option (list string) :=
  if String.eqb custom_command "" then None
  else Some (Py.split " " custom_command).

(** The options as [argparse] returns them, before the checks of [parse]. *)
Definition parsed (env : environment) (custom_command : string)
  : result namespace :=
  parser <- create_parser env ;;
  safe_parse_args env parser (tokens_of custom_command).

(** The folder of a chain file, as [parse] computes it:
    [os.path.sep.join(restart.split(os.path.sep)[:-1])]. *)
Definition folder_of_chain (restart : string) : string :=
  Py.join OsPath.sep (removelast (Py.split "/" restart)).

(** The string has a hyphen somewhere. *)
Definition has_hyphen (s : string) : bool :=
  bool_decide ("-"%char ∈ list_ascii_of_string s).

(** ** An installation to try command lines on

    A folder [out] with a [log.param], an empty folder [empty], a parameter
    file [x.param], chain files [chains/c.txt] and [c.txt]; no sampler module
    is installed. *)
Definition example_fs : OsPath.filesystem :=
  fun path =>
    if String.eqb path "out" then Some OsPath.Directory
    else if String.eqb path "out/log.param" then Some OsPath.RegularFile
    else if String.eqb path "empty" then Some OsPath.Directory
    else if String.eqb path "x.param" then Some OsPath.RegularFile
    else if String.eqb path "chains" then Some OsPath.Directory
    else if String.eqb path "chains/c.txt" then Some OsPath.RegularFile
    else if String.eqb path "c.txt" then Some OsPath.RegularFile
    else None.

Definition example_env : environment :=
  Environment ["montepython/MontePython.py"] example_fs (Some "2.2.2")
              (fun _ => true) None None.

(** ** The warning monad *)

Lemma bindW_lift_Ok {B C} (b : B) (k : B -> W C) : bindW (lift (Ok b)) k = k b.
Proof. unfold bindW, lift. destruct (k b); reflexivity. Qed.

Lemma bindW_lift_Raise {B C} (e : exn) (k : B -> W C) :
  bindW (lift (Raise e)) k = (Raise e, []).
Proof. reflexivity. Qed.

Lemma bindW_warn {C} (w : warning) (k : unit -> W C) :
  bindW (warn w) k = (fst (k tt), w :: snd (k tt)).
Proof. unfold bindW, warn. destruct (k tt); reflexivity. Qed.

(** [parse] starts with the two steps of [parsed]. *)
Ltac start_parse H :=
  unfold parse; unfold parsed, tokens_of in H;
  destruct (create_parser _) as [?parser|]; [|discriminate H];
  simpl in H; rewrite bindW_lift_Ok;
  destruct (String.eqb _ ""); rewrite H, bindW_lift_Ok; clear H.

Ltac getattr_with H :=
  unfold getattr; rewrite H; rewrite bindW_lift_Ok; simpl.


Set Warnings "-clear-no-such-hyp".
Lemma prefix_empty (s : string) : String.prefix "" s = true.
Proof. destruct s; reflexivity. Qed.

Lemma find_from_hyphen (s : string) (i : Z) :
  0 <= i ->
  (Py.find_from s "-" i =? -1)%Z = negb (has_hyphen s).
Proof.
  unfold has_hyphen. revert i.
  induction s as [|c s IH]; intros i Hi.
  - reflexivity.
  - cbn [Py.find_from String.prefix list_ascii_of_string].
    destruct (ascii_dec "-" c) as [<-|Hne].
    + rewrite prefix_empty, bool_decide_eq_true_2 by left.
      simpl. apply Z.eqb_neq. lia.
    + rewrite IH by lia. f_equal. apply bool_decide_ext.
      rewrite elem_of_cons. naive_solver.
Qed.

Lemma find_hyphen (s : string) :
  negb (Py.find s "-" =? -1)%Z = has_hyphen s.
Proof. unfold Py.find. rewrite find_from_hyphen by lia. apply negb_involutive. Qed.

(** C1 (as amended): [set_default_subparser] on a list of strings that is
    not empty.  A first string among [-h], [--help], [--version] leaves the
    list as it is; [-info] in front is replaced by [info]; otherwise [run]
    is put in front exactly when the first string has a hyphen somewhere
    (not only at its start), and the list is left as it is when it has
    none. *)
Theorem set_default_subparser_rewrite
        (env : environment) (first : string) (rest : list string) :
  set_default_subparser env "run" (Some (first :: rest)) =
  Ok (if bool_decide (first ∈ ["-h"; "--help"; "--version"]) then first :: rest
      else if bool_decide (first = "-info") then "info" :: rest
      else if has_hyphen first then "run" :: first :: rest
      else first :: rest).
Proof.
  unfold set_default_subparser. rewrite find_hyphen.
  destruct (bool_decide (first ∈ ["-h"; "--help"; "--version"])) eqn:E1.
  - apply bool_decide_eq_true in E1.
    rewrite bool_decide_eq_true_2 by set_solver. simpl.
    destruct (String.eqb_spec first "-info") as [->|]; [|reflexivity].
    set_solver.
  - apply bool_decide_eq_false in E1.
    destruct (bool_decide (first = "-info")) eqn:E2.
    + apply bool_decide_eq_true in E2. subst. reflexivity.
    + apply bool_decide_eq_false in E2.
      rewrite bool_decide_eq_false_2 by set_solver. simpl.
      destruct (has_hyphen first); reflexivity.
Qed.

(** A first string with a hyphen inside, not in front: [run] is put in
    front all the same. *)
Lemma set_default_subparser_contains_hyphen :
  Py.startswith "chains/my-run" "-" = false /\
  set_default_subparser example_env "run" (Some ["chains/my-run"; "-N"; "10"])
  = Ok ["run"; "chains/my-run"; "-N"; "10"].
Proof. split; reflexivity. Qed.

(** C10: with no argument on the command line of the process
    ([sys.argv[1:]] is empty), [set_default_subparser] on an empty or absent
    list of strings reads [args[0]] of an empty list and raises
    [IndexError]; so do [safe_parse_args] and, once the parser is built,
    [parse] with an empty command: no [ConfigurationError], no options. *)
Theorem empty_argument_list_IndexError (env : environment) :
  tail (argv env) = [] ->
  (forall default, set_default_subparser env default (Some []) = Raise IndexError) /\
  (forall default, set_default_subparser env default None = Raise IndexError) /\
  (forall self, safe_parse_args env self None = Raise IndexError) /\
  parse env "" =
    (match create_parser env with
     | Ok _ => Raise IndexError
     | Raise e => Raise e
     end, []).
Proof.
  intros Hargv. repeat split.
  - intros. unfold set_default_subparser. rewrite Hargv. reflexivity.
  - intros. unfold set_default_subparser. rewrite Hargv. reflexivity.
  - intros. unfold safe_parse_args, set_default_subparser. rewrite Hargv. reflexivity.
  - unfold parse. destruct (create_parser env) as [parser|e]; [|reflexivity].
    rewrite bindW_lift_Ok. simpl.
    unfold safe_parse_args, set_default_subparser. rewrite Hargv. reflexivity.
Qed.

Lemma empty_argument_list_IndexError_witness :
  tail (argv example_env) = [] /\
  parse example_env "" = (Raise IndexError, []).
Proof.
  split; [reflexivity|].
  rewrite (proj2 (proj2 (proj2 (empty_argument_list_IndexError example_env eq_refl)))).
  vm_compute. reflexivity.
Defined.

Lemma split_nonempty (sep : ascii) (s : string) : Py.split sep s <> [].
Proof.
  induction s as [|c s IH]; simpl; [discriminate|].
  destruct (Ascii.eqb c sep); [discriminate|].
  destruct (Py.split sep s); [contradiction|discriminate].
Qed.

Lemma split_no_sep (f : string) :
  "/"%char ∉ list_ascii_of_string f -> Py.split "/" f = [f].
Proof.
  induction f as [|c f IH]; simpl; intros Hf; [reflexivity|].
  apply not_elem_of_cons in Hf as [Hc Hf].
  destruct (Ascii.eqb_spec c "/") as [->|_]; [contradiction|].
  rewrite IH by assumption. reflexivity.
Qed.

Lemma split_app_sep (d f : string) :
  "/"%char ∉ list_ascii_of_string f ->
  Py.split "/" (d +:+ "/" +:+ f) = (Py.split "/" d ++ [f])%list.
Proof.
  intros Hf. induction d as [|c d IH]; simpl.
  - rewrite split_no_sep by assumption. reflexivity.
  - destruct (Ascii.eqb c "/").
    + simpl in IH. rewrite IH. reflexivity.
    + simpl in IH. rewrite IH.
      destruct (Py.split "/" d) as [|w ws] eqn:E; [|reflexivity].
      exfalso. eapply split_nonempty, E.
Qed.

Lemma join_split (d : string) : Py.join "/" (Py.split "/" d) = d.
Proof.
  unfold Py.join. induction d as [|c d IH]; simpl; [reflexivity|].
  destruct (Ascii.eqb_spec c "/") as [->|_].
  - destruct (Py.split "/" d) as [|w ws] eqn:E.
    { exfalso. eapply split_nonempty, E. }
    simpl in *. rewrite IH. reflexivity.
  - destruct (Py.split "/" d) as [|w ws] eqn:E.
    { exfalso. eapply split_nonempty, E. }
    simpl in *. destruct ws; simpl in *; rewrite <- IH; reflexivity.
Qed.

(** The folder of [d/f] is [d] when [f] is a plain file name. *)
Lemma folder_of_chain_path (d f : string) :
  "/"%char ∉ list_ascii_of_string f ->
  folder_of_chain (d +:+ "/" +:+ f) = d.
Proof.
  intros Hf. unfold folder_of_chain.
  rewrite split_app_sep by assumption.
  rewrite removelast_last. apply join_split.
Qed.

(** Running a command line of the example installation: [parsed] gives
    options [args], known by what computing on them gives. *)
Ltac run_parsed args E :=
  match goal with
  | |- context [parsed ?env ?cmd] =>
      destruct (parsed env cmd) as [args|] eqn:E;
      [|exfalso;
        assert (Hok : match parsed env cmd with
                      | Ok _ => True
                      | Raise _ => False
                      end) by (vm_compute; exact I);
        rewrite E in Hok; exact Hok]
  end.

Ltac lookup_parsed E :=
  match type of E with
  | parsed ?env ?cmd = Ok ?args =>
      match goal with
      | |- args !! ?k = ?v =>
          change (match Ok args with
                  | Ok a => a !! k
                  | Raise _ => None
                  end = v);
          rewrite <- E; vm_compute; reflexivity
      end
  end.

(** C3: for a [run] command line with a chain file given by [-r], [parse]
    sets [folder] to the path of the chain file without its last component
    and [param] to [log.param] in that folder, whatever [-o] and [-p] gave,
    and gives one warning; for a chain file [d/f] the folder is [d]. *)
Theorem restart_sets_folder_and_param
        (env : environment) (cmd : string) (args : namespace) (chain : string) :
  parsed env cmd = Ok args ->
  args !! "subparser_name" = Some (VStr "run") ->
  args !! "restart" = Some (VStr chain) ->
  parse env cmd =
    (Ok (<["param" := VStr (OsPath.join (folder_of_chain chain) "log.param")]>
           (<["folder" := VStr (folder_of_chain chain)]> args)),
     [Warning "Restarting from " (VStr chain) ". Using associated log.param."])
  /\ (forall d f, chain = d +:+ "/" +:+ f ->
             "/"%char ∉ list_ascii_of_string f -> folder_of_chain chain = d).
Proof.
  intros Hp Hname Hrestart. split.
  - start_parse Hp; unfold getattr; rewrite Hname; simpl; rewrite Hrestart;
      reflexivity.
  - intros d f -> Hf. apply folder_of_chain_path, Hf.
Qed.

Lemma restart_sets_folder_and_param_witness :
  exists args,
    parsed example_env "-r chains/c.txt -o out -p x.param" = Ok args /\
    args !! "folder" = Some (VStr "out") /\
    args !! "param" = Some (VStr "x.param") /\
    parse example_env "-r chains/c.txt -o out -p x.param" =
      (Ok (<["param" := VStr "chains/log.param"]>
             (<["folder" := VStr "chains"]> args)),
       [Warning "Restarting from " (VStr "chains/c.txt")
                ". Using associated log.param."]).
Proof.
  run_parsed args E. exists args.
  split; [reflexivity|].
  split; [lookup_parsed E|].
  split; [lookup_parsed E|].
  apply (proj1 (restart_sets_folder_and_param
                  example_env _ args "chains/c.txt" E
                  ltac:(lookup_parsed E) ltac:(lookup_parsed E))).
Defined.

(** C5: for a [run] command line without [-r] and without [-o], [parse]
    raises [ConfigurationError]. *)
Theorem run_without_output_folder
        (env : environment) (cmd : string) (args : namespace) :
  parsed env cmd = Ok args ->
  args !! "subparser_name" = Some (VStr "run") ->
  args !! "restart" = Some VNone ->
  args !! "folder" = Some VNone ->
  exists msg, parse env cmd = (Raise (ConfigurationError (Text msg)), []).
Proof.
  intros Hp Hname Hrestart Hfolder. eexists.
  start_parse Hp; unfold getattr; rewrite Hname; simpl; rewrite Hrestart;
    simpl; rewrite Hfolder; reflexivity.
Qed.

Lemma run_without_output_folder_witness :
  exists args msg,
    parsed example_env "-N 10 -p x.param" = Ok args /\
    parse example_env "-N 10 -p x.param" =
      (Raise (ConfigurationError (Text msg)), []).
Proof.
  run_parsed args E.
  destruct (run_without_output_folder
              example_env _ args E ltac:(lookup_parsed E)
              ltac:(lookup_parsed E) ltac:(lookup_parsed E)) as [msg Hmsg].
  exists args, msg. split; [reflexivity|exact Hmsg].
Defined.

(** C6: for a [run] command line without [-r], with an output folder and
    without [-p]: when the folder does not exist, or is a directory without
    [log.param], [parse] raises [ConfigurationError]. *)
Theorem run_without_parameter_file
        (env : environment) (cmd : string) (args : namespace) (folder : string) :
  parsed env cmd = Ok args ->
  args !! "subparser_name" = Some (VStr "run") ->
  args !! "restart" = Some VNone ->
  args !! "folder" = Some (VStr folder) ->
  args !! "param" = Some VNone ->
  fs env folder = None \/
  (OsPath.isdir (fs env) folder = true /\
   OsPath.exists_ (fs env) (OsPath.join folder "log.param") = false) ->
  exists msg, parse env cmd = (Raise (ConfigurationError (Text msg)), []).
Proof.
  intros Hp Hname Hrestart Hfolder Hparam Hdisk.
  assert (Hcases :
            OsPath.isdir (fs env) folder = false \/
            (OsPath.isdir (fs env) folder = true /\
             OsPath.exists_ (fs env) (OsPath.join folder "log.param") = false)).
  { destruct Hdisk as [Hnone|Hdir]; [left|right; exact Hdir].
    unfold OsPath.isdir. rewrite Hnone. reflexivity. }
  destruct Hcases as [Hno|[Hdir Hlog]]; eexists;
    start_parse Hp; unfold getattr; rewrite Hname; simpl; rewrite Hrestart;
    simpl; rewrite Hfolder; simpl; rewrite ?Hno, ?Hdir, ?Hlog, Hparam;
    reflexivity.
Qed.

Lemma run_without_parameter_file_witness :
  (exists args msg,
      parsed example_env "-N 10 -o newfolder" = Ok args /\
      parse example_env "-N 10 -o newfolder" =
        (Raise (ConfigurationError (Text msg)), []))
  /\ (exists args msg,
         parsed example_env "-N 10 -o empty" = Ok args /\
         parse example_env "-N 10 -o empty" =
           (Raise (ConfigurationError (Text msg)), [])).
Proof.
  split.
  - run_parsed args E.
    destruct (run_without_parameter_file
                example_env _ args "newfolder" E ltac:(lookup_parsed E)
                ltac:(lookup_parsed E) ltac:(lookup_parsed E)
                ltac:(lookup_parsed E) (or_introl eq_refl)) as [msg Hmsg].
    exists args, msg. split; [reflexivity|exact Hmsg].
  - run_parsed args E.
    destruct (run_without_parameter_file
                example_env _ args "empty" E ltac:(lookup_parsed E)
                ltac:(lookup_parsed E) ltac:(lookup_parsed E)
                ltac:(lookup_parsed E)
                (or_intror (conj eq_refl eq_refl))) as [msg Hmsg].
    exists args, msg. split; [reflexivity|exact Hmsg].
Defined.

(** C2 (as amended): for a [run] command line without [-r] whose output
    folder is a directory that has a [log.param], [parse] sets [param] to
    that [log.param] whatever [-p] gave, and warns exactly when a parameter
    file was given at all, also when it is that very [log.param]. *)
Theorem existing_log_param_wins
        (env : environment) (cmd : string) (args : namespace)
        (folder : string) (supplied : value) :
  parsed env cmd = Ok args ->
  args !! "subparser_name" = Some (VStr "run") ->
  args !! "restart" = Some VNone ->
  args !! "folder" = Some (VStr folder) ->
  args !! "param" = Some supplied ->
  OsPath.isdir (fs env) folder = true ->
  OsPath.exists_ (fs env) (OsPath.join folder "log.param") = true ->
  parse env cmd =
    (Ok (<["param" := VStr (OsPath.join folder "log.param")]> args),
     if is_None supplied then []
     else [Warning ("Appending to an existing folder: using the "
                    +:+ "log.param instead of ") supplied ""]).
Proof.
  intros Hp Hname Hrestart Hfolder Hparam Hdir Hlog.
  start_parse Hp; unfold getattr; rewrite Hname; simpl; rewrite Hrestart;
    simpl; rewrite Hfolder; simpl; rewrite Hdir, Hlog, Hparam;
    destruct supplied; reflexivity.
Qed.

Lemma existing_log_param_wins_witness :
  exists args,
    parsed example_env "-N 10 -o out -p x.param" = Ok args /\
    parse example_env "-N 10 -o out -p x.param" =
      (Ok (<["param" := VStr "out/log.param"]> args),
       [Warning
          "Appending to an existing folder: using the log.param instead of "
          (VStr "x.param") ""]).
Proof.
  run_parsed args E. exists args. split; [reflexivity|].
  apply (existing_log_param_wins
           example_env _ args "out" (VStr "x.param") E
           ltac:(lookup_parsed E) ltac:(lookup_parsed E)
           ltac:(lookup_parsed E) ltac:(lookup_parsed E) eq_refl eq_refl).
Defined.

(** The parameter file given is the [log.param] of the folder: [parse]
    warns all the same. *)
Lemma same_log_param_still_warns :
  exists args,
    parsed example_env "-N 10 -o out -p out/log.param" = Ok args /\
    args !! "folder" = Some (VStr "out") /\
    args !! "param" = Some (VStr (OsPath.join "out" "log.param")) /\
    snd (parse example_env "-N 10 -o out -p out/log.param") <> [].
Proof.
  run_parsed args E. exists args.
  split; [reflexivity|].
  split; [lookup_parsed E|].
  split; [lookup_parsed E|].
  vm_compute. discriminate.
Qed.


(** ** Results that stay within bounds *)

(** A result is an exception among [E] or a value with [I]. *)
Definition ok_res {X} (E : exn -> Prop) (I : X -> Prop) (r : result X) : Prop :=
  match r with
  | Ok x => I x
  | Raise e => E e
  end.

Lemma ok_res_bind {X Y} (E : exn -> Prop) (I : X -> Prop) (J : Y -> Prop)
      (r : result X) (k : X -> result Y) :
  ok_res E I r -> (forall x, I x -> ok_res E J (k x)) -> ok_res E J (Py.bind r k).
Proof. destruct r; simpl; auto. Qed.

Lemma ok_res_weaken {X} (E : exn -> Prop) (I J : X -> Prop) (r : result X) :
  ok_res E I r -> (forall x, I x -> J x) -> ok_res E J r.
Proof. destruct r; simpl; auto. Qed.

Lemma ok_res_mapM {X Y} (E : exn -> Prop) (f : X -> result Y) (l : list X) :
  (forall x, ok_res E (fun _ => True) (f x)) ->
  ok_res E (fun _ => True) (Py.mapM f l).
Proof.
  intros Hf. induction l as [|x l IH]; simpl; [exact I|].
  eapply ok_res_bind; [apply Hf|]. intros y _.
  eapply ok_res_bind; [apply IH|]. intros ys _. exact I.
Qed.


(** ** Classification of the argument strings *)

Lemma assoc_elem_of {B} (k : string) (l : list (string * B)) (v : B) :
  assoc k l = Some v -> (k, v) ∈ l.
Proof.
  induction l as [|[k' v'] l IH]; simpl; [discriminate|].
  destruct (String.eqb_spec k' k) as [->|_].
  - intros [= ->]. left.
  - intros H. right. apply IH, H.
Qed.

Lemma _get_option_tuples_table (p : parser) (s : string) (a : action)
      (os : string) (ea : option string) :
  (Some a, os, ea) ∈ _get_option_tuples p s ->
  (os, a) ∈ _option_string_actions p.
Proof.
  unfold _get_option_tuples.
  destruct (second_is_dash s).
  - destruct (match split_eq s with
              | Some (l, r) => (l, Some r)
              | None => (s, None)
              end) as [option_prefix explicit_arg].
    intros H. apply list_elem_of_In, in_flat_map in H as ([os' a'] & Hin & Hx).
    destruct (Py.startswith os' option_prefix); simpl in Hx;
      [|contradiction].
    destruct Hx as [[= -> -> _]|[]]. apply list_elem_of_In, Hin.
  - intros H. apply list_elem_of_In, in_flat_map in H as ([os' a'] & Hin & Hx).
    destruct (String.eqb os' _); simpl in Hx.
    { destruct Hx as [[= -> -> _]|[]]. apply list_elem_of_In, Hin. }
    destruct (Py.startswith os' s); simpl in Hx; [|contradiction].
    destruct Hx as [[= -> -> _]|[]]. apply list_elem_of_In, Hin.
Qed.

(** The action of an option tuple is registered under its option string. *)
Lemma _parse_optional_table (p : parser) (s : string) (a : action)
      (os : string) (ea : option string) :
  _parse_optional p s = Ok (Some (Some a, os, ea)) ->
  (os, a) ∈ _option_string_actions p.
Proof.
  unfold _parse_optional. destruct s as [|c tl]; [discriminate|].
  destruct (negb (Ascii.eqb c "-")); [discriminate|].
  destruct (assoc (String c tl) (_option_string_actions p)) as [a0|] eqn:Ha0.
  { intros [= ? ? ?]; subst. apply assoc_elem_of, Ha0. }
  destruct (String.eqb tl ""); [discriminate|].
  destruct (split_eq (String c tl)) as [[option_string explicit_arg]|].
  - destruct (assoc option_string (_option_string_actions p)) as [a1|] eqn:Ha1.
    { intros [= ? ? ?]; subst. apply assoc_elem_of, Ha1. }
    destruct (_get_option_tuples p (String c tl)) as [|t [|t' l]] eqn:Ht.
    + destruct (_ && _); [discriminate|].
      destruct (contains_space _); discriminate.
    + intros [= ->]. eapply _get_option_tuples_table. rewrite Ht. left.
    + discriminate.
  - destruct (_get_option_tuples p (String c tl)) as [|t [|t' l]] eqn:Ht.
    + destruct (_ && _); [discriminate|].
      destruct (contains_space _); discriminate.
    + intros [= ->]. eapply _get_option_tuples_table. rewrite Ht. left.
    + discriminate.
Qed.

Lemma _parse_optional_error (p : parser) (s : string) (e : exn) :
  _parse_optional p s = Raise e -> exists err, e = error p err.
Proof.
  unfold _parse_optional. destruct s as [|c tl]; [discriminate|].
  destruct (negb (Ascii.eqb c "-")); [discriminate|].
  destruct (assoc (String c tl) _); [discriminate|].
  destruct (String.eqb tl ""); [discriminate|].
  destruct (match split_eq (String c tl) with
            | Some (option_string, explicit_arg) =>
                match assoc option_string (_option_string_actions p) with
                | Some a => Some (Some a, option_string, Some explicit_arg)
                | None => None
                end
            | None => None
            end); [discriminate|].
  destruct (_get_option_tuples p (String c tl)) as [|t [|t' l]].
  - destruct (_ && _); [discriminate|].
    destruct (contains_space _); discriminate.
  - discriminate.
  - intros [= <-]. eauto.
Qed.

Lemma classify_error (p : parser) (l : list string) (e : exn) :
  classify p l = Raise e -> exists err, e = error p err.
Proof.
  induction l as [|s l IH]; simpl; [discriminate|].
  destruct (String.eqb s "--"); [discriminate|].
  destruct (_parse_optional p s) as [t|e'] eqn:Ht; simpl.
  - destruct (classify p l) as [rest|e'']; simpl; [discriminate|].
    intros [= <-]. apply IH. reflexivity.
  - intros [= <-]. eapply _parse_optional_error, Ht.
Qed.

Lemma classify_fst (p : parser) (l : list string)
      (strings : list (string * letter)) :
  classify p l = Ok strings -> map fst strings = l.
Proof.
  revert strings. induction l as [|s l IH]; intros strings; simpl.
  - intros [= <-]. reflexivity.
  - destruct (String.eqb s "--").
    + intros [= <-]. simpl. f_equal. rewrite map_map. simpl. apply map_id.
    + destruct (_parse_optional p s) as [t|]; simpl; [|discriminate].
      destruct (classify p l) as [rest|]; simpl; [|discriminate].
      intros [= <-]. simpl. f_equal. apply IH. reflexivity.
Qed.

(** Every option of the pattern is a string that [_parse_optional] reads as
    this option. *)
Lemma classify_option (p : parser) (l : list string)
      (strings : list (string * letter)) (s : string) (t : option_tuple) :
  classify p l = Ok strings -> (s, O t) ∈ strings ->
  s ∈ l /\ _parse_optional p s = Ok (Some t).
Proof.
  revert strings. induction l as [|s0 l IH]; intros strings; simpl.
  - intros [= <-] Hin. inversion Hin.
  - destruct (String.eqb s0 "--").
    + intros [= <-] Hin. apply elem_of_cons in Hin as [[= ]|Hin].
      apply list_elem_of_In, in_map_iff in Hin as (x & [= ] & _).
    + destruct (_parse_optional p s0) as [t0|] eqn:Ht0; simpl; [|discriminate].
      destruct (classify p l) as [rest|]; simpl; [|discriminate].
      intros [= <-] Hin. apply elem_of_cons in Hin as [Heq|Hin].
      * destruct t0 as [t0|]; inversion Heq; subst. split; [left|exact Ht0].
      * destruct (IH rest eq_refl Hin) as [Hl Hs]. split; [right|]; assumption.
Qed.

(** ** Counting letters of the pattern *)

Definition not_O (l : letter) : bool := negb (is_O l).

Lemma count_while_le (f g : letter -> bool) (l : list letter) :
  (forall x, f x = true -> g x = true) ->
  (count_while f l <= count_while g l)%nat.
Proof.
  intros Hfg. induction l as [|x l IH]; simpl; [lia|].
  destruct (f x) eqn:Hf; [rewrite (Hfg x Hf); lia|lia].
Qed.

Lemma count_while_drop (f g : letter -> bool) (l : list letter) :
  (forall x, f x = true -> g x = true) ->
  count_while g l
  = (count_while f l + count_while g (drop (count_while f l) l))%nat.
Proof.
  intros Hfg. induction l as [|x l IH]; simpl; [reflexivity|].
  destruct (f x) eqn:Hf; [|reflexivity].
  rewrite (Hfg x Hf). simpl. rewrite <- IH. reflexivity.
Qed.

Lemma count_while_length (f : letter -> bool) (l : list letter) :
  (count_while f l <= List.length l)%nat.
Proof. induction l as [|x l IH]; simpl; [lia|]. destruct (f x); lia. Qed.

(** An action that is not a sub-command takes no option as an argument. *)
Lemma match_nargs_not_O (optional : bool) (n : nargs) (pattern : list letter)
      (k : nat) :
  n <> PARSER -> match_nargs optional n pattern = Some k ->
  (k <= count_while not_O pattern)%nat.
Proof.
  intros Hn. unfold match_nargs.
  set (d := if optional then 0%nat else count_while is_Dash pattern).
  assert (Hd : count_while not_O pattern
               = (d + count_while not_O (drop d pattern))%nat).
  { subst d. destruct optional; [reflexivity|].
    apply count_while_drop. intros [| |]; simpl; auto. }
  destruct n; try contradiction.
  - destruct (drop d pattern) as [|[| |] rest]; try discriminate.
    intros [= <-]. rewrite Hd. simpl.
    pose proof (count_while_le
                  (fun l => negb optional && is_Dash l) not_O rest) as H.
    assert (forall x, negb optional && is_Dash x = true -> not_O x = true)
      as Hsub by (intros [| |]; simpl; auto; destruct optional; auto).
    specialize (H Hsub). lia.
  - intros [= <-]. lia.
  - destruct (drop d pattern) as [|[| |] rest]; try discriminate.
    intros [= <-]. rewrite Hd. simpl.
    pose proof (count_while_le
                  (fun l => is_A l || negb optional && is_Dash l) not_O rest)
      as H.
    assert (forall x, is_A x || negb optional && is_Dash x = true ->
                 not_O x = true)
      as Hsub by (intros [| |]; simpl; auto; destruct optional; auto).
    specialize (H Hsub). lia.
Qed.

Ltac step_bind := repeat (progress (cbn [Py.bind]; cbv beta iota)).

Section Engine.

Context (p : parser) (E : exn -> Prop) (I : namespace -> Prop)
        (allowed : action -> Prop).

Hypothesis E_argument : forall e, E (ArgumentError e).
Hypothesis E_error : forall e, E (error p e).
Hypothesis E_index : E IndexError.
Hypothesis allowed_type :
  forall a f s e,
    allowed a -> type a = Some f -> f s = Raise e ->
    E e \/ (exists m, e = ArgumentTypeError m) \/ e = TypeError \/ e = ValueError.
Hypothesis allowed_call :
  forall a ns l v,
    allowed a -> _get_values a l = Ok v -> I ns -> ok_res E I (call a ns v).

Definition never_returns (a : action) : Prop :=
  forall ns v, exists e, call a ns v = Raise e.

(** An option tuple the invariant survives: the action is allowed, and a
    one-letter flag without argument (the only kind that hands an explicit
    argument on to further letters) never returns. *)
Definition tuple_ok (t : option_tuple) : Prop :=
  match t with
  | (Some a, os, _) =>
      allowed a /\
      (a_nargs a = NargsZero -> second_is_dash os = false -> never_returns a)
  | (None, _, _) => True
  end.

Definition letter_ok (x : string * letter) : Prop :=
  match snd x with
  | O t => tuple_ok t
  | _ => True
  end.

Lemma _get_value_ok (a : action) (s : string) :
  allowed a -> ok_res E (fun _ => True) (_get_value a s).
Proof.
  intros Ha. unfold _get_value.
  destruct (type a) as [f|] eqn:Hf; [|exact Logic.I].
  destruct (f s) as [v|e] eqn:Hfs; [exact Logic.I|].
  pose proof (allowed_type a f s e Ha Hf Hfs) as Hcases.
  destruct e; simpl; try apply E_argument;
    destruct Hcases as [He|[[m Hm]|[Hm|Hm]]];
    try exact He; try discriminate Hm.
Qed.

Lemma _check_value_ok (a : action) (v : value) :
  ok_res E (fun _ => True) (_check_value a v).
Proof.
  unfold _check_value. destruct (choices a); [|exact Logic.I].
  destruct v; simpl; try apply E_argument.
  destruct (bool_decide _); simpl; [exact Logic.I|apply E_argument].
Qed.

Lemma _get_values_ok (a : action) (l : list string) :
  allowed a -> ok_res E (fun _ => True) (_get_values a l).
Proof.
  intros Ha. unfold _get_values.
  set (l' := match a_nargs a with PARSER => l | _ => Py.remove_first "--" l end).
  clearbody l'.
  assert (Hlist :
            ok_res E (fun _ => True)
              (vs <- Py.mapM (_get_value a) l' ;;
               _ <- Py.mapM (_check_value a) vs ;; Ok (VList vs))).
  { eapply ok_res_bind; [apply ok_res_mapM; intros; apply _get_value_ok, Ha|].
    intros vs _. eapply ok_res_bind; [apply ok_res_mapM, _check_value_ok|].
    intros; exact Logic.I. }
  assert (Hparser :
            ok_res E (fun _ => True)
              (vs <- Py.mapM (_get_value a) l' ;;
               match vs with
               | v0 :: _ => _ <- _check_value a v0 ;; Ok (VList vs)
               | [] => Raise IndexError
               end)).
  { eapply ok_res_bind; [apply ok_res_mapM; intros; apply _get_value_ok, Ha|].
    intros vs _. destruct vs; [exact E_index|].
    eapply ok_res_bind; [apply _check_value_ok|]. intros; exact Logic.I. }
  assert (Hone :
            forall s, ok_res E (fun _ => True)
                   (v <- _get_value a s ;; _ <- _check_value a v ;; Ok v)).
  { intros s. eapply ok_res_bind; [apply _get_value_ok, Ha|].
    intros v _. eapply ok_res_bind; [apply _check_value_ok|].
    intros; exact Logic.I. }
  destruct l' as [|s [|s' l'']]; destruct (a_nargs a); auto.
Qed.

Lemma take_action_ok (st : state) (a : action) (l : list string) :
  allowed a -> I (st_namespace st) ->
  ok_res E (fun st' => I (st_namespace st') /\
                       st_positionals st' = st_positionals st)
         (take_action st a l).
Proof.
  intros Ha Hst. unfold take_action.
  destruct (_get_values a l) as [v|e] eqn:Hv;
    [|pose proof (_get_values_ok a l Ha) as H; rewrite Hv in H; exact H].
  step_bind.
  eapply ok_res_bind; [eapply allowed_call; eassumption|].
  intros ns Hns. simpl. auto.
Qed.


Lemma _match_argument_ok (a : action) (pattern : list letter) :
  ok_res E (fun _ => True) (_match_argument a pattern).
Proof.
  unfold _match_argument. destruct (match_nargs _ _ _); [exact Logic.I|].
  apply E_argument.
Qed.

Lemma _match_argument_A (a : action) (n : nat) :
  _match_argument a [A] = Ok n ->
  (n = 0%nat /\ a_nargs a = NargsZero) \/ n = 1%nat.
Proof.
  unfold _match_argument, match_nargs.
  destruct (is_optional a), (a_nargs a); simpl; intros [= <-]; auto.
Qed.

(** What the loop over an explicit argument returns: the option took the
    argument, or the tuples start with a one-letter flag. *)
Definition explicit_shape (a : action) (os ea : string)
           (acc : list (action * list string))
           (r : list (action * list string) * explicit_end) : Prop :=
  exists more,
    fst r = (acc ++ more)%list /\
    ((more = [(a, [ea])] /\ snd r = Stop) \/
     (exists rest, more = (a, []) :: rest /\ a_nargs a = NargsZero /\
              second_is_dash os = false)).

Lemma explicit_loop_ok (ea : string) :
  forall a os acc,
    ok_res E (explicit_shape a os ea acc) (explicit_loop p a os ea acc).
Proof.
  induction ea as [|c ea IH]; intros a os acc; simpl.
  - destruct (_match_argument a [A]) as [n|e] eqn:Hn;
      [|pose proof (_match_argument_ok a [A]) as H; rewrite Hn in H; exact H].
    simpl. apply _match_argument_A in Hn as [[-> Hz]| ->]; simpl.
    + destruct (second_is_dash os) eqn:Hos; simpl;
        [apply E_argument|exact E_index].
    + exists [(a, [""])]. simpl. auto.
  - destruct (_match_argument a [A]) as [n|e] eqn:Hn;
      [|pose proof (_match_argument_ok a [A]) as H; rewrite Hn in H; exact H].
    simpl. apply _match_argument_A in Hn as [[-> Hz]| ->]; simpl.
    + destruct (second_is_dash os) eqn:Hos; simpl; [apply E_argument|].
      destruct (assoc _ _) as [a'|]; [|apply E_argument].
      destruct ea as [|c' ea'].
      * simpl. exists ((a, []) :: []). simpl. split; [reflexivity|].
        right. exists []. auto.
      * specialize (IH a' (String "-" (String c "")) (acc ++ [(a, [])])%list).
        eapply ok_res_weaken; [exact IH|].
        intros [tuples fin] (more & Hfst & Hmore). simpl in Hfst.
        exists ((a, []) :: more). simpl. split.
        { rewrite Hfst, <- app_assoc. reflexivity. }
        right. exists more. auto.
    + exists [(a, [String c ea])]. simpl. auto.
Qed.

Lemma foldM_take_action_one (st : state) (a : action) (args : list string) :
  allowed a -> I (st_namespace st) ->
  ok_res E (fun st' => I (st_namespace st') /\
                       st_positionals st' = st_positionals st)
         (Py.foldM (fun st '(a, args) => take_action st a args) st
                   [(a, args)]).
Proof.
  intros Ha Hst. simpl.
  eapply ok_res_bind; [apply take_action_ok; eassumption|].
  intros st' Hst'. exact Hst'.
Qed.

Lemma foldM_take_action_flag (st : state) (a : action)
      (rest : list (action * list string)) (J : state -> Prop) :
  allowed a -> never_returns a -> I (st_namespace st) ->
  ok_res E J
         (Py.foldM (fun st '(a, args) => take_action st a args) st
                   ((a, []) :: rest)).
Proof.
  intros Ha Hnever Hst. simpl. unfold take_action at 1.
  destruct (_get_values a []) as [v|e] eqn:Hv;
    [|pose proof (_get_values_ok a [] Ha) as H; rewrite Hv in H; exact H].
  simpl. destruct (Hnever (st_namespace st) v) as [e He].
  pose proof (allowed_call a (st_namespace st) [] v Ha Hv Hst) as H.
  rewrite He in *. exact H.
Qed.

(** An action that does not take the rest of the command line. *)
Definition plain (a : action) : Prop := a_nargs a <> PARSER.

Definition tuple_plain (t : option_tuple) : Prop :=
  match t with
  | (Some a, _, _) => plain a
  | (None, _, _) => True
  end.

(** After [consume_optional]: the invariant, the positionals untouched, and
    the strings consumed after the option are arguments. *)
Definition optional_post (st : state) (t : option_tuple)
           (rest : list (string * letter)) (r : state * nat) : Prop :=
  I (st_namespace (fst r)) /\
  st_positionals (fst r) = st_positionals st /\
  (1 <= snd r)%nat /\
  (tuple_plain t ->
   (Nat.pred (snd r) <= count_while not_O (map snd rest))%nat).

Lemma consume_optional_ok (st : state) (s : string) (t : option_tuple)
      (rest : list (string * letter)) :
  tuple_ok t -> I (st_namespace st) ->
  ok_res E (optional_post st t rest) (consume_optional p st s t rest).
Proof.
  intros Ht Hst. destruct t as [[[a|] os] ea]; simpl.
  2: { repeat split; simpl; try assumption; lia. }
  destruct Ht as [Ha Hflag].
  assert (Hfollow :
            forall a' acc,
              (acc = [] /\ a' = a \/
               exists a0 more, acc = (a0, []) :: more /\ allowed a0 /\
                          never_returns a0) ->
              ok_res E (optional_post st (Some a, os, ea) rest)
                (r <- (arg_count <- _match_argument a' (map snd rest) ;;
                       Ok ((acc ++ [(a', map fst (take arg_count rest))])%list,
                           S arg_count)) ;;
                 (let '(action_tuples, stop) := r in
                  st0 <- Py.foldM (fun st '(a, args) => take_action st a args)
                                  st action_tuples ;;
                  Ok (st0, stop)))).
  { intros a' acc Hacc.
    destruct (_match_argument a' (map snd rest)) as [n|e] eqn:Hn;
      [|pose proof (_match_argument_ok a' (map snd rest)) as H;
        rewrite Hn in H; exact H].
    step_bind.
    destruct Hacc as [[-> ->]|(a0 & more & -> & Ha0 & Hnever)].
    - eapply ok_res_bind; [apply foldM_take_action_one; eassumption|].
      intros st' [Hns Hp']. repeat split; simpl; try assumption; [lia|].
      intros Hplain. unfold _match_argument in Hn.
      destruct (match_nargs _ _ _) as [k|] eqn:Hk; [|discriminate].
      injection Hn as <-. eapply match_nargs_not_O; eassumption.
    - eapply ok_res_bind;
        [apply (foldM_take_action_flag st a0 _ (fun _ => False));
         assumption|].
      intros st' []. }
  destruct ea as [ea|]; [|apply (Hfollow a []); left; auto].
  pose proof (explicit_loop_ok ea a os []) as Hloop.
  destruct (explicit_loop p a os ea []) as [[tuples fin]|e]; [|exact Hloop].
  destruct Hloop as (more & Hfst & Hmore). simpl in Hfst, Hmore. subst tuples.
  destruct Hmore as [[-> ->]|(rest' & -> & Hz & Hos)].
  - step_bind.
    eapply ok_res_bind; [apply foldM_take_action_one; eassumption|].
    intros st' [Hns Hp']. repeat split; simpl; try assumption; lia.
  - specialize (Hflag Hz Hos). cbn [Py.bind].
    destruct fin as [|a' os'].
    + step_bind.
      eapply ok_res_bind;
        [apply (foldM_take_action_flag st a _ (fun _ => False)); assumption|].
      intros st' [].
    + apply Hfollow. right. eauto.
Qed.

(** After [consume_positionals]: the invariant, positionals only taken
    from the front, and the strings consumed are no options. *)
Definition positionals_post (st : state) (strings : list (string * letter))
           (r : state * nat) : Prop :=
  I (st_namespace (fst r)) /\
  (exists k, st_positionals (fst r) = drop k (st_positionals st)) /\
  (Forall plain (st_positionals st) ->
   (snd r <= count_while not_O (map snd strings))%nat).

Lemma consume_positionals_ok (st : state) (strings : list (string * letter)) :
  I (st_namespace st) -> Forall allowed (st_positionals st) ->
  ok_res E (positionals_post st strings) (consume_positionals st strings).
Proof.
  intros Hst Hpos. unfold consume_positionals.
  destruct (st_positionals st) as [|a positionals] eqn:Hp.
  { repeat split; simpl; [exact Hst|exists 0%nat; rewrite Hp; reflexivity|lia]. }
  destruct (match_nargs _ _ _) as [n|] eqn:Hn.
  2: { repeat split; simpl;
         [exact Hst|exists 0%nat; rewrite Hp; reflexivity|lia]. }
  apply Forall_cons in Hpos as [Ha Hpos].
  eapply ok_res_bind; [apply take_action_ok; eassumption|].
  intros st' [Hns _]. repeat split; simpl;
    [exact Hns|exists 1%nat; rewrite Hp; reflexivity|].
  intros Hplain. rewrite Hp in Hplain.
  apply Forall_cons in Hplain as [Hplain _].
  eapply match_nargs_not_O; eassumption.
Qed.

Definition step_ok (st : state) (r : state * nat) : Prop :=
  I (st_namespace (fst r)) /\
  exists k, st_positionals (fst r) = drop k (st_positionals st).

Lemma round_ok (st : state) (strings : list (string * letter)) :
  I (st_namespace st) -> Forall allowed (st_positionals st) ->
  Forall letter_ok strings ->
  ok_res E (step_ok st) (round p st strings).
Proof.
  intros Hst Hpos Hstrings. unfold round.
  set (before := count_while _ _). clearbody before.
  eapply ok_res_bind with (I := step_ok st).
  { destruct (0 <? before)%nat.
    - eapply ok_res_weaken; [apply consume_positionals_ok; assumption|].
      intros r (H1 & H2 & _). split; assumption.
    - split; [exact Hst|exists 0%nat; reflexivity]. }
  intros [st1 n] [Hst1 Hpos1]. simpl in Hst1, Hpos1.
  destruct (0 <? n)%nat; [split; assumption|].
  destruct (drop before strings) as [|[arg_string [tuple| |]] rest] eqn:Hdrop;
    try (split; assumption).
  assert (Hin : Forall letter_ok ((arg_string, O tuple) :: rest)).
  { rewrite <- Hdrop. apply Forall_drop, Hstrings. }
  apply Forall_cons in Hin as [Htuple _].
  eapply ok_res_bind.
  { apply consume_optional_ok; [exact Htuple|exact Hst1]. }
  intros [st2 m] (Hst2 & Hpos2 & _). split; [exact Hst2|].
  simpl in *. rewrite Hpos2. exact Hpos1.
Qed.

Lemma after_last_option_ok (st : state) (strings : list (string * letter)) :
  I (st_namespace st) -> Forall allowed (st_positionals st) ->
  ok_res E (fun st' => I (st_namespace st')) (after_last_option st strings).
Proof.
  intros Hst Hpos. unfold after_last_option.
  eapply ok_res_bind; [apply consume_positionals_ok; assumption|].
  intros [st1 n] [Hst1 _]. exact Hst1.
Qed.

Lemma consume_ok (strings : list (string * letter)) :
  forall skip st,
    I (st_namespace st) -> Forall allowed (st_positionals st) ->
    Forall letter_ok strings ->
    ok_res E (fun st' => I (st_namespace st')) (consume p st skip strings).
Proof.
  induction strings as [|x strings IH]; intros skip st Hst Hpos Hstrings.
  - destruct skip; cbn [consume]; apply after_last_option_ok; assumption.
  - destruct skip as [|skip]; cbn [consume].
    + destruct (has_option (x :: strings));
        [|apply after_last_option_ok; assumption].
      eapply ok_res_bind; [apply round_ok; eassumption|].
      intros [st1 n] [Hst1 [k Hpos1]]. apply IH; try assumption.
      * simpl in Hpos1. rewrite Hpos1. apply Forall_drop, Hpos.
      * apply Forall_cons in Hstrings as [_ H]. exact H.
    + apply IH; try assumption.
      apply Forall_cons in Hstrings as [_ H]. exact H.
Qed.

(** A string default goes through the type function unchanged. *)
Definition plain_default (a : action) : Prop :=
  forall d, default a = VStr d -> _get_value a d = Ok (VStr d).

Lemma convert_default_ok (st : state) (ns : namespace) (a : action) :
  plain_default a ->
  ok_res E (fun ns' => ns' = ns) (convert_default p st ns a).
Proof.
  intros Hplain. unfold convert_default.
  destruct (bool_decide _); [reflexivity|].
  destruct (required a); [apply E_error|].
  destruct (default a) as [| | | |d|] eqn:Hd; try reflexivity.
  destruct (ns !! dest a) as [[| | | |d'|]|] eqn:Hns; try reflexivity.
  destruct (String.eqb_spec d d') as [<-|]; [|reflexivity].
  rewrite (Hplain d Hd). simpl. unfold setattr.
  apply insert_id, Hns.
Qed.

Hypothesis plain_defaults : Forall plain_default (_actions p).

Lemma convert_defaults_ok (st : state) (l : list action) (ns : namespace) :
  Forall plain_default l ->
  ok_res E (fun ns' => ns' = ns) (Py.foldM (convert_default p st) ns l).
Proof.
  induction 1 as [|a l Ha Hl IH]; simpl; [reflexivity|].
  eapply ok_res_bind; [apply convert_default_ok, Ha|].
  intros ns' ->. exact IH.
Qed.

Lemma _parse_known_args_ok (l : list string) (ns : namespace) :
  I ns -> Forall allowed (_get_positional_actions p) ->
  (forall strings, classify p l = Ok strings -> Forall letter_ok strings) ->
  ok_res E (fun r => I (fst r)) (_parse_known_args p l ns).
Proof.
  intros Hns Hpos Hstrings. unfold _parse_known_args.
  destruct (classify p l) as [strings|e] eqn:Hc; simpl.
  2: { apply classify_error in Hc as [err ->]. apply E_error. }
  eapply ok_res_bind.
  { apply consume_ok; [exact Hns|exact Hpos|apply Hstrings; reflexivity]. }
  intros st Hst. destruct (st_positionals st); [|apply E_error].
  eapply ok_res_bind; [apply convert_defaults_ok, plain_defaults|].
  intros ns' ->. exact Hst.
Qed.

Hypothesis E_type : E TypeError.
Hypothesis I_delete :
  forall ns, I ns -> I (delete _UNRECOGNIZED_ARGS_ATTR ns).

Lemma parse_known_args_ok (l : list string) (ns : namespace) :
  I (fold_left add_default (_actions p) ns) ->
  Forall allowed (_get_positional_actions p) ->
  (forall strings, classify p l = Ok strings -> Forall letter_ok strings) ->
  ok_res E (fun r => I (fst r)) (parse_known_args p l ns).
Proof.
  intros Hns Hpos Hstrings. unfold parse_known_args.
  pose proof (_parse_known_args_ok l _ Hns Hpos Hstrings) as H.
  destruct (_parse_known_args p l _) as [[ns' args]|e]; simpl in H.
  - destruct (ns' !! _UNRECOGNIZED_ARGS_ATTR) as [v|]; [|exact H].
    eapply ok_res_bind with (I := fun _ => True).
    { destruct v; try exact E_type.
      apply ok_res_mapM. intros [| | | | |]; simpl; auto. }
    intros more _. simpl. apply I_delete, H.
  - destruct e; try exact H. apply E_error.
Qed.

End Engine.


(** ** Every option of the command line is consumed *)

Lemma has_option_app (pre post : list (string * letter)) (s : string)
      (t : option_tuple) :
  has_option (pre ++ (s, O t) :: post) = true.
Proof.
  unfold has_option. rewrite existsb_app. simpl. apply orb_true_r.
Qed.

Lemma count_not_O_app (pre post : list (string * letter)) (s : string)
      (t : option_tuple) :
  (count_while not_O (map snd (pre ++ (s, O t) :: post)) <= List.length pre)%nat.
Proof.
  induction pre as [|[s0 l0] pre IH]; simpl; [lia|].
  destruct (not_O l0); lia.
Qed.

(** Where the strings before the next option end: at the option looked
    for, or at an option before it. *)
Lemma next_option (pre post : list (string * letter)) (s : string)
      (t : option_tuple) :
  let strings := (pre ++ (s, O t) :: post)%list in
  let before := count_while not_O (map snd strings) in
  (before = List.length pre /\ drop before strings = (s, O t) :: post) \/
  ((before < List.length pre)%nat /\
   exists s' t',
     drop before strings
     = ((s', O t') :: drop (S before) pre ++ (s, O t) :: post)%list).
Proof.
  induction pre as [|[s0 l0] pre IH]; simpl.
  - left. split; reflexivity.
  - destruct l0 as [t0| |]; simpl.
    + right. split; [lia|]. exists s0, t0. reflexivity.
    + destruct IH as [[Hb Hd]|[Hb (s' & t' & Hd)]].
      * left. split; [lia|exact Hd].
      * right. split; [lia|]. exists s', t'. exact Hd.
    + destruct IH as [[Hb Hd]|[Hb (s' & t' & Hd)]].
      * left. split; [lia|exact Hd].
      * right. split; [lia|]. exists s', t'. exact Hd.
Qed.

Section Reach.

Context (p : parser) (J : namespace -> Prop) (allowed : action -> Prop).

Hypothesis allowed_call :
  forall a ns l v,
    allowed a -> _get_values a l = Ok v -> J ns ->
    ok_res (fun _ => True) J (call a ns v).
Hypothesis allowed_plain : forall a, allowed a -> plain a.

Let any_exn : exn -> Prop := fun _ => True.
Let any_ns : namespace -> Prop := fun _ => True.

Lemma any_type :
  forall (a : action) (f : string -> result value) (s : string) (e : exn),
    allowed a -> type a = Some f -> f s = Raise e ->
    any_exn e \/ (exists m, e = ArgumentTypeError m) \/ e = TypeError
    \/ e = ValueError.
Proof. intros. left. exact Logic.I. Qed.

Lemma any_call :
  forall a ns l v,
    allowed a -> _get_values a l = Ok v -> any_ns ns ->
    ok_res any_exn any_ns (call a ns v).
Proof. intros. destruct (call a ns v); exact Logic.I. Qed.

(** The option looked for: [s] with tuple [t], followed by [post]. *)
Context (s : string) (t : option_tuple) (post : list (string * letter)).

Hypothesis target :
  forall st0 st1 n,
    consume_optional p st0 s t post = Ok (st1, n) -> J (st_namespace st1).

Lemma consume_reach (strings : list (string * letter)) :
  forall skip st pre,
    strings = (pre ++ (s, O t) :: post)%list ->
    (skip <= List.length pre)%nat ->
    Forall allowed (st_positionals st) ->
    Forall (letter_ok allowed) strings ->
    forall st', consume p st skip strings = Ok st' -> J (st_namespace st').
Proof.
  induction strings as [|x strings IH];
    intros skip st pre Heq Hskip Hpos Hletters st' Hc.
  { destruct pre; discriminate Heq. }
  destruct skip as [|skip].
  2: { destruct pre as [|x' pre]; [simpl in Hskip; lia|].
       injection Heq as -> Heq. cbn [consume] in Hc.
       apply (IH skip st pre Heq); try assumption.
       - simpl in Hskip. lia.
       - apply Forall_cons in Hletters as [_ H]. exact H. }
  cbn [consume] in Hc.
  assert (Hopt : has_option (x :: strings) = true)
    by (rewrite Heq; apply has_option_app).
  rewrite Hopt in Hc.
  destruct (round p st (x :: strings)) as [[st1 n]|] eqn:Hr;
    [|discriminate Hc].
  step_bind. simpl in Hc.
  assert (Htail : Forall (letter_ok allowed) strings)
    by (apply Forall_cons in Hletters as [_ H]; exact H).
  (* the strings before the next option *)
  unfold round in Hr.
  pose proof (next_option pre post s t) as Hnext. cbv zeta in Hnext.
  rewrite <- Heq in Hnext.
  pose proof (count_not_O_app pre post s t) as Hbefore.
  rewrite <- Heq in Hbefore.
  change (fun l => negb (is_O l)) with not_O in Hr.
  set (before := count_while not_O (map snd (x :: strings))) in *.
  (* the positionals *)
  assert (Hpositionals :
            ok_res any_exn
              (fun r => (exists k, st_positionals (fst r)
                              = drop k (st_positionals st)) /\
                        (snd r <= before)%nat)
              (if (0 <? before)%nat then consume_positionals st (x :: strings)
               else Ok (st, 0%nat))).
  { destruct (0 <? before)%nat.
    - eapply ok_res_weaken.
      + apply (consume_positionals_ok any_exn any_ns allowed
                 (fun _ => Logic.I) Logic.I any_type any_call
                 st (x :: strings) Logic.I Hpos).
      + intros r (_ & Hk & Hn). split; [exact Hk|]. apply Hn.
        eapply Forall_impl; [exact Hpos|exact allowed_plain].
    - split; [exists 0%nat; reflexivity|simpl; lia]. }
  destruct (if (0 <? before)%nat then consume_positionals st (x :: strings)
            else Ok (st, 0%nat)) as [[st0 n0]|]; [|discriminate Hr].
  destruct Hpositionals as [[k Hk] Hn0]. simpl in Hk, Hn0.
  step_bind. cbn [Py.bind] in Hr.
  assert (Hpos0 : Forall allowed (st_positionals st0))
    by (rewrite Hk; apply Forall_drop, Hpos).
  destruct (0 <? n0)%nat eqn:Hn0pos.
  { (* positionals consumed: the option is still ahead *)
    injection Hr as <- <-. apply Nat.ltb_lt in Hn0pos.
    destruct pre as [|x' pre]; [simpl in Hbefore; lia|].
    injection Heq as -> Heq.
    apply (IH (Nat.pred n0) st0 pre Heq); try assumption.
    simpl in Hbefore. lia. }
  set (st_e := State (st_namespace st0)
                     (st_extras st0 ++ map fst (take before (x :: strings)))%list
                     (st_seen st0) (st_positionals st0)) in *.
  destruct Hnext as [[Hb Hdrop]|[Hb (s' & t' & Hdrop)]].
  - (* the option is the next one *)
    rewrite Hdrop in Hr.
    destruct (consume_optional p st_e s t post) as [[st2 m]|] eqn:Hco;
      [|discriminate Hr].
    cbn [Py.bind] in Hr. injection Hr as <- <-.
    pose proof (target st_e st2 m Hco) as HJ.
    assert (Hpos2 : Forall allowed (st_positionals st2)).
    { assert (Htuple : tuple_ok allowed t).
      { rewrite Forall_forall in Hletters.
        apply (Hletters (s, O t)). rewrite Heq.
        apply elem_of_app. right. left. }
      pose proof (consume_optional_ok p any_exn any_ns allowed
                    ltac:(intros; exact Logic.I) Logic.I any_type any_call
                    st_e s t post Htuple Logic.I) as H.
      rewrite Hco in H. destruct H as (_ & H & _). simpl in H.
      rewrite H. exact Hpos0. }
    pose proof (consume_ok p any_exn J allowed
                  ltac:(intros; exact Logic.I) Logic.I any_type allowed_call
                  strings (Nat.pred (before + m)) st2 HJ Hpos2 Htail) as H.
    rewrite Hc in H. exact H.
  - (* an option before it *)
    rewrite Hdrop in Hr.
    set (rest := (drop (S before) pre ++ (s, O t) :: post)%list) in *.
    destruct (consume_optional p st_e s' t' rest) as [[st2 m]|] eqn:Hco;
      [|discriminate Hr].
    cbn [Py.bind] in Hr. injection Hr as <- <-.
    assert (Htuple : tuple_ok allowed t').
    { pose proof (Forall_drop _ before _ Hletters) as H.
      rewrite Hdrop in H. apply Forall_cons in H as [H _]. exact H. }
    pose proof (consume_optional_ok p any_exn any_ns allowed
                  ltac:(intros; exact Logic.I) Logic.I any_type any_call
                  st_e s' t' rest Htuple Logic.I) as H.
    rewrite Hco in H. destruct H as (_ & Hp2 & Hm1 & Hm). simpl in Hp2, Hm1, Hm.
    assert (Hplain : tuple_plain t').
    { destruct t' as [[[a'|] os'] ea']; simpl; [|exact Logic.I].
      apply allowed_plain, Htuple. }
    specialize (Hm Hplain).
    pose proof (count_not_O_app (drop (S before) pre) post s t) as Hrest.
    fold rest in Hrest. rewrite length_drop in Hrest.
    destruct pre as [|x' pre]; [simpl in Hb; lia|].
    injection Heq as -> Heq.
    apply (IH (Nat.pred (before + m)) st2 pre Heq); try assumption.
    + simpl in Hb, Hrest. lia.
    + rewrite Hp2. exact Hpos0.
Qed.

End Reach.


(** ** The parsers that [create_parser] builds *)

(** The [info] parser. *)
Definition infoparser : parser :=
  match info_arguments MpArgumentParser with
  | Ok p => p
  | Raise _ => MpArgumentParser
  end.

(** The environment without its sampler modules. *)
Definition no_backends (env : environment) : environment :=
  Environment (argv env) (fs env) (VERSION env) (float_accepts env) None None.

(** The [run] parser before the arguments of the sampler modules. *)
Definition runparser_base (env : environment) : parser :=
  match run_arguments (no_backends env) MpArgumentParser with
  | Ok p => p
  | Raise _ => MpArgumentParser
  end.

(** The main parser, for the text of the file VERSION and a [run] parser. *)
Definition main_parser (version : string) (runparser : parser) : parser :=
  add_subparsers
    (match add_argument MpArgumentParser ["--version"]
                        [kw_action "version"; kw_version version] with
     | Ok p => p
     | Raise _ => MpArgumentParser
     end)
    "subparser_name" [("run", runparser); ("info", infoparser)].

(** The namespace the sub-command starts from. *)
Definition namespace_of (name : string) : namespace :=
  <["subparser_name" := VStr name]> (<["subparser_name" := VNone]> ∅).

Lemma info_arguments_eq : info_arguments MpArgumentParser = Ok infoparser.
Proof. reflexivity. Qed.

Lemma run_arguments_eq (env : environment) :
  run_arguments env MpArgumentParser =
  (p <- add_backend (runparser_base env) (nested_sampling env) ;;
   add_backend p (cosmo_hammer env)).
Proof. reflexivity. Qed.

Lemma create_parser_shape (env : environment) (p : parser) :
  create_parser env = Ok p ->
  exists version runparser,
    run_arguments env MpArgumentParser = Ok runparser /\
    p = main_parser version runparser.
Proof.
  unfold create_parser. destruct (VERSION env) as [text|]; [|discriminate].
  cbn [Py.bind].
  change (add_argument MpArgumentParser ["--version"]
            [kw_action "version"; kw_version (Py.readline text)])
    with (Ok (match add_argument MpArgumentParser ["--version"]
                      [kw_action "version"; kw_version (Py.readline text)] with
              | Ok p => p
              | Raise _ => MpArgumentParser
              end)).
  cbn [Py.bind].
  destruct (run_arguments env MpArgumentParser) as [runparser|]; [|discriminate].
  cbn [Py.bind]. rewrite info_arguments_eq. cbn [Py.bind].
  intros [= <-]. exists (Py.readline text), runparser. split; reflexivity.
Qed.

(** ** The main parser hands the command line to a sub-command *)

Lemma consume_skip_all (p : parser) (strings : list (string * letter)) :
  forall skip st,
    (List.length strings <= skip)%nat ->
    consume p st skip strings = after_last_option st [].
Proof.
  induction strings as [|x strings IH]; intros skip st Hlen.
  - destruct skip; reflexivity.
  - destruct skip as [|skip]; [simpl in Hlen; lia|].
    cbn [consume]. apply IH. simpl in Hlen. lia.
Qed.

Lemma _parse_optional_positional (p : parser) (s : string) :
  Py.startswith s "-" = false -> _parse_optional p s = Ok None.
Proof.
  unfold _parse_optional, Py.startswith. destruct s as [|c tl]; [reflexivity|].
  simpl. destruct (ascii_dec "-" c) as [<-|Hne].
  - destruct tl; discriminate.
  - intros _. destruct (Ascii.eqb_spec c "-") as [->|_]; [contradiction|].
    reflexivity.
Qed.

Lemma count_while_all (f : letter -> bool) (l : list letter) :
  (forall x, f x = true) -> count_while f l = List.length l.
Proof.
  intros Hf. induction l as [|x l IH]; simpl; [reflexivity|].
  rewrite Hf, IH. reflexivity.
Qed.

(** With a sub-command as the only positional and a first string that is an
    argument, the loop is one call of the sub-command action on the whole
    command line. *)
Lemma consume_subcommand (p : parser) (a : action) (ns : namespace)
      (name : string) (strings : list (string * letter)) :
  a_nargs a = PARSER ->
  consume p (State ns [] [] [a]) 0 ((name, A) :: strings)
  = (st <- take_action (State ns [] [] [a]) a (name :: map fst strings) ;;
     Ok (State (st_namespace st) (st_extras st ++ [])%list (st_seen st) [])).
Proof.
  intros Hnargs.
  assert (Hmatch : match_nargs false (a_nargs a) (A :: map snd strings)
                   = Some (S (List.length strings))).
  { rewrite Hnargs. unfold match_nargs. simpl.
    rewrite count_while_all, length_map; [reflexivity|].
    intros [| |]; reflexivity. }
  assert (Htake : map fst (take (S (List.length strings)) ((name, A) :: strings))
                  = name :: map fst strings).
  { simpl. rewrite firstn_all. reflexivity. }
  cbn [consume].
  destruct (has_option ((name, A) :: strings)) eqn:Hopt.
  - unfold round. cbn [map snd count_while is_O negb Nat.ltb Nat.leb].
    unfold consume_positionals. cbn [st_positionals map snd]. rewrite Hmatch.
    rewrite Htake.
    destruct (take_action (State ns [] [] [a]) a (name :: map fst strings))
      as [st|e]; [|reflexivity].
    step_bind. cbn [Nat.ltb Nat.leb].
    rewrite consume_skip_all by (simpl; lia).
    unfold after_last_option, consume_positionals. simpl. reflexivity.
  - unfold after_last_option, consume_positionals.
    cbn [st_positionals map snd]. rewrite Hmatch, Htake.
    destruct (take_action (State ns [] [] [a]) a (name :: map fst strings))
      as [st|e]; [|reflexivity].
    step_bind. cbn [st_namespace st_extras st_seen st_positionals].
    rewrite skipn_all2 by (simpl; lia). reflexivity.
Qed.

Lemma classify_first_argument (p : parser) (name : string) (rest : list string)
      (strings : list (string * letter)) :
  Py.startswith name "-" = false ->
  classify p (name :: rest) = Ok strings ->
  exists strings', strings = (name, A) :: strings' /\ map fst strings' = rest.
Proof.
  intros Hname Hc. pose proof (classify_fst _ _ _ Hc) as Hfst.
  simpl in Hc.
  destruct (String.eqb_spec name "--") as [->|_]; [discriminate Hname|].
  rewrite (_parse_optional_positional p name Hname) in Hc. cbn [Py.bind] in Hc.
  destruct (classify p rest) as [rest'|]; [|discriminate Hc].
  cbn [Py.bind] in Hc. injection Hc as <-.
  exists rest'. split; [reflexivity|]. simpl in Hfst. injection Hfst as H. exact H.
Qed.

Lemma mapM_get_value_plain (a : action) (l : list string) :
  type a = None -> Py.mapM (_get_value a) l = Ok (map VStr l).
Proof.
  intros Ht. induction l as [|s l IH]; simpl; [reflexivity|].
  unfold _get_value at 1. rewrite Ht. cbn [Py.bind]. rewrite IH. reflexivity.
Qed.

Lemma mapM_str_of_VStr (l : list string) : Py.mapM str_of (map VStr l) = Ok l.
Proof.
  induction l as [|s l IH]; simpl; [reflexivity|]. rewrite IH. reflexivity.
Qed.

Lemma mapM_length {X Y} (f : X -> result Y) (l : list X) (l' : list Y) :
  Py.mapM f l = Ok l' -> List.length l' = List.length l.
Proof.
  revert l'. induction l as [|x l IH]; intros l'; simpl.
  - intros [= <-]. reflexivity.
  - destruct (f x); [|discriminate]. cbn [Py.bind].
    destruct (Py.mapM f l) as [ys|]; [|discriminate]. cbn [Py.bind].
    intros [= <-]. simpl. f_equal. apply IH. reflexivity.
Qed.

(** The sub-command action of the main parser. *)
Definition subcommand (runparser : parser) : action :=
  Action [] "subparser_name" PARSER VNone None (Some ["run"; "info"]) false
         (_SubParsersAction
            [("run", parse_known_args runparser);
             ("info", parse_known_args infoparser)]).

Definition sub_parser (runparser : parser) (name : string) : option parser :=
  assoc name [("run", runparser); ("info", infoparser)].

Lemma main_parser_positionals (version : string) (runparser : parser) :
  _get_positional_actions (main_parser version runparser)
  = [subcommand runparser].
Proof. reflexivity. Qed.

Lemma main_parser_defaults (version : string) (runparser : parser) :
  fold_left add_default (_actions (main_parser version runparser)) ∅
  = <["subparser_name" := VNone]> ∅.
Proof. reflexivity. Qed.

Lemma main_parser_error (version : string) (runparser : parser) :
  error (main_parser version runparser) = MpArgumentParser_error.
Proof. reflexivity. Qed.

Lemma main_parser_plain_defaults (version : string) (runparser : parser) :
  Forall plain_default (_actions (main_parser version runparser)).
Proof.
  change (_actions (main_parser version runparser))
    with [Action ["-h"; "--help"] "help" NargsZero (VStr SUPPRESS)
                 None None false _HelpAction;
          Action ["--version"] "version" NargsZero (VStr SUPPRESS)
                 None None false (_VersionAction version);
          subcommand runparser].
  repeat constructor; intros d Hd; try discriminate Hd; reflexivity.
Qed.

(** What the sub-command action does with the command line. *)
Lemma call_subcommand (runparser : parser) (ns : namespace) (name : string)
      (rest : list string) :
  call (subcommand runparser) ns (VList (VStr name :: map VStr rest))
  = match sub_parser runparser name with
    | None =>
        Raise (argument_error_of (subcommand runparser)
                                 (InvalidChoice (VStr name)))
    | Some sub =>
        r <- parse_known_args sub rest (setattr ns "subparser_name" (VStr name)) ;;
        match snd r with
        | [] => Ok (fst r)
        | _ =>
            Ok (setattr (fst r) _UNRECOGNIZED_ARGS_ATTR
                  (VList (match fst r !! _UNRECOGNIZED_ARGS_ATTR with
                          | Some (VList l) => l
                          | _ => []
                          end ++ map VStr (snd r))%list))
        end
    end.
Proof.
  unfold call, subcommand, sub_parser. cbn [class dest].
  rewrite mapM_str_of_VStr. cbn [Py.bind].
  change (String.eqb "subparser_name" SUPPRESS) with false. cbv iota.
  cbn [assoc map].
  destruct (String.eqb "run" name); [|destruct (String.eqb "info" name)];
    try reflexivity.
  - destruct (parse_known_args runparser rest _) as [[ns' ex]|]; reflexivity.
  - destruct (parse_known_args infoparser rest _) as [[ns' ex]|]; reflexivity.
Qed.

Lemma take_action_subcommand (runparser : parser) (st : state) (name : string)
      (rest : list string) :
  take_action st (subcommand runparser) (name :: rest)
  = (_ <- _check_value (subcommand runparser) (VStr name) ;;
     ns <- call (subcommand runparser) (st_namespace st)
                (VList (VStr name :: map VStr rest)) ;;
     Ok (State ns (st_extras st) (Some "subparser_name" :: st_seen st)
               (st_positionals st))).
Proof.
  unfold take_action, _get_values.
  change (a_nargs (subcommand runparser)) with PARSER.
  rewrite mapM_get_value_plain by reflexivity. cbn [Py.bind map].
  change (_get_action_name (subcommand runparser))
    with (Some "subparser_name").
  destruct (_check_value (subcommand runparser) (VStr name));
    destruct rest; reflexivity.
Qed.

Lemma _check_value_subcommand (runparser : parser) (name : string) :
  _check_value (subcommand runparser) (VStr name) = Ok tt ->
  exists sub, sub_parser runparser name = Some sub.
Proof.
  unfold _check_value, sub_parser. cbn [choices subcommand].
  case_bool_decide as Hin; [|discriminate]. intros _.
  apply elem_of_cons in Hin as [->|Hin]; [eexists; reflexivity|].
  apply elem_of_cons in Hin as [->|Hin]; [eexists; reflexivity|].
  inversion Hin.
Qed.

Lemma namespace_of_eq (name : string) :
  setattr (<["subparser_name" := VNone]> ∅) "subparser_name" (VStr name)
  = namespace_of name.
Proof. reflexivity. Qed.

(** The state in which the main parser leaves its loop. *)
Lemma _parse_known_args_main (version : string) (runparser : parser)
      (name : string) (rest : list string) :
  Py.startswith name "-" = false ->
  _parse_known_args (main_parser version runparser) (name :: rest)
                    (<["subparser_name" := VNone]> ∅)
  = (_ <- classify (main_parser version runparser) (name :: rest) ;;
     _ <- _check_value (subcommand runparser) (VStr name) ;;
     ns <- call (subcommand runparser) (<["subparser_name" := VNone]> ∅)
                (VList (VStr name :: map VStr rest)) ;;
     ns <- Py.foldM
             (convert_default (main_parser version runparser)
                (State ns [] [Some "subparser_name"] []))
             ns (_actions (main_parser version runparser)) ;;
     Ok (ns, [])).
Proof.
  intros Hname. unfold _parse_known_args.
  destruct (classify _ (name :: rest)) as [strings|e] eqn:Hc; [|reflexivity].
  destruct (classify_first_argument _ _ _ _ Hname Hc) as (strings' & -> & Hrest).
  cbn [Py.bind].
  rewrite main_parser_positionals, consume_subcommand by reflexivity.
  rewrite Hrest, take_action_subcommand.
  destruct (_check_value (subcommand runparser) (VStr name)); [|reflexivity].
  cbn [Py.bind st_namespace].
  destruct (call (subcommand runparser) _ _) as [ns|]; reflexivity.
Qed.

Lemma convert_defaults_main (version : string) (runparser : parser)
      (st : state) (ns : namespace) :
  Py.foldM (convert_default (main_parser version runparser) st) ns
           (_actions (main_parser version runparser))
  = Ok ns
  \/ exists e, Py.foldM (convert_default (main_parser version runparser) st) ns
                   (_actions (main_parser version runparser))
          = Raise e.
Proof.
  pose proof (convert_defaults_ok (main_parser version runparser)
                (fun _ => True) (fun _ => Logic.I) st _ ns
                (main_parser_plain_defaults version runparser)) as H.
  destruct (Py.foldM _ _ _) as [ns'|e]; [left|right; eauto].
  simpl in H. rewrite H. reflexivity.
Qed.

(** A command line that the main parser accepts is one that the chosen
    sub-command accepts with nothing left over; the options are those of the
    sub-command. *)
Lemma parse_args_main_Ok (version : string) (runparser : parser)
      (name : string) (rest : list string) (ns : namespace) :
  Py.startswith name "-" = false ->
  parse_args (main_parser version runparser) (name :: rest) = Ok ns ->
  exists sub ns',
    sub_parser runparser name = Some sub /\
    parse_known_args sub rest (namespace_of name) = Ok (ns', []) /\
    forall k, k <> _UNRECOGNIZED_ARGS_ATTR -> ns !! k = ns' !! k.
Proof.
  intros Hname. unfold parse_args. unfold parse_known_args at 1.
  rewrite main_parser_defaults, _parse_known_args_main by exact Hname.
  destruct (classify _ (name :: rest)) as [strings|e]; [|destruct e; discriminate].
  cbn [Py.bind].
  destruct (_check_value (subcommand runparser) (VStr name)) as [[]|e];
    [|destruct e; discriminate].
  cbn [Py.bind]. rewrite call_subcommand, namespace_of_eq.
  destruct (sub_parser runparser name) as [sub|]; [|discriminate].
  destruct (parse_known_args sub rest (namespace_of name)) as [[ns' ex]|e]
    eqn:Hsub; [|destruct e; discriminate].
  cbn [Py.bind fst snd]. intros H. exists sub, ns'. split; [reflexivity|].
  destruct ex as [|x ex].
  - cbn [Py.bind] in H.
    destruct (convert_defaults_main version runparser
                (State ns' [] [Some "subparser_name"] []) ns') as [Hd|[e Hd]];
      rewrite Hd in H; [|destruct e; discriminate H].
    cbn [Py.bind] in H. split; [exact Hsub|].
    destruct (ns' !! _UNRECOGNIZED_ARGS_ATTR) as [v|] eqn:Hattr.
    + destruct (match v with
                | VList l => Py.mapM str_of l
                | _ => Raise TypeError
                end) as [more|]; [|discriminate H].
      cbn [Py.bind] in H. destruct more; [|discriminate H].
      injection H as <-. intros k Hk. apply lookup_delete_ne. congruence.
    + injection H as <-. reflexivity.
  - exfalso. cbn [Py.bind] in H.
    set (ns'' := setattr ns' _ _) in H.
    destruct (convert_defaults_main version runparser
                (State ns'' [] [Some "subparser_name"] []) ns'') as [Hd|[e Hd]];
      rewrite Hd in H; [|destruct e; discriminate H].
    cbn [Py.bind] in H. subst ns''. unfold setattr in H.
    rewrite lookup_insert_eq in H.
    destruct (Py.mapM str_of _) as [more|] eqn:Hmore; [|discriminate H].
    apply mapM_length in Hmore. rewrite length_app in Hmore. simpl in Hmore.
    cbn [Py.bind] in H. destruct more; [simpl in Hmore; lia|discriminate H].
Qed.


(** [-h], [--help] and [--version] in front end the run. *)
Lemma consume_exit (p : parser) (st : state) (a : action) (s : string)
      (strings : list (string * letter)) :
  a_nargs a = NargsZero -> is_optional a = true ->
  (forall ns v, call a ns v = Raise (SystemExit 0)) ->
  consume p st 0 ((s, O (Some a, s, None)) :: strings) = Raise (SystemExit 0).
Proof.
  intros Hn Hopt Hcall. cbn [consume].
  change (has_option ((s, O (Some a, s, None)) :: strings)) with true.
  cbv iota. unfold round.
  cbn [map snd count_while is_O negb Nat.ltb Nat.leb Py.bind drop take].
  cbv beta iota. cbn [Nat.ltb Nat.leb drop].
  unfold consume_optional, _match_argument, match_nargs. rewrite Hn, Hopt.
  step_bind. cbn [take map app Py.foldM]. unfold take_action, _get_values.
  rewrite Hn, take_0. simpl. rewrite Hcall. reflexivity.
Qed.

Lemma set_default_subparser_first (env : environment) (args : option (list string))
      (strings : list string) :
  set_default_subparser env "run" args = Ok strings ->
  exists first rest,
    strings = first :: rest /\
    (first ∈ ["-h"; "--help"; "--version"] \/ Py.startswith first "-" = false).
Proof.
  unfold set_default_subparser. cbv zeta.
  set (l := match args with
            | Some ((_ :: _) as l) => l
            | _ => tail (argv env)
            end). clearbody l.
  destruct l as [|first rest]; [discriminate|].
  case_bool_decide as Hin; simpl.
  - destruct (String.eqb_spec first "-info") as [->|Hne].
    + intros [= <-]. exists "info", rest. split; [reflexivity|right; reflexivity].
    + intros [= <-]. exists first, rest. split; [reflexivity|left].
      set_solver.
  - rewrite find_hyphen. destruct (has_hyphen first) eqn:Hh.
    + intros [= <-]. exists "run", (first :: rest).
      split; [reflexivity|right; reflexivity].
    + intros [= <-]. exists first, rest. split; [reflexivity|right].
      unfold has_hyphen in Hh. apply bool_decide_eq_false in Hh.
      destruct first as [|c tl]; [reflexivity|].
      unfold Py.startswith. cbn [String.prefix].
      destruct (ascii_dec "-" c) as [<-|_]; [|reflexivity].
      exfalso. apply Hh. cbn [list_ascii_of_string]. left.
Qed.

Definition help_action : action :=
  Action ["-h"; "--help"] "help" NargsZero (VStr SUPPRESS) None None false
         _HelpAction.

Definition version_action (version : string) : action :=
  Action ["--version"] "version" NargsZero (VStr SUPPRESS) None None false
         (_VersionAction version).

Lemma parse_args_main_exit (version : string) (runparser : parser)
      (first : string) (rest : list string) (ns : namespace) :
  first ∈ ["-h"; "--help"; "--version"] ->
  parse_args (main_parser version runparser) (first :: rest) <> Ok ns.
Proof.
  intros Hfirst. unfold parse_args, parse_known_args, _parse_known_args.
  assert (Hc : forall strings,
             classify (main_parser version runparser) (first :: rest)
             = Ok strings ->
             exists a strings',
               strings = (first, O (Some a, first, None)) :: strings' /\
               a_nargs a = NargsZero /\ is_optional a = true /\
               forall ns v, call a ns v = Raise (SystemExit 0)).
  { intros strings. cbn [classify].
    assert (Hopt : exists a,
               String.eqb first "--" = false /\
               _parse_optional (main_parser version runparser) first
               = Ok (Some (Some a, first, None)) /\
               a_nargs a = NargsZero /\ is_optional a = true /\
               forall ns v, call a ns v = Raise (SystemExit 0)).
    { repeat (apply elem_of_cons in Hfirst as [->|Hfirst]);
        [exists help_action|exists help_action
         |exists (version_action version)|inversion Hfirst];
        repeat split. }
    destruct Hopt as (a & -> & -> & Ha).
    cbn [Py.bind]. destruct (classify _ rest) as [strings'|]; [|discriminate].
    cbn [Py.bind]. intros [= <-]. exists a, strings'. split; [reflexivity|exact Ha]. }
  destruct (classify _ (first :: rest)) as [strings|e];
    [|destruct e; discriminate].
  destruct (Hc strings eq_refl) as (a & strings' & -> & Hn & Hopt & Hcall).
  cbn [Py.bind]. rewrite consume_exit by assumption. discriminate.
Qed.


(** ** Parsers without sub-commands *)

Lemma table_elem (p : parser) (os : string) (a : action) :
  (os, a) ∈ _option_string_actions p <->
  a ∈ _actions p /\ os ∈ option_strings a.
Proof.
  unfold _option_string_actions. rewrite list_elem_of_In, in_flat_map. split.
  - intros (a' & Ha' & Hin). apply in_map_iff in Hin as (os' & [= -> ->] & Hos).
    split; apply list_elem_of_In; assumption.
  - intros [Ha Hos]. exists a. split; [apply list_elem_of_In, Ha|].
    apply in_map_iff. exists os. split; [reflexivity|apply list_elem_of_In, Hos].
Qed.

(** The strings in front of the first ["--"]: those that may be options. *)
Fixpoint options_part (l : list string) : list string :=
  match l with
  | [] => []
  | s :: l' => if String.eqb s "--" then [] else s :: options_part l'
  end.

Lemma classify_options_part (p : parser) (l : list string)
      (strings : list (string * letter)) (s : string) (t : option_tuple) :
  classify p l = Ok strings -> (s, O t) ∈ strings ->
  s ∈ options_part l /\ _parse_optional p s = Ok (Some t).
Proof.
  revert strings. induction l as [|s0 l IH]; intros strings; simpl.
  - intros [= <-] Hin. inversion Hin.
  - destruct (String.eqb s0 "--").
    + intros [= <-] Hin. apply elem_of_cons in Hin as [[= ]|Hin].
      apply list_elem_of_In, in_map_iff in Hin as (x & [= ] & _).
    + destruct (_parse_optional p s0) as [t0|] eqn:Ht0; simpl; [|discriminate].
      destruct (classify p l) as [rest|]; simpl; [|discriminate].
      intros [= <-] Hin. apply elem_of_cons in Hin as [Heq|Hin].
      * destruct t0 as [t0|]; inversion Heq; subst. split; [left|exact Ht0].
      * destruct (IH rest eq_refl Hin) as [Hl Hs]. split; [right|]; assumption.
Qed.

Lemma classify_split (p : parser) (l : list string)
      (strings : list (string * letter)) (s : string) (t : option_tuple) :
  classify p l = Ok strings -> s ∈ options_part l ->
  _parse_optional p s = Ok (Some t) ->
  exists pre post, strings = (pre ++ (s, O t) :: post)%list.
Proof.
  revert strings. induction l as [|s0 l IH]; intros strings; simpl.
  - intros _ Hin. inversion Hin.
  - destruct (String.eqb s0 "--"); [intros _ Hin; inversion Hin|].
    destruct (_parse_optional p s0) as [t0|] eqn:Ht0; simpl; [|discriminate].
    destruct (classify p l) as [rest|]; simpl; [|discriminate].
    intros [= <-] Hin Hs. apply elem_of_cons in Hin as [->|Hin].
    + rewrite Hs in Ht0. injection Ht0 as <-.
      exists [], rest. reflexivity.
    + destruct (IH rest eq_refl Hin Hs) as (pre & post & ->).
      eexists (_ :: pre), post. reflexivity.
Qed.

Lemma add_default_keep (l : list action) (ns : namespace) (k : string)
      (v : value) :
  ns !! k = Some v -> fold_left add_default l ns !! k = Some v.
Proof.
  revert ns. induction l as [|a l IH]; intros ns Hk; simpl; [exact Hk|].
  apply IH. unfold add_default.
  destruct (String.eqb (dest a) SUPPRESS); [exact Hk|].
  unfold hasattr. case_bool_decide as Hhas; [exact Hk|].
  assert (Hne : dest a <> k).
  { intros Heq. apply Hhas. rewrite Heq, Hk. eauto. }
  destruct (default a) as [| | | |d|]; unfold setattr;
    try (rewrite lookup_insert_ne by exact Hne; exact Hk).
  destruct (String.eqb d SUPPRESS); [exact Hk|].
  rewrite lookup_insert_ne by exact Hne. exact Hk.
Qed.

(** An action of a parser without sub-commands: it stores a value or ends
    the run; a one-letter flag without argument ends the run. *)
Definition simple_action (a : action) : Prop :=
  plain_default a /\
  match class a with
  | _SubParsersAction _ => False
  | _ => True
  end /\
  (a_nargs a = NargsZero ->
   forall os, os ∈ option_strings a -> second_is_dash os = false ->
         never_returns a).

(** Any exception. *)
Definition every_exn : exn -> Prop := fun _ => True.

Lemma every_type (allowed : action -> Prop) :
  forall (a : action) (f : string -> result value) (s : string) (e : exn),
    allowed a -> type a = Some f -> f s = Raise e ->
    every_exn e \/ (exists m, e = ArgumentTypeError m) \/ e = TypeError
    \/ e = ValueError.
Proof. intros. left. exact Logic.I. Qed.

(** The attribute [k] keeps the value [v]. *)
Definition holds (k : string) (v : value) (ns : namespace) : Prop :=
  ns !! k = Some v.

Lemma simple_call_keeps (k : string) (v0 : value) (a : action)
      (ns : namespace) (l : list string) (v : value) :
  simple_action a /\ dest a <> k ->
  _get_values a l = Ok v -> holds k v0 ns ->
  ok_res every_exn (holds k v0) (call a ns v).
Proof.
  intros [(_ & Hclass & _) Hdest] _ Hns. unfold call.
  destruct (class a); try exact Logic.I; try contradiction;
    unfold ok_res, holds, setattr; rewrite lookup_insert_ne by exact Hdest;
    exact Hns.
Qed.

(** A simple parser leaves an attribute alone when no string of the command
    line is read as an option that writes it and no positional does. *)
Lemma simple_parser_keeps (p : parser) (k : string) (v0 : value)
      (l : list string) (ns ns' : namespace) (extras : list string) :
  Forall simple_action (_actions p) ->
  k <> _UNRECOGNIZED_ARGS_ATTR ->
  (forall s a os ea,
      s ∈ options_part l ->
      _parse_optional p s = Ok (Some (Some a, os, ea)) -> dest a <> k) ->
  Forall (fun a => dest a <> k) (_get_positional_actions p) ->
  fold_left add_default (_actions p) ns !! k = Some v0 ->
  parse_known_args p l ns = Ok (ns', extras) ->
  ns' !! k = Some v0.
Proof.
  intros Hsimple Hk Hoptions Hpositionals Hinit Hparse.
  pose proof (parse_known_args_ok p every_exn (holds k v0)
                (fun a => simple_action a /\ dest a <> k)
                (fun _ => Logic.I) (fun _ => Logic.I) Logic.I
                (every_type _) (simple_call_keeps k v0)) as H.
  specialize (H ltac:(eapply Forall_impl; [exact Hsimple|intros a Ha; apply Ha])
                Logic.I).
  specialize (H ltac:(intros ns0 H0; unfold holds;
                      rewrite lookup_delete_ne by congruence; exact H0)).
  specialize (H l ns Hinit).
  assert (Hin_actions : forall a, a ∈ _actions p -> simple_action a)
    by (apply Forall_forall, Hsimple).
  specialize (H ltac:(
    apply Forall_forall; intros a Ha; split;
    [apply Hin_actions;
     unfold _get_positional_actions in Ha;
     apply list_elem_of_filter in Ha as [_ Ha]; exact Ha
    |revert a Ha; apply Forall_forall, Hpositionals])).
  assert (Hletters : forall strings,
             classify p l = Ok strings ->
             Forall (letter_ok (fun a => simple_action a /\ dest a <> k))
                    strings).
  { intros strings Hc. apply Forall_forall. intros [s [t| |]] Hin;
      try exact Logic.I.
    destruct (classify_options_part p l strings s t Hc Hin) as [Hs Ht].
    destruct t as [[[a|] os] ea]; [|exact Logic.I].
    pose proof (_parse_optional_table p s a os ea Ht) as Htab.
    apply table_elem in Htab as [Ha Hos].
    pose proof (Hin_actions a Ha) as Hsa.
    split; [split; [exact Hsa|eapply Hoptions; eassumption]|].
    intros Hz Hshort. destruct Hsa as (_ & _ & Hflag).
    eapply Hflag; eassumption. }
  specialize (H Hletters). rewrite Hparse in H. exact H.
Qed.


(** ** The [info] parser and the [run] parser are simple *)

(** [simple_action] as a test. *)
Definition simple_actionb (a : action) : bool :=
  match default a with
  | VStr d =>
      match _get_value a d with
      | Ok (VStr d') => String.eqb d d'
      | _ => false
      end
  | _ => true
  end
  && match class a with
     | _SubParsersAction _ => false
     | _ => true
     end
  && match a_nargs a, class a with
     | NargsZero, (_HelpAction | _VersionAction _) => true
     | NargsZero, _ => forallb second_is_dash (option_strings a)
     | _, _ => true
     end.

(** The attributes that the flags of a sampler module write. *)
Definition backend_dests (module : option backend) : list (result string) :=
  match module with
  | None => []
  | Some m =>
      map (fun '(arg, kwargs) =>
             optional_dest ["--" +:+ prefix m +:+ arg] kwargs)
          (user_arguments m)
  end.

(** No flag of a sampler module writes the attribute [k]. *)
Definition keeps (env : environment) (k : string) : Prop :=
  Ok k ∉ (backend_dests (nested_sampling env)
          ++ backend_dests (cosmo_hammer env))%list.

Lemma simple_actionb_spec (a : action) :
  simple_actionb a = true -> simple_action a.
Proof.
  unfold simple_actionb. intros H.
  apply andb_prop in H as [H Hflag]. apply andb_prop in H as [Hdefault Hclass].
  split; [|split].
  - intros d Hd. rewrite Hd in Hdefault.
    destruct (_get_value a d) as [[| | | |d'|]|]; try discriminate Hdefault.
    apply String.eqb_eq in Hdefault as <-. reflexivity.
  - destruct (class a); try exact Logic.I. discriminate Hclass.
  - intros Hz os Hos Hshort. rewrite Hz in Hflag. unfold never_returns, call.
    destruct (class a); try discriminate Hclass;
      try (intros ns v; eexists; reflexivity);
      rewrite forallb_forall in Hflag;
      apply list_elem_of_In, Hflag in Hos; congruence.
Qed.

Lemma simple_actions (l : list action) :
  forallb simple_actionb l = true -> Forall simple_action l.
Proof.
  rewrite forallb_forall. intros H. apply Forall_forall. intros a Ha.
  apply simple_actionb_spec, H, list_elem_of_In, Ha.
Qed.

Lemma infoparser_simple : Forall simple_action (_actions infoparser).
Proof. apply simple_actions. vm_compute. reflexivity. Qed.

Lemma runparser_base_simple (env : environment) :
  Forall simple_action (_actions (runparser_base env)).
Proof. apply simple_actions. reflexivity. Qed.

(** What [add_argument] makes of a flag of a sampler module. *)
Lemma create_action_backend (flag : string) (kwargs : list kwarg) (a : action) :
  create_action ["--" +:+ flag] (kw_default (VInt (-1)) :: kwargs) = Ok a ->
  simple_action a /\ is_optional a = true /\
  optional_dest ["--" +:+ flag] kwargs = Ok (dest a).
Proof.
  unfold create_action.
  change (optional_dest ["--" +:+ flag] (kw_default (VInt (-1)) :: kwargs))
    with (optional_dest ["--" +:+ flag] kwargs).
  cbn [forallb kwargs_get get_default get_action get_nargs get_type
       get_choices get_version].
  change (Py.startswith ("--" +:+ flag) "-") with true.
  cbn [negb andb].
  destruct (optional_dest ["--" +:+ flag] kwargs) as [d|]; [|discriminate].
  cbn [Py.bind].
  assert (Hsimple : forall n t c cl,
             match cl with _SubParsersAction _ => False | _ => True end ->
             simple_action
               (Action ["--" +:+ flag] d n (VInt (-1)) t c false cl)).
  { intros n t c cl Hcl. split; [intros d' [= ]|]. split; [exact Hcl|].
    cbn [option_strings]. intros _ os Hos Hshort.
    apply list_elem_of_singleton in Hos as ->. discriminate Hshort. }
  destruct (kwargs_get get_action kwargs) as [name|].
  - repeat (match goal with
            | |- match ?s with EmptyString => _ | String _ _ => _ end = _ -> _ =>
                destruct s; try discriminate
            | |- match ?c with Ascii _ _ _ _ _ _ _ _ => _ end = _ -> _ =>
                destruct c
            | |- (if ?b then _ else _) = _ -> _ => destruct b; try discriminate
            end).
    all: try (destruct (kwargs_get get_nargs _) as [[]|]; try discriminate).
    all: intros [= <-]; (split; [apply Hsimple; exact Logic.I
                                |split; reflexivity]).
  - destruct (kwargs_get get_nargs _) as [[]|]; try discriminate;
      intros [= <-]; (split; [apply Hsimple; exact Logic.I
                             |split; reflexivity]).
Qed.

Lemma add_backend_shape (module : option backend) (p p' : parser) :
  add_backend p module = Ok p' ->
  error p' = error p /\
  exists extras,
    _actions p' = (_actions p ++ extras)%list /\
    Forall (fun a => simple_action a /\ is_optional a = true /\
                  Ok (dest a) ∈ backend_dests module) extras.
Proof.
  unfold add_backend, backend_dests. destruct module as [m|].
  - generalize (user_arguments m). intros l. revert p.
    induction l as [|[arg kwargs] l IH]; intros p; simpl.
    + intros [= <-]. split; [reflexivity|]. exists []. split; [|constructor].
      rewrite app_nil_r. reflexivity.
    + destruct (kwargs_get get_default kwargs); [discriminate|].
      unfold add_argument at 1.
      destruct (create_action _ _) as [a|] eqn:Ha; [|discriminate].
      cbn [Py.bind]. destruct (_check_conflict p a); [|discriminate].
      cbn [Py.bind]. intros H. apply IH in H as (Herr & extras & Hact & Hall).
      split; [exact Herr|]. exists (a :: extras). cbn [_actions] in Hact.
      split; [rewrite Hact, <- app_assoc; reflexivity|].
      apply create_action_backend in Ha as (Hs & Ho & Hd).
      constructor.
      * split; [exact Hs|]. split; [exact Ho|]. cbn [map]. rewrite Hd. left.
      * eapply Forall_impl; [exact Hall|]. intros x (? & ? & ?).
        split; [assumption|]. split; [assumption|]. cbn [map]. right. assumption.
  - intros [= <-]. split; [reflexivity|]. exists []. split; [|constructor].
    rewrite app_nil_r. reflexivity.
Qed.

(** The [run] parser: its [error] method, its actions, all optional. *)
Lemma run_arguments_shape (env : environment) (runparser : parser) :
  run_arguments env MpArgumentParser = Ok runparser ->
  error runparser = MpArgumentParser_error /\
  _get_positional_actions runparser = [] /\
  Forall simple_action (_actions runparser) /\
  exists extras,
    _actions runparser = (_actions (runparser_base env) ++ extras)%list /\
    Forall (fun a => forall k, keeps env k -> dest a <> k) extras.
Proof.
  rewrite run_arguments_eq.
  destruct (add_backend (runparser_base env) (nested_sampling env))
    as [p1|] eqn:H1; [|discriminate].
  cbn [Py.bind]. intros H2.
  apply add_backend_shape in H1 as (Herr1 & extras1 & Hact1 & Hall1).
  apply add_backend_shape in H2 as (Herr2 & extras2 & Hact2 & Hall2).
  rewrite Hact1, <- app_assoc in Hact2.
  split; [rewrite Herr2, Herr1; reflexivity|].
  assert (Hall : Forall (fun a => simple_action a /\ is_optional a = true /\
                                forall k, keeps env k -> dest a <> k)
                        (extras1 ++ extras2)).
  { apply Forall_app. split; (eapply Forall_impl; [eassumption|]);
      intros a (Hs & Ho & Hd); (split; [exact Hs|]); (split; [exact Ho|]);
      intros k Hk <-; apply Hk, elem_of_app; [left|right]; exact Hd. }
  split; [|split].
  - unfold _get_positional_actions. rewrite Hact2, filter_app.
    change (filter _ (_actions (runparser_base env))) with (@nil action).
    simpl. clear Hact2. induction Hall as [|a l (_ & Ho & _) _ IH]; [reflexivity|].
    rewrite filter_cons_False by (rewrite Ho; discriminate). exact IH.
  - rewrite Hact2. apply Forall_app. split; [apply runparser_base_simple|].
    eapply Forall_impl; [exact Hall|]. intros a Ha. apply Ha.
  - exists (extras1 ++ extras2)%list. split; [exact Hact2|].
    eapply Forall_impl; [exact Hall|]. intros a Ha. apply Ha.
Qed.


(** ** From the command line to the sub-command *)

(** Options that [argparse] returns come from the [run] parser or from the
    [info] parser, run on what follows the name of the sub-command. *)
Lemma parsed_Ok (env : environment) (cmd : string) (args : namespace) :
  parsed env cmd = Ok args ->
  exists runparser name rest sub ns',
    run_arguments env MpArgumentParser = Ok runparser /\
    set_default_subparser env "run" (tokens_of cmd) = Ok (name :: rest) /\
    ((name = "run" /\ sub = runparser) \/ (name = "info" /\ sub = infoparser)) /\
    parse_known_args sub rest (namespace_of name) = Ok (ns', []) /\
    forall k, k <> _UNRECOGNIZED_ARGS_ATTR -> args !! k = ns' !! k.
Proof.
  unfold parsed. destruct (create_parser env) as [p|] eqn:Hp; [|discriminate].
  apply create_parser_shape in Hp as (version & runparser & Hrun & ->).
  cbn [Py.bind]. unfold safe_parse_args.
  destruct (set_default_subparser env "run" (tokens_of cmd)) as [strings|]
    eqn:Hset; [|discriminate].
  cbn [Py.bind].
  destruct (set_default_subparser_first _ _ _ Hset)
    as (first & rest & -> & Hfirst).
  intros Hparse. destruct Hfirst as [Hexit|Hname].
  { exfalso. eapply parse_args_main_exit; eassumption. }
  apply parse_args_main_Ok in Hparse as (sub & ns' & Hsub & Hparse & Hk);
    [|exact Hname].
  exists runparser, first, rest, sub, ns'.
  split; [exact Hrun|]. split; [reflexivity|].
  split; [|split; assumption].
  unfold sub_parser in Hsub. cbn [assoc] in Hsub.
  destruct (String.eqb_spec "run" first) as [<-|_].
  { left. injection Hsub as <-. split; reflexivity. }
  destruct (String.eqb_spec "info" first) as [<-|_]; [|discriminate Hsub].
  right. injection Hsub as <-. split; reflexivity.
Qed.

(** No action of the [info] parser or of the [run] parser without sampler
    modules writes the name of the sub-command. *)
Lemma dest_not (k : string) (l : list action) :
  forallb (fun a => negb (String.eqb (dest a) k)) l = true ->
  Forall (fun a => dest a <> k) l.
Proof.
  rewrite forallb_forall. intros H. apply Forall_forall. intros a Ha.
  apply list_elem_of_In, H in Ha. intros Heq. rewrite Heq, String.eqb_refl in Ha.
  discriminate Ha.
Qed.

(** The sub-command leaves its name in place. *)
Lemma subparser_name_kept (env : environment) (cmd : string)
      (args : namespace) :
  keeps env "subparser_name" ->
  parsed env cmd = Ok args ->
  args !! "subparser_name" = Some (VStr "run") \/
  args !! "subparser_name" = Some (VStr "info").
Proof.
  intros Hkeeps Hp.
  apply parsed_Ok in Hp
      as (runparser & name & rest & sub & ns' & Hrun & _ & Hsub & Hparse & Hk).
  rewrite Hk by discriminate.
  apply run_arguments_shape in Hrun
      as (_ & Hpos & Hsimple & extras & Hact & Hextras).
  destruct Hsub as [[-> ->]|[-> ->]]; [left|right].
  - assert (Hdest : Forall (fun a => dest a <> "subparser_name")
                           (_actions runparser)).
    { rewrite Hact. apply Forall_app. split.
      - apply dest_not. reflexivity.
      - eapply Forall_impl; [exact Hextras|]. intros a Ha. apply Ha, Hkeeps. }
    eapply (simple_parser_keeps runparser); try eassumption.
    + discriminate.
    + intros s a os ea _ Hs. apply _parse_optional_table, table_elem in Hs as [Ha _].
      revert a Ha. apply Forall_forall, Hdest.
    + rewrite Hpos. constructor.
    + apply add_default_keep. reflexivity.
  - eapply (simple_parser_keeps infoparser); try eassumption.
    + apply infoparser_simple.
    + discriminate.
    + intros s a os ea _ Hs. apply _parse_optional_table, table_elem in Hs as [Ha _].
      revert a Ha. apply Forall_forall, dest_not. reflexivity.
    + apply dest_not. reflexivity.
    + apply add_default_keep. reflexivity.
Qed.

(** ** What [parse] returns *)

(** C8 (as amended): when [parse] returns (and no flag of a sampler module
    writes the attribute [subparser_name]), the attribute [subparser_name] of
    the options is ['run'] or ['info']; when it is ['run'], [folder] is a
    string, possibly the empty one, and [param] is set to something other
    than [None]. *)
Theorem parse_returns_run_or_info
        (env : environment) (cmd : string) (args : namespace)
        (ws : list warning) :
  keeps env "subparser_name" ->
  parse env cmd = (Ok args, ws) ->
  (args !! "subparser_name" = Some (VStr "run") /\
   (exists folder, args !! "folder" = Some (VStr folder)) /\
   (exists param, args !! "param" = Some param /\ param <> VNone))
  \/ args !! "subparser_name" = Some (VStr "info").
Proof.
  intros Hkeeps Hparse.
  destruct (parsed env cmd) as [pa|e] eqn:Hp.
  2: { exfalso. revert Hparse. unfold parse. unfold parsed, tokens_of in Hp.
       destruct (create_parser env) as [p|]; [|discriminate].
       simpl in Hp. rewrite bindW_lift_Ok.
       destruct (String.eqb cmd ""); rewrite Hp; discriminate. }
  pose proof (subparser_name_kept env cmd pa Hkeeps Hp) as Hname.
  revert Hparse. start_parse Hp; unfold getattr.
  all: destruct Hname as [Hname|Hname]; rewrite Hname; simpl;
    try (intros [= <- _]; right; exact Hname).
  all: destruct (pa !! "restart") as [restart|]; [|discriminate]; simpl.
  all: destruct (is_None restart) eqn:Hrestart; simpl.
  all: try (destruct restart; try discriminate; simpl; intros [= <- _]; left;
            unfold setattr;
            (split; [rewrite !lookup_insert_ne by discriminate; exact Hname|]);
            (split; [eexists; rewrite lookup_insert_ne by discriminate;
                     apply lookup_insert_eq|]);
            eexists; (split; [apply lookup_insert_eq|discriminate])).
  all: destruct (pa !! "folder") as [folder|] eqn:Hfolder; [|discriminate];
    simpl.
  all: destruct (is_None folder); [discriminate|].
  all: destruct folder as [| | | |folder|]; try discriminate; simpl.
  all: destruct (OsPath.isdir (fs env) folder).
  all: try destruct (OsPath.exists_ (fs env) _).
  all: destruct (pa !! "param") as [param|] eqn:Hparam; [|discriminate]; simpl.
  all: destruct param; try discriminate; simpl; intros [= <- _]; left;
    unfold setattr;
    rewrite ?lookup_insert_eq, ?lookup_insert_ne by discriminate.
  all: (split; [exact Hname|]); (split; [eexists; eassumption || reflexivity|]);
    eexists; (split; [eassumption || reflexivity|discriminate]).
Qed.


(** ** A flag that stores a constant *)

(** The attribute that the string, read as an option, writes. *)
Definition written_by (p : parser) (s : string) : option string :=
  match _parse_optional p s with
  | Ok (Some (Some a, _, _)) => Some (dest a)
  | _ => None
  end.

Lemma consume_optional_const (p : parser) (st0 st1 : state) (s : string)
      (a : action) (os : string) (ea : option string)
      (post : list (string * letter)) (c : value) (n : nat) :
  class a = _StoreConstAction c -> a_nargs a = NargsZero ->
  second_is_dash os = true ->
  consume_optional p st0 s (Some a, os, ea) post = Ok (st1, n) ->
  st_namespace st1 !! dest a = Some c.
Proof.
  intros Hclass Hnargs Hos. unfold consume_optional.
  assert (Hmatch : forall pattern, exists d, _match_argument a pattern = Ok d).
  { intros pattern. unfold _match_argument, match_nargs. rewrite Hnargs.
    eexists. reflexivity. }
  destruct ea as [e|].
  - assert (HA : _match_argument a [A] = Ok 0%nat).
    { unfold _match_argument, match_nargs. rewrite Hnargs.
      destruct (is_optional a); reflexivity. }
    destruct e; cbn [explicit_loop]; rewrite HA; cbn [Py.bind];
      rewrite Hos; discriminate.
  - destruct (Hmatch (map snd post)) as [d ->]. cbn [Py.bind app Py.foldM].
    unfold take_action.
    destruct (_get_values a _) as [v|]; [|discriminate]. cbn [Py.bind].
    unfold call. rewrite Hclass. cbn [Py.bind].
    intros [= <- _]. cbn [st_namespace]. unfold setattr.
    apply lookup_insert_eq.
Qed.

(** An option of the command line whose action establishes [J], in a
    parser whose other actions preserve [J]. *)
Lemma parse_known_args_reach (p : parser) (J : namespace -> Prop)
      (allowed : action -> Prop) (s : string) (t : option_tuple)
      (l : list string) (ns ns' : namespace) (extras : list string) :
  (forall a ns l v,
      allowed a -> _get_values a l = Ok v -> J ns ->
      ok_res (fun _ => True) J (call a ns v)) ->
  (forall a, allowed a -> plain a) ->
  Forall plain_default (_actions p) ->
  (forall ns, J ns -> J (delete _UNRECOGNIZED_ARGS_ATTR ns)) ->
  Forall allowed (_get_positional_actions p) ->
  (forall strings, classify p l = Ok strings ->
              Forall (letter_ok allowed) strings) ->
  s ∈ options_part l -> _parse_optional p s = Ok (Some t) ->
  (forall post st0 st1 n,
      consume_optional p st0 s t post = Ok (st1, n) -> J (st_namespace st1)) ->
  parse_known_args p l ns = Ok (ns', extras) -> J ns'.
Proof.
  intros Hcall Hplain Hdefaults Hdelete Hpos Hletters Hs Ht Htarget.
  unfold parse_known_args, _parse_known_args.
  destruct (classify p l) as [strings|e] eqn:Hc;
    [|destruct e; discriminate].
  cbn [Py.bind].
  destruct (classify_split p l strings s t Hc Hs Ht) as (pre & post & Heq).
  set (st0 := State (fold_left add_default (_actions p) ns) [] []
                    (_get_positional_actions p)).
  destruct (consume p st0 0 strings) as [st|e] eqn:Hconsume;
    [|destruct e; discriminate].
  cbn [Py.bind].
  pose proof (consume_reach p J allowed Hcall Hplain s t post (Htarget post)
                strings 0%nat st0 pre Heq ltac:(lia) Hpos (Hletters _ eq_refl)
                st Hconsume) as HJ.
  destruct (st_positionals st); [|destruct (error p _); discriminate].
  pose proof (convert_defaults_ok p (fun _ => True)
                ltac:(intros; exact Logic.I) st (_actions p)
                (st_namespace st) Hdefaults) as Hconv.
  destruct (Py.foldM (convert_default p st) (st_namespace st) (_actions p))
    as [ns1|e]; [|destruct e; discriminate].
  simpl in Hconv. subst ns1. cbn [Py.bind].
  destruct (st_namespace st !! _UNRECOGNIZED_ARGS_ATTR) as [v|].
  - destruct (match v with VList l0 => Py.mapM str_of l0 | _ => _ end);
      [|discriminate].
    cbn [Py.bind]. intros [= <- _]. apply Hdelete, HJ.
  - intros [= <- _]. exact HJ.
Qed.

(** A flag that stores the constant [c] in the attribute [k]: a long option
    without argument. *)
Definition const_flag (k : string) (c : value) (a : action) : Prop :=
  dest a = k ->
  class a = _StoreConstAction c /\ a_nargs a = NargsZero /\
  Forall (fun os => second_is_dash os = true) (option_strings a).

Definition value_eqb (v w : value) : bool :=
  match v, w with
  | VNone, VNone => true
  | VBool b, VBool b' => Bool.eqb b b'
  | _, _ => false
  end.

(** [const_flag] and [plain] as a test, for a truth value [c]. *)
Definition const_flagb (k : string) (c : value) (a : action) : bool :=
  match a_nargs a with PARSER => false | _ => true end
  && (negb (String.eqb (dest a) k)
      || match class a, a_nargs a with
         | _StoreConstAction c', NargsZero =>
             value_eqb c' c && forallb second_is_dash (option_strings a)
         | _, _ => false
         end).

Lemma value_eqb_eq (v w : value) : value_eqb v w = true -> v = w.
Proof.
  destruct v, w; try discriminate; [reflexivity|].
  simpl. intros H. apply Bool.eqb_prop in H as ->. reflexivity.
Qed.

Lemma const_flagb_spec (k : string) (c : value) (a : action) :
  const_flagb k c a = true -> plain a /\ const_flag k c a.
Proof.
  unfold const_flagb, plain, const_flag. intros H.
  apply andb_prop in H as [Hplain H]. split.
  - intros Heq. rewrite Heq in Hplain. discriminate.
  - intros Hdest. rewrite Hdest, String.eqb_refl in H. simpl in H.
    destruct (class a); try discriminate H.
    destruct (a_nargs a); try discriminate H.
    apply andb_prop in H as [Hc Hos]. apply value_eqb_eq in Hc as ->.
    split; [reflexivity|]. split; [reflexivity|].
    apply Forall_forall. intros os Hin.
    rewrite forallb_forall in Hos. apply Hos, list_elem_of_In, Hin.
Qed.

Lemma const_flags (k : string) (c : value) (l : list action) :
  forallb (const_flagb k c) l = true ->
  Forall (fun a => plain a /\ const_flag k c a) l.
Proof.
  rewrite forallb_forall. intros H. apply Forall_forall. intros a Ha.
  apply const_flagb_spec, H, list_elem_of_In, Ha.
Qed.

Lemma written_by_Some (p : parser) (s k : string) :
  written_by p s = Some k ->
  exists a os ea,
    _parse_optional p s = Ok (Some (Some a, os, ea)) /\ dest a = k /\
    a ∈ _actions p /\ os ∈ option_strings a.
Proof.
  unfold written_by.
  destruct (_parse_optional p s) as [[[[[a|] os] ea]|]|] eqn:Hs;
    try discriminate.
  intros [= <-]. exists a, os, ea. split; [reflexivity|].
  split; [reflexivity|]. apply _parse_optional_table, table_elem in Hs.
  exact Hs.
Qed.

(** A simple parser leaves an attribute alone when no string in front of
    ["--"] is read as an option that writes it. *)
Lemma simple_parser_default (p : parser) (k : string) (v0 : value)
      (l : list string) (ns ns' : namespace) (extras : list string) :
  Forall simple_action (_actions p) ->
  k <> _UNRECOGNIZED_ARGS_ATTR ->
  Forall (fun s => written_by p s <> Some k) (options_part l) ->
  Forall (fun a => dest a <> k) (_get_positional_actions p) ->
  fold_left add_default (_actions p) ns !! k = Some v0 ->
  parse_known_args p l ns = Ok (ns', extras) ->
  ns' !! k = Some v0.
Proof.
  intros Hsimple Hk Hoptions. apply simple_parser_keeps; try assumption.
  intros s a os ea Hs Hopt Hdest. rewrite Forall_forall in Hoptions.
  apply (Hoptions s Hs). unfold written_by. rewrite Hopt, Hdest. reflexivity.
Qed.

(** A simple parser whose only actions on the attribute [k] are flags
    storing [c]: a string read as one of them sets [k] to [c]. *)
Lemma simple_parser_sets (p : parser) (k : string) (c : value)
      (l : list string) (ns ns' : namespace) (extras : list string) :
  Forall simple_action (_actions p) ->
  Forall (fun a => plain a /\ const_flag k c a) (_actions p) ->
  k <> _UNRECOGNIZED_ARGS_ATTR ->
  Exists (fun s => written_by p s = Some k) (options_part l) ->
  parse_known_args p l ns = Ok (ns', extras) ->
  ns' !! k = Some c.
Proof.
  intros Hsimple Hflags Hk Hex Hparse.
  apply Exists_exists in Hex as (s & Hs & Hwritten).
  apply written_by_Some in Hwritten as (a & os & ea & Hopt & Hdest & Ha & Hos).
  set (allowed := fun a => simple_action a /\ plain a /\ const_flag k c a).
  assert (Hall : forall a, a ∈ _actions p -> allowed a).
  { intros a' Ha'. rewrite Forall_forall in Hsimple, Hflags.
    split; [apply Hsimple, Ha'|apply Hflags, Ha']. }
  apply (parse_known_args_reach p (holds k c) allowed s (Some a, os, ea)
           l ns ns' extras); try assumption.
  - intros a' ns0 l0 v (Hs' & _ & Hflag) _ Hns. unfold call.
    destruct Hs' as (_ & Hclass & _).
    destruct (String.eqb_spec (dest a') k) as [Heq|Hne].
    + destruct (Hflag Heq) as (-> & _ & _). unfold ok_res, holds, setattr.
      rewrite Heq. apply lookup_insert_eq.
    + destruct (class a'); try exact Logic.I; try contradiction;
        unfold ok_res, holds, setattr; rewrite lookup_insert_ne by exact Hne;
        exact Hns.
  - intros a' Ha'. apply Ha'.
  - eapply Forall_impl; [exact Hsimple|]. intros a' Ha'. apply Ha'.
  - intros ns0 H0. unfold holds. rewrite lookup_delete_ne by congruence.
    exact H0.
  - apply Forall_forall. intros a' Ha'. apply Hall.
    unfold _get_positional_actions in Ha'.
    apply list_elem_of_filter in Ha' as [_ Ha']. exact Ha'.
  - intros strings Hc. apply Forall_forall. intros [s' [t'| |]] Hin;
      try exact Logic.I.
    destruct (classify_options_part p l strings s' t' Hc Hin) as [_ Ht'].
    destruct t' as [[[a'|] os'] ea']; [|exact Logic.I].
    apply _parse_optional_table, table_elem in Ht' as [Ha' Hos'].
    split; [apply Hall, Ha'|].
    intros Hz Hshort. destruct (Hall a' Ha') as ((_ & _ & Hflag) & _).
    eapply Hflag; eassumption.
  - intros post st0 st1 n Hco. unfold holds. rewrite <- Hdest.
    destruct (Hall a Ha) as (_ & _ & Hflag).
    destruct (Hflag Hdest) as (Hclass & Hnargs & Hlong).
    rewrite Forall_forall in Hlong.
    eapply consume_optional_const; eauto.
Qed.

(** The checks of [parse] leave every option but [folder] and [param] as
    [argparse] returned it. *)
Lemma parse_Ok_parsed (env : environment) (cmd : string) (args : namespace)
      (ws : list warning) :
  parse env cmd = (Ok args, ws) ->
  exists pa,
    parsed env cmd = Ok pa /\
    forall k, k <> "folder" -> k <> "param" -> args !! k = pa !! k.
Proof.
  intros Hparse.
  destruct (parsed env cmd) as [pa|e] eqn:Hp.
  2: { exfalso. revert Hparse. unfold parse. unfold parsed, tokens_of in Hp.
       destruct (create_parser env) as [p|]; [|discriminate].
       simpl in Hp. rewrite bindW_lift_Ok.
       destruct (String.eqb cmd ""); rewrite Hp; discriminate. }
  exists pa. split; [reflexivity|]. intros k Hfolder Hparam.
  revert Hparse. start_parse Hp; unfold getattr.
  all: destruct (pa !! "subparser_name") as [name|]; [|discriminate]; simpl.
  all: destruct (eq_str name "run"); [|intros [= <- _]; reflexivity].
  all: destruct (pa !! "restart") as [restart|]; [|discriminate]; simpl.
  all: destruct (is_None restart) eqn:Hrestart; simpl.
  all: try (destruct restart; try discriminate; simpl; intros [= <- _];
            unfold setattr; rewrite !lookup_insert_ne by congruence;
            reflexivity).
  all: destruct (pa !! "folder") as [folder|]; [|discriminate]; simpl.
  all: destruct (is_None folder); [discriminate|].
  all: destruct folder as [| | | |folder|]; try discriminate; simpl.
  all: destruct (OsPath.isdir (fs env) folder).
  all: try destruct (OsPath.exists_ (fs env) _).
  all: destruct (pa !! "param") as [param|]; [|discriminate]; simpl.
  all: destruct param; try discriminate; simpl; intros [= <- _];
    unfold setattr; rewrite ?lookup_insert_ne by congruence; reflexivity.
Qed.

(** The string is read as an option that writes the attribute [k]. *)
Definition reads_as (p : parser) (k : string) (s : string) : bool :=
  bool_decide (written_by p s = Some k).

(** The [run] parser of an installation. *)
Definition run_parser (env : environment) : parser :=
  match run_arguments env MpArgumentParser with
  | Ok p => p
  | Raise _ => MpArgumentParser
  end.

(** The flags of [info] that switch something off, with the attribute each
    one writes. *)
Definition disable_flags : list (string * string) :=
  [("--no-mean", "mean_likelihood"); ("--noplot", "plot");
   ("--noplot-2d", "plot_2d")].

Lemma existsb_false_Forall {X} (f : X -> bool) (P : X -> Prop) (l : list X) :
  (forall x, f x = false -> P x) -> existsb f l = false -> Forall P l.
Proof.
  intros Hf. induction l as [|x l IH]; simpl; [constructor|].
  intros H. apply orb_false_elim in H as [Hx Hl].
  constructor; [apply Hf, Hx|apply IH, Hl].
Qed.

Lemma existsb_true_Exists {X} (f : X -> bool) (P : X -> Prop) (l : list X) :
  (forall x, f x = true -> P x) -> existsb f l = true -> Exists P l.
Proof.
  intros Hf. induction l as [|x l IH]; simpl; [discriminate|].
  intros H. apply orb_prop in H as [Hx|Hl];
    [left; apply Hf, Hx|right; apply IH, Hl].
Qed.

Lemma elem_of_existsb {X} (f : X -> bool) (l : list X) (x : X) :
  x ∈ l -> f x = true -> existsb f l = true.
Proof.
  intros Hin Hx. apply existsb_exists. exists x.
  split; [apply list_elem_of_In, Hin|exact Hx].
Qed.

(** An [info] command line, as the [info] parser sees it. *)
Lemma parse_info (env : environment) (cmd : string) (rest : list string)
      (args : namespace) (ws : list warning) :
  set_default_subparser env "run" (tokens_of cmd) = Ok ("info" :: rest) ->
  parse env cmd = (Ok args, ws) ->
  exists ns',
    parse_known_args infoparser rest (namespace_of "info") = Ok (ns', []) /\
    forall k, k <> "folder" -> k <> "param" ->
         k <> _UNRECOGNIZED_ARGS_ATTR -> args !! k = ns' !! k.
Proof.
  intros Hset Hparse.
  apply parse_Ok_parsed in Hparse as (pa & Hp & Hargs).
  apply parsed_Ok in Hp
      as (runparser & name & rest' & sub & ns' & _ & Hset' & Hsub & Hsubparse
          & Hpa).
  rewrite Hset in Hset'. injection Hset' as <- <-.
  destruct Hsub as [[[= ] _]|[_ ->]].
  exists ns'. split; [exact Hsubparse|]. intros k H1 H2 H3.
  rewrite Hargs, Hpa by assumption. reflexivity.
Qed.

(** A [run] command line, as the [run] parser sees it. *)
Lemma parse_run (env : environment) (cmd : string) (rest : list string)
      (args : namespace) (ws : list warning) :
  set_default_subparser env "run" (tokens_of cmd) = Ok ("run" :: rest) ->
  parse env cmd = (Ok args, ws) ->
  exists ns',
    run_arguments env MpArgumentParser = Ok (run_parser env) /\
    parse_known_args (run_parser env) rest (namespace_of "run")
    = Ok (ns', []) /\
    forall k, k <> "folder" -> k <> "param" ->
         k <> _UNRECOGNIZED_ARGS_ATTR -> args !! k = ns' !! k.
Proof.
  intros Hset Hparse.
  apply parse_Ok_parsed in Hparse as (pa & Hp & Hargs).
  apply parsed_Ok in Hp
      as (runparser & name & rest' & sub & ns' & Hrun & Hset' & Hsub
          & Hsubparse & Hpa).
  rewrite Hset in Hset'. injection Hset' as <- <-.
  destruct Hsub as [[_ ->]|[[= ] _]].
  assert (Heq : run_parser env = runparser)
    by (unfold run_parser; rewrite Hrun; reflexivity).
  rewrite Heq. exists ns'. split; [exact Hrun|]. split; [exact Hsubparse|].
  intros k H1 H2 H3. rewrite Hargs, Hpa by assumption. reflexivity.
Qed.

(** C9: for an [info] command line, each of the attributes
    [mean_likelihood], [plot] and [plot_2d] is [True] when no string in
    front of ["--"] is read as its flag ([--no-mean], [--noplot],
    [--noplot-2d], written in full or abbreviated), and [False] when the
    flag is there. *)
Theorem info_disable_flags
        (env : environment) (cmd : string) (rest : list string)
        (args : namespace) (ws : list warning) (flag k : string) :
  (flag, k) ∈ disable_flags ->
  set_default_subparser env "run" (tokens_of cmd) = Ok ("info" :: rest) ->
  parse env cmd = (Ok args, ws) ->
  (existsb (reads_as infoparser k) (options_part rest) = false ->
   args !! k = Some (VBool true)) /\
  (flag ∈ options_part rest -> args !! k = Some (VBool false)) /\
  (existsb (reads_as infoparser k) (options_part rest) = true ->
   args !! k = Some (VBool false)).
Proof.
  intros Hflag Hset Hparse.
  destruct (parse_info env cmd rest args ws Hset Hparse) as (ns' & Hsub & Hk).
  assert (Hfacts :
            reads_as infoparser k flag = true /\
            k <> "folder" /\ k <> "param" /\ k <> _UNRECOGNIZED_ARGS_ATTR /\
            forallb (fun a => negb (String.eqb (dest a) k))
                    (_get_positional_actions infoparser) = true /\
            fold_left add_default (_actions infoparser) (namespace_of "info")
              !! k = Some (VBool true) /\
            forallb (const_flagb k (VBool false)) (_actions infoparser) = true).
  { unfold disable_flags in Hflag.
    repeat (apply elem_of_cons in Hflag as [[= -> ->]|Hflag];
            [repeat split; try discriminate; vm_compute; reflexivity|]).
    inversion Hflag. }
  destruct Hfacts as (Hreads & H1 & H2 & H3 & Hpos & Hinit & Hconst).
  rewrite Hk by assumption.
  assert (Hset_false :
            existsb (reads_as infoparser k) (options_part rest) = true ->
            ns' !! k = Some (VBool false)).
  { intros Hex.
    eapply (simple_parser_sets infoparser); try eassumption.
    - apply infoparser_simple.
    - apply const_flags, Hconst.
    - eapply existsb_true_Exists; [|exact Hex].
      intros s Hs. apply bool_decide_eq_true in Hs. exact Hs. }
  split; [|split].
  - intros Hno.
    eapply (simple_parser_default infoparser); try eassumption.
    + apply infoparser_simple.
    + eapply existsb_false_Forall; [|exact Hno].
      intros s Hs. apply bool_decide_eq_false in Hs. exact Hs.
    + apply dest_not, Hpos.
  - intros Hin. apply Hset_false. eapply elem_of_existsb; eassumption.
  - exact Hset_false.
Qed.



(** An installation with a sampler module. *)
Definition example_env_sampler : environment :=
  Environment ["montepython/MontePython.py"] example_fs (Some "2.2.2")
              (fun _ => true)
              (Some (Backend "NS_" [("n_live_points", [kw_type int]);
                                    ("sampling_efficiency", [kw_type str])]))
              None.

(** Running [parse] on a command line of an example installation. *)
Ltac run_parse args ws E :=
  match goal with
  | |- context [parse ?env ?cmd] =>
      destruct (parse env cmd) as [[args|] ws] eqn:E;
      [|exfalso;
        assert (Hok : match fst (parse env cmd) with
                      | Ok _ => True
                      | Raise _ => False
                      end) by (vm_compute; exact I);
        rewrite E in Hok; exact Hok]
  end.

Ltac lookup_parse E :=
  match type of E with
  | parse ?env ?cmd = (Ok ?args, ?ws) =>
      match goal with
      | |- args !! ?k = ?v =>
          change (match fst (Ok args, ws) with
                  | Ok a => a !! k
                  | Raise _ => None
                  end = v);
          rewrite <- E; vm_compute; reflexivity
      end
  end.

Lemma parse_returns_run_or_info_witness :
  exists args ws,
    parse example_env_sampler "-N 10 -o out -p x.param --NS_n_live_points 5"
    = (Ok args, ws) /\
    keeps example_env_sampler "subparser_name" /\
    ((args !! "subparser_name" = Some (VStr "run") /\
      (exists folder, args !! "folder" = Some (VStr folder)) /\
      (exists param, args !! "param" = Some param /\ param <> VNone))
     \/ args !! "subparser_name" = Some (VStr "info")).
Proof.
  assert (Hkeeps : keeps example_env_sampler "subparser_name").
  { unfold keeps. intros H. vm_compute in H.
    repeat (apply elem_of_cons in H as [H|H]; [discriminate H|]).
    inversion H. }
  run_parse args ws E. exists args, ws. split; [reflexivity|].
  split; [exact Hkeeps|].
  exact (parse_returns_run_or_info example_env_sampler _ args ws Hkeeps E).
Defined.

(** Restarting from a chain file of the current folder: the folder is the
    empty string. *)
Lemma restart_in_current_folder :
  exists args ws,
    parse example_env "-r c.txt" = (Ok args, ws) /\
    args !! "subparser_name" = Some (VStr "run") /\
    args !! "folder" = Some (VStr "").
Proof.
  run_parse args ws E. exists args, ws. split; [reflexivity|].
  split; lookup_parse E.
Qed.



Lemma info_disable_flags_witness :
  exists args ws,
    parse example_env "info out --no-mean --noplot-2" = (Ok args, ws) /\
    args !! "mean_likelihood" = Some (VBool false) /\
    args !! "plot" = Some (VBool true) /\
    args !! "plot_2d" = Some (VBool false).
Proof.
  run_parse args ws E. exists args, ws. split; [reflexivity|].
  assert (Hset : set_default_subparser
                   example_env "run"
                   (tokens_of "info out --no-mean --noplot-2")
                 = Ok ["info"; "out"; "--no-mean"; "--noplot-2"])
    by (vm_compute; reflexivity).
  split; [|split].
  - refine (proj1 (proj2 (info_disable_flags
                            example_env _ _ args ws
                            "--no-mean" "mean_likelihood" _ Hset E)) _).
    + left.
    + right. left.
  - refine (proj1 (info_disable_flags
                     example_env _ _ args ws "--noplot" "plot" _ Hset E) _).
    + right. left.
    + vm_compute. reflexivity.
  - refine (proj2 (proj2 (info_disable_flags
                            example_env _ _ args ws
                            "--noplot-2d" "plot_2d" _ Hset E)) _).
    + right. right. left.
    + vm_compute. reflexivity.
Defined.


(** ** What becomes of an [ArgumentTypeError] *)





Lemma main_parser_actions (version : string) (runparser : parser) :
  _actions (main_parser version runparser)
  = [help_action; version_action version; subcommand runparser].
Proof. reflexivity. Qed.











(** ** A value that the type function of the first option refuses *)

Lemma parse_known_args_raise (p : parser) (l : list string) (ns : namespace)
      (e : exn) :
  _parse_known_args p l (fold_left add_default (_actions p) ns) = Raise e ->
  (exists err, e = ArgumentError err) \/ (exists err, e = error p err) ->
  exists err, parse_known_args p l ns = Raise (error p err).
Proof.
  intros He Hcases. unfold parse_known_args. rewrite He.
  destruct Hcases as [[err ->]|[err ->]]; [eexists; reflexivity|].
  destruct (error p err) eqn:Herr; try (exists err; rewrite Herr; reflexivity).
  eexists. reflexivity.
Qed.



Lemma parse_parsed_Raise (env : environment) (cmd : string) (e : exn) :
  parsed env cmd = Raise e -> parse env cmd = (Raise e, []).
Proof.
  intros Hp. unfold parse. unfold parsed, tokens_of in Hp.
  destruct (create_parser env) as [p|]; [|injection Hp as <-; reflexivity].
  cbn [Py.bind] in Hp. rewrite bindW_lift_Ok.
  destruct (String.eqb cmd ""); rewrite Hp; reflexivity.
Qed.

Lemma assoc_app_Some {B} (k : string) (l1 l2 : list (string * B)) (v : B) :
  assoc k l1 = Some v -> assoc k (l1 ++ l2) = Some v.
Proof.
  induction l1 as [|[k' v'] l1 IH]; simpl; [discriminate|].
  destruct (String.eqb k' k); [intros H; exact H|exact IH].
Qed.

Lemma _parse_optional_exact (p : parser) (s : string) (a : action) :
  Py.startswith s "-" = true ->
  assoc s (_option_string_actions p) = Some a ->
  _parse_optional p s = Ok (Some (Some a, s, None)).
Proof.
  intros Hs Ha. unfold _parse_optional. unfold Py.startswith in Hs.
  destruct s as [|c tl]; cbn [String.prefix] in Hs; [discriminate Hs|].
  destruct (ascii_dec "-" c) as [<-|]; [|discriminate Hs].
  cbn [Ascii.eqb Bool.eqb negb]. rewrite Ha. reflexivity.
Qed.






Lemma example_env_create_parser :
  forall e, create_parser example_env <> Raise e.
Proof.
  intros e He.
  assert (H : match create_parser example_env with
              | Ok _ => True
              | Raise _ => False
              end) by (vm_compute; exact I).
  rewrite He in H. exact H.
Defined.




(** * Further properties of the module *)

(** ** [set_default_subparser] *)

Lemma has_hyphen_special (s : string) :
  s ∈ ["-h"; "--help"; "--version"; "-info"] -> has_hyphen s = true.
Proof.
  intros H. repeat (apply elem_of_cons in H as [->|H]); try reflexivity.
  inversion H.
Qed.

(** X1: [set_default_subparser] rewrites once.  With a default sub-command
    that has no hyphen (as ['run']), the list it returns is left as it is
    when the function is applied to it again. *)
Theorem set_default_subparser_idempotent
        (env : environment) (default : string) (args : option (list string))
        (strings : list string) :
  has_hyphen default = false ->
  set_default_subparser env default args = Ok strings ->
  set_default_subparser env default (Some strings) = Ok strings.
Proof.
  intros Hdefault. unfold set_default_subparser at 1. cbv zeta.
  set (l := match args with
            | Some ((_ :: _) as l) => l
            | _ => tail (argv env)
            end). clearbody l.
  assert (Hplain : forall first rest,
             has_hyphen first = false ->
             set_default_subparser env default (Some (first :: rest))
             = Ok (first :: rest)).
  { intros first rest Hfirst. unfold set_default_subparser.
    case_bool_decide as Hin.
    - apply has_hyphen_special in Hin. congruence.
    - simpl. rewrite find_hyphen, Hfirst. reflexivity. }
  destruct l as [|first rest]; [discriminate|].
  case_bool_decide as Hin; simpl.
  - destruct (String.eqb_spec first "-info") as [->|Hne].
    + intros [= <-]. apply Hplain. reflexivity.
    + intros [= <-]. unfold set_default_subparser.
      rewrite bool_decide_eq_true_2 by exact Hin. simpl.
      apply String.eqb_neq in Hne. rewrite Hne. reflexivity.
  - rewrite find_hyphen. destruct (has_hyphen first) eqn:Hfirst; simpl.
    + intros [= <-]. apply Hplain, Hdefault.
    + intros [= <-]. apply Hplain, Hfirst.
Qed.

Lemma set_default_subparser_idempotent_witness :
  set_default_subparser example_env "run" (Some ["-N"; "10"])
  = Ok ["run"; "-N"; "10"]
  /\ set_default_subparser example_env "run" (Some ["run"; "-N"; "10"])
     = Ok ["run"; "-N"; "10"].
Proof.
  split; [reflexivity|].
  apply (set_default_subparser_idempotent
           example_env "run" (Some ["-N"; "10"]) _ eq_refl eq_refl).
Defined.

(** ** [positive_int] *)

Lemma int_raises (s : string) (e : exn) :
  Py.int s = Raise e -> e = ValueError.
Proof.
  unfold Py.int. cbv zeta.
  match goal with
  | |- match ?x with Some _ => _ | None => _ end = _ -> _ => destruct x
  end; [discriminate|].
  intros [= <-]. reflexivity.
Qed.

(** X2: [positive_int] returns [int(string)] when that is a positive
    integer, and nothing else: a string that is no integer, zero or a
    negative integer raises [ArgumentTypeError] with the message about the
    number of steps; no [ValueError] comes out. *)
Theorem positive_int_spec (s : string) :
  match positive_int s with
  | Ok n => Py.int s = Ok n /\ (0 < n)%Z
  | Raise e =>
      e = ArgumentTypeError
            ("You asked for a non-positive number of steps. "
             +:+ "I am not sure what to do, so I will exit. Sorry.")
      /\ forall n, Py.int s = Ok n -> (n <= 0)%Z
  end.
Proof.
  unfold positive_int. destruct (Py.int s) as [n|e] eqn:Hint.
  - cbn [Py.bind]. destruct (Z.leb_spec n 0).
    + split; [reflexivity|]. intros n' [= <-]. assumption.
    + split; [reflexivity|lia].
  - apply int_raises in Hint as ->. split; [reflexivity|]. discriminate.
Qed.

(** ** [parse] and the command line of the process *)

(** An installation started as [MontePython.py -N 10 -o out -p x.param]. *)
Definition example_env_argv : environment :=
  Environment ["montepython/MontePython.py"; "-N"; "10"; "-o"; "out"; "-p";
               "x.param"]
              example_fs (Some "2.2.2") (fun _ => true) None None.

(** X3: the custom command of [parse] stands for the command line of the
    process.  When the arguments of the process are the custom command split
    at its blanks, [parse()] and [parse(custom_command)] give the same
    result and the same warnings. *)
Theorem custom_command_replaces_argv (env : environment) (cmd : string) :
  cmd <> "" ->
  tail (argv env) = Py.split " " cmd ->
  parse env "" = parse env cmd.
Proof.
  intros Hcmd Hargv. unfold parse.
  destruct (create_parser env) as [p|]; [|reflexivity].
  rewrite !bindW_lift_Ok. apply String.eqb_neq in Hcmd. rewrite Hcmd.
  change (String.eqb "" "") with true. cbv iota.
  assert (Heq : safe_parse_args env p None
                = safe_parse_args env p (Some (Py.split " " cmd))).
  { unfold safe_parse_args, set_default_subparser. rewrite Hargv.
    destruct (Py.split " " cmd); reflexivity. }
  rewrite Heq. reflexivity.
Qed.

Lemma custom_command_replaces_argv_witness :
  parse example_env_argv "" = parse example_env_argv "-N 10 -o out -p x.param".
Proof.
  apply custom_command_replaces_argv; [discriminate|reflexivity].
Defined.

(** ** [create_parser] *)

(** X4: without sampler modules, [create_parser] fails only when the file
    VERSION cannot be read, with [IOError]; otherwise it returns the main
    parser: none of the declarations of flags is refused (no option string
    is declared twice). *)
Theorem create_parser_without_samplers (env : environment) :
  nested_sampling env = None -> cosmo_hammer env = None ->
  match VERSION env with
  | None => create_parser env = Raise IOError
  | Some text =>
      create_parser env
      = Ok (main_parser (Py.readline text) (runparser_base env))
      /\ run_arguments env MpArgumentParser = Ok (runparser_base env)
  end.
Proof.
  intros Hns Hch.
  assert (Hrun : run_arguments env MpArgumentParser
                 = Ok (runparser_base env)).
  { rewrite run_arguments_eq, Hns, Hch. reflexivity. }
  destruct (VERSION env) as [text|] eqn:Hversion.
  - split; [|exact Hrun]. unfold create_parser. rewrite Hversion.
    cbn [Py.bind].
    change (add_argument MpArgumentParser ["--version"]
              [kw_action "version"; kw_version (Py.readline text)])
      with (Ok (match add_argument MpArgumentParser ["--version"]
                        [kw_action "version"; kw_version (Py.readline text)]
                with
                | Ok p => p
                | Raise _ => MpArgumentParser
                end)).
    cbn [Py.bind]. rewrite Hrun. cbn [Py.bind]. rewrite info_arguments_eq.
    reflexivity.
  - unfold create_parser. rewrite Hversion. reflexivity.
Qed.

Lemma create_parser_without_samplers_witness :
  create_parser example_env
  = Ok (main_parser "2.2.2" (runparser_base example_env)).
Proof.
  apply (create_parser_without_samplers example_env eq_refl eq_refl).
Defined.

(** ** The checks of [parse] *)

(** X5: [parse] warns at most once, and only when it returns the options of
    a [run]: a warning comes with [param] set to [log.param] in the
    folder. *)
Theorem parse_warns_once (env : environment) (cmd : string)
        (r : result namespace) (ws : list warning) :
  parse env cmd = (r, ws) ->
  ws = [] \/
  exists w args folder,
    ws = [w] /\ r = Ok args /\
    args !! "subparser_name" = Some (VStr "run") /\
    args !! "folder" = Some (VStr folder) /\
    args !! "param" = Some (VStr (OsPath.join folder "log.param")).
Proof.
  destruct (parsed env cmd) as [pa|e] eqn:Hp.
  2: { rewrite (parse_parsed_Raise env cmd e Hp). intros [= <- <-]. left.
       reflexivity. }
  start_parse Hp; unfold getattr.
  all: destruct (pa !! "subparser_name") as [name|] eqn:Hname;
    [|intros [= <- <-]; left; reflexivity]; simpl.
  all: destruct (eq_str name "run") eqn:Hrun;
    [|intros [= <- <-]; left; reflexivity].
  all: assert (name = VStr "run")
    by (destruct name; try discriminate; simpl in Hrun;
        apply String.eqb_eq in Hrun as ->; reflexivity); subst name.
  all: destruct (pa !! "restart") as [restart|];
    [|intros [= <- <-]; left; reflexivity]; simpl.
  all: destruct (is_None restart) eqn:Hrestart; simpl.
  all: try (destruct restart; try discriminate; simpl;
            intros [= <- <-]; try (left; reflexivity);
            right; eexists _, _, _; unfold setattr;
            (split; [reflexivity|]); (split; [reflexivity|]);
            (split; [rewrite !lookup_insert_ne by discriminate; exact Hname|]);
            (split; [rewrite lookup_insert_ne by discriminate;
                     apply lookup_insert_eq|apply lookup_insert_eq])).
  all: destruct (pa !! "folder") as [folder|] eqn:Hfolder;
    [|intros [= <- <-]; left; reflexivity]; simpl.
  all: destruct (is_None folder); [intros [= <- <-]; left; reflexivity|].
  all: destruct folder as [| | | |folder|];
    try (intros [= <- <-]; left; reflexivity); simpl.
  all: destruct (OsPath.isdir (fs env) folder).
  all: try destruct (OsPath.exists_ (fs env) _).
  all: destruct (pa !! "param") as [param|];
    [|intros [= <- <-]; left; reflexivity]; simpl.
  all: destruct param; simpl; intros [= <- <-]; try (left; reflexivity).
  all: right; eexists _, _, _; unfold setattr;
    (split; [reflexivity|]); (split; [reflexivity|]);
    (split; [rewrite !lookup_insert_ne by discriminate; exact Hname|]);
    (split; [rewrite lookup_insert_ne by discriminate; exact Hfolder
            |apply lookup_insert_eq]).
Qed.

Lemma parse_warns_once_witness :
  exists r ws,
    parse example_env "-r chains/c.txt" = (r, ws) /\
    (ws = [] \/
     exists w args folder,
       ws = [w] /\ r = Ok args /\
       args !! "subparser_name" = Some (VStr "run") /\
       args !! "folder" = Some (VStr folder) /\
       args !! "param" = Some (VStr (OsPath.join folder "log.param"))).
Proof.
  destruct (parse example_env "-r chains/c.txt") as [r ws] eqn:E.
  exists r, ws. split; [reflexivity|].
  exact (parse_warns_once example_env _ r ws E).
Defined.

(** X6: the checks of [parse] touch [folder] and [param] only.  The options
    that [parse] returns are those that [argparse] returned, but for these
    two; for a sub-command other than [run] they are the very same, and
    there is no warning. *)
Theorem parse_changes_folder_and_param_only
        (env : environment) (cmd : string) (args : namespace)
        (ws : list warning) :
  parse env cmd = (Ok args, ws) ->
  exists pa,
    parsed env cmd = Ok pa /\
    (forall k, k <> "folder" -> k <> "param" -> args !! k = pa !! k) /\
    (pa !! "subparser_name" <> Some (VStr "run") -> args = pa /\ ws = []).
Proof.
  intros Hparse.
  destruct (parse_Ok_parsed env cmd args ws Hparse) as (pa & Hp & Hk).
  exists pa. split; [exact Hp|]. split; [exact Hk|].
  intros Hname. revert Hparse. start_parse Hp; unfold getattr.
  all: destruct (pa !! "subparser_name") as [name|]; [|discriminate]; simpl.
  all: destruct (eq_str name "run") eqn:Hrun;
    [|intros [= <- <-]; split; reflexivity].
  all: exfalso; apply Hname; destruct name; try discriminate; simpl in Hrun;
    apply String.eqb_eq in Hrun as ->; reflexivity.
Qed.

Lemma parse_changes_folder_and_param_only_witness :
  exists args ws pa,
    parse example_env "-N 10 -o out -p x.param" = (Ok args, ws) /\
    parsed example_env "-N 10 -o out -p x.param" = Ok pa /\
    args !! "N" = pa !! "N".
Proof.
  run_parse args ws E.
  destruct (parse_changes_folder_and_param_only example_env _ args ws E)
    as (pa & Hp & Hk & _).
  exists args, ws, pa. split; [reflexivity|]. split; [exact Hp|].
  apply Hk; discriminate.
Defined.

(** X7: a [run] that goes through unchanged.  Without [-r], with an output
    folder that is not a directory yet, or a directory without [log.param],
    and with a parameter file given: [parse] returns the options as
    [argparse] gave them, with no warning. *)
Theorem run_with_parameter_file
        (env : environment) (cmd : string) (args : namespace)
        (folder : string) (param : value) :
  parsed env cmd = Ok args ->
  args !! "subparser_name" = Some (VStr "run") ->
  args !! "restart" = Some VNone ->
  args !! "folder" = Some (VStr folder) ->
  args !! "param" = Some param -> param <> VNone ->
  OsPath.isdir (fs env) folder = false \/
  OsPath.exists_ (fs env) (OsPath.join folder "log.param") = false ->
  parse env cmd = (Ok args, []).
Proof.
  intros Hp Hname Hrestart Hfolder Hparam Hgiven Hdisk.
  assert (Hnone : is_None param = false)
    by (destruct param; try reflexivity; contradiction).
  start_parse Hp; unfold getattr; rewrite Hname; simpl; rewrite Hrestart;
    simpl; rewrite Hfolder; simpl.
  all: destruct (OsPath.isdir (fs env) folder) eqn:Hdir.
  all: destruct Hdisk as [Hno|Hlog]; try discriminate Hno;
    rewrite ?Hlog, Hparam; simpl; rewrite Hnone; try reflexivity.
  all: destruct (OsPath.exists_ (fs env) _); try discriminate Hlog.
Qed.

Lemma run_with_parameter_file_witness :
  exists args,
    parsed example_env "-N 10 -o newfolder -p x.param" = Ok args /\
    parse example_env "-N 10 -o newfolder -p x.param" = (Ok args, []).
Proof.
  run_parsed args E. exists args. split; [reflexivity|].
  apply (run_with_parameter_file
           example_env _ args "newfolder" (VStr "x.param") E
           ltac:(lookup_parsed E) ltac:(lookup_parsed E)
           ltac:(lookup_parsed E) ltac:(lookup_parsed E)
           ltac:(discriminate) (or_introl eq_refl)).
Defined.


(** ** What the options hold when the parser returns *)

(** What the action stores satisfies [P]. *)
Definition stores (P : value -> Prop) (a : action) : Prop :=
  match class a with
  | _StoreAction => forall l v, _get_values a l = Ok v -> P v
  | _StoreConstAction c => P c
  | _ => True
  end.

(** The attribute [k], set or not, has [Q]. *)
Definition holds_opt (k : string) (Q : option value -> Prop) (ns : namespace)
  : Prop :=
  Q (ns !! k).

(** A simple parser whose actions on [k] store values with [P] returns
    options whose attribute [k] has [P], when it starts from one. *)
Lemma simple_parser_invariant (p : parser) (k : string)
      (Q : option value -> Prop)
      (l : list string) (ns ns' : namespace) (extras : list string) :
  Forall simple_action (_actions p) ->
  k <> _UNRECOGNIZED_ARGS_ATTR ->
  (forall a, a ∈ _actions p -> dest a = k ->
        stores (fun v => Q (Some v)) a) ->
  holds_opt k Q (fold_left add_default (_actions p) ns) ->
  parse_known_args p l ns = Ok (ns', extras) ->
  holds_opt k Q ns'.
Proof.
  intros Hsimple Hk Hstores Hinit Hparse.
  set (allowed := fun a => a ∈ _actions p).
  assert (Hin : forall a, a ∈ _actions p -> simple_action a)
    by (apply Forall_forall, Hsimple).
  pose proof (parse_known_args_ok p every_exn (holds_opt k Q) allowed
                (fun _ => Logic.I) (fun _ => Logic.I) Logic.I
                (every_type _)) as H.
  assert (Hcall : forall a ns0 l0 v,
             allowed a -> _get_values a l0 = Ok v -> holds_opt k Q ns0 ->
             ok_res every_exn (holds_opt k Q) (call a ns0 v)).
  { intros a ns0 l0 v Ha Hv HQ. unfold call.
    pose proof (Hin a Ha) as (_ & Hclass & _).
    pose proof (Hstores a Ha) as Hst. unfold stores in Hst.
    destruct (class a); try exact Logic.I; try contradiction;
      unfold ok_res, holds_opt, setattr;
      (destruct (String.eqb_spec (dest a) k) as [Heq|Hne];
       [rewrite Heq, lookup_insert_eq; specialize (Hst Heq); eauto
       |rewrite lookup_insert_ne by exact Hne; exact HQ]). }
  specialize (H Hcall).
  specialize (H ltac:(eapply Forall_impl; [exact Hsimple|intros a Ha; apply Ha])
                Logic.I).
  specialize (H ltac:(intros ns0 H0; unfold holds_opt;
                      rewrite lookup_delete_ne by congruence; exact H0)).
  specialize (H l ns Hinit).
  specialize (H ltac:(
    apply Forall_forall; intros a Ha;
    unfold _get_positional_actions in Ha;
    apply list_elem_of_filter in Ha as [_ Ha]; exact Ha)).
  assert (Hletters : forall strings,
             classify p l = Ok strings ->
             Forall (letter_ok allowed) strings).
  { intros strings Hc. apply Forall_forall. intros [s [t| |]] Hs;
      try exact Logic.I.
    destruct (classify_options_part p l strings s t Hc Hs) as [_ Ht].
    destruct t as [[[a|] os] ea]; [|exact Logic.I].
    apply _parse_optional_table, table_elem in Ht as [Ha Hos].
    split; [exact Ha|].
    intros Hz Hshort. destruct (Hin a Ha) as (_ & _ & Hflag).
    eapply Hflag; eassumption. }
  specialize (H Hletters). rewrite Hparse in H. exact H.
Qed.

Lemma add_default_frame (l : list action) (ns : namespace) (k : string)
      (Q : option value -> Prop) :
  Forall (fun a => dest a <> k) l -> holds_opt k Q ns ->
  holds_opt k Q (fold_left add_default l ns).
Proof.
  intros Hl. revert ns. induction Hl as [|a l Ha _ IH]; intros ns Hns;
    [exact Hns|].
  simpl. apply IH. unfold holds_opt, add_default.
  destruct (String.eqb (dest a) SUPPRESS); [exact Hns|].
  destruct (hasattr ns (dest a)); [exact Hns|].
  destruct (default a) as [| | | |d|]; unfold setattr;
    try (rewrite lookup_insert_ne by exact Ha; exact Hns).
  destruct (String.eqb d SUPPRESS); [exact Hns|].
  rewrite lookup_insert_ne by exact Ha. exact Hns.
Qed.

(** The same for the [run] parser of an installation whose sampler
    modules leave [k] alone. *)
Lemma run_parser_invariant (env : environment) (k : string)
      (Q : option value -> Prop) (l : list string) (ns' : namespace)
      (extras : list string) :
  run_arguments env MpArgumentParser = Ok (run_parser env) ->
  keeps env k -> k <> _UNRECOGNIZED_ARGS_ATTR ->
  (forall a, a ∈ _actions (runparser_base env) -> dest a = k ->
        stores (fun v => Q (Some v)) a) ->
  holds_opt k Q (fold_left add_default (_actions (runparser_base env))
                           (namespace_of "run")) ->
  parse_known_args (run_parser env) l (namespace_of "run")
  = Ok (ns', extras) ->
  holds_opt k Q ns'.
Proof.
  intros Hrun Hkeeps Hk Hstores Hinit.
  apply run_arguments_shape in Hrun
      as (_ & _ & Hsimple & more & Hact & Hmore).
  apply simple_parser_invariant; try assumption.
  - intros a Ha Hdest. rewrite Hact in Ha.
    apply elem_of_app in Ha as [Ha|Ha]; [apply Hstores; assumption|].
    exfalso. rewrite Forall_forall in Hmore.
    exact (Hmore a Ha k Hkeeps Hdest).
  - rewrite Hact, fold_left_app. apply add_default_frame; [|exact Hinit].
    eapply Forall_impl; [exact Hmore|]. intros a Ha. apply Ha, Hkeeps.
Qed.

(** What an option with one argument stores: the value of its argument, or
    a list (the empty one, for the argument ["--"]). *)
Lemma _get_values_one (a : action) (l : list string) (v : value) :
  a_nargs a = NargsNone -> _get_values a l = Ok v ->
  (exists s, _get_value a s = Ok v /\ _check_value a v = Ok tt)
  \/ exists vs, v = VList vs.
Proof.
  intros Hnargs. unfold _get_values. rewrite Hnargs.
  destruct (Py.remove_first "--" l) as [|s [|s' l']].
  - cbn [Py.mapM Py.bind]. intros [= <-]. right. eexists. reflexivity.
  - destruct (_get_value a s) as [v0|] eqn:Hv0; [|discriminate].
    cbn [Py.bind]. destruct (_check_value a v0) as [[]|] eqn:Hc;
      [|discriminate].
    cbn [Py.bind]. intros [= <-]. left. exists s. split; assumption.
  - destruct (Py.mapM (_get_value a) (s :: s' :: l')) as [vs|];
      [|discriminate].
    cbn [Py.bind]. destruct (Py.mapM (_check_value a) vs); [|discriminate].
    cbn [Py.bind]. intros [= <-]. right. eexists. reflexivity.
Qed.

(** An action of the [run] parser without sampler modules, by cases. *)
Ltac base_action Ha Hdest :=
  repeat (apply elem_of_cons in Ha as [->|Ha];
          [try (exfalso; vm_compute in Hdest; discriminate Hdest)|]);
  try (inversion Ha; fail).

Lemma positive_int_Ok (s : string) (n : Z) :
  positive_int s = Ok n -> Py.int s = Ok n /\ (0 < n)%Z.
Proof.
  unfold positive_int. destruct (Py.int s) as [z|e]; cbn [Py.bind].
  - destruct (Z.leb_spec z 0); [discriminate|].
    intros [= <-]. split; [reflexivity|assumption].
  - destruct e; discriminate.
Qed.

Lemma existing_file_Ok (env : environment) (fname f : string) :
  existing_file env fname = Ok f ->
  f = fname /\ OsPath.isfile (fs env) fname = true.
Proof.
  unfold existing_file. destruct (OsPath.isfile (fs env) fname);
    [|discriminate].
  intros [= <-]. split; reflexivity.
Qed.

(** The value that a type function of this module lets through. *)
Lemma _get_value_of_int (a : action) (f : string -> result Z) (s : string)
      (v : value) :
  type a = Some (of_int f) -> _get_value a s = Ok v ->
  exists z, f s = Ok z /\ v = VInt z.
Proof.
  intros Htype. unfold _get_value. rewrite Htype. unfold of_int.
  destruct (f s) as [z|e]; cbn [Py.bind].
  - intros [= <-]. exists z. split; reflexivity.
  - destruct e; discriminate.
Qed.

Lemma _get_value_of_str (a : action) (f : string -> result string)
      (s : string) (v : value) :
  type a = Some (of_str f) -> _get_value a s = Ok v ->
  exists x, f s = Ok x /\ v = VStr x.
Proof.
  intros Htype. unfold _get_value. rewrite Htype. unfold of_str.
  destruct (f s) as [x|e]; cbn [Py.bind].
  - intros [= <-]. exists x. split; reflexivity.
  - destruct e; discriminate.
Qed.

Lemma stores_positive (env : environment) (a : action) :
  a ∈ _actions (runparser_base env) -> dest a = "N" ->
  stores (fun v => forall n, Some v = Some (VInt n) -> (0 < n)%Z) a.
Proof.
  intros Ha Hdest. base_action Ha Hdest.
  intros l v Hv n [= ->].
  apply _get_values_one in Hv as [(s & Hs & _)|[vs [= ]]]; [|reflexivity].
  apply (_get_value_of_int _ positive_int) in Hs as (z & Hz & [= <-]);
    [|reflexivity].
  apply positive_int_Ok in Hz. apply Hz.
Qed.

Lemma stores_existing_file (env : environment) (k : string) (a : action) :
  k ∈ ["param"; "cov"; "restart"; "bf"] ->
  a ∈ _actions (runparser_base env) -> dest a = k ->
  stores (fun v => forall f, Some v = Some (VStr f) ->
                  OsPath.isfile (fs env) f = true) a.
Proof.
  intros Hk Ha Hdest.
  repeat (apply elem_of_cons in Hk as [->|Hk]); [| | | |inversion Hk].
  all: base_action Ha Hdest.
  all: intros l v Hv f [= ->].
  all: apply _get_values_one in Hv as [(s & Hs & _)|[vs [= ]]]; [|reflexivity].
  all: apply (_get_value_of_str _ (existing_file env)) in Hs
      as (x & Hx & [= <-]); [|reflexivity].
  all: apply existing_file_Ok in Hx as [-> Hx]; exact Hx.
Qed.


(** What holds of an attribute when [argparse] returns: it holds of the
    defaults and of what the actions of both sub-commands store. *)
Lemma parsed_invariant (env : environment) (cmd : string) (pa : namespace)
      (k : string) (Q : option value -> Prop) :
  k <> _UNRECOGNIZED_ARGS_ATTR -> keeps env k ->
  (forall a, a ∈ _actions (runparser_base env) -> dest a = k ->
        stores (fun v => Q (Some v)) a) ->
  (forall a, a ∈ _actions infoparser -> dest a = k ->
        stores (fun v => Q (Some v)) a) ->
  Q (fold_left add_default (_actions (runparser_base env))
               (namespace_of "run") !! k) ->
  Q (fold_left add_default (_actions infoparser) (namespace_of "info") !! k) ->
  parsed env cmd = Ok pa -> Q (pa !! k).
Proof.
  intros Hk Hkeeps Hrun_stores Hinfo_stores Hrun_init Hinfo_init Hp.
  apply parsed_Ok in Hp
      as (runparser & name & rest & sub & ns' & Hrun & _ & Hsub & Hparse & Hpa).
  rewrite Hpa by exact Hk.
  destruct Hsub as [[-> ->]|[-> ->]].
  - assert (Heq : run_parser env = runparser)
      by (unfold run_parser; rewrite Hrun; reflexivity).
    rewrite <- Heq in Hrun, Hparse.
    exact (run_parser_invariant env k Q rest ns' [] Hrun Hkeeps Hk
             Hrun_stores Hrun_init Hparse).
  - exact (simple_parser_invariant infoparser k Q rest _ ns' []
             infoparser_simple Hk Hinfo_stores Hinfo_init Hparse).
Qed.

(** No action of the parser writes the attribute. *)
Ltac no_action Ha Hdest :=
  exfalso;
  repeat (apply elem_of_cons in Ha as [->|Ha];
          [vm_compute in Hdest; discriminate Hdest|]);
  inversion Ha.

(** X8: the step count is never zero or negative.  When [parse] returns
    (and no flag of a sampler module writes [N]), an integer [N] is
    positive. *)
Theorem step_count_is_positive
        (env : environment) (cmd : string) (args : namespace)
        (ws : list warning) (n : Z) :
  keeps env "N" ->
  parse env cmd = (Ok args, ws) ->
  args !! "N" = Some (VInt n) -> (0 < n)%Z.
Proof.
  intros Hkeeps Hparse.
  apply parse_Ok_parsed in Hparse as (pa & Hp & Hargs).
  rewrite Hargs by discriminate.
  revert n.
  apply (parsed_invariant env cmd pa "N"
           (fun o => forall n, o = Some (VInt n) -> (0 < n)%Z));
    try assumption.
  - discriminate.
  - apply stores_positive.
  - intros a Ha Hdest. no_action Ha Hdest.
  - vm_compute. discriminate.
  - vm_compute. discriminate.
Qed.

Lemma step_count_is_positive_witness :
  exists args ws n,
    parse example_env_sampler "-N 10 -o out -p x.param" = (Ok args, ws) /\
    args !! "N" = Some (VInt n) /\ (0 < n)%Z.
Proof.
  assert (Hkeeps : keeps example_env_sampler "N").
  { unfold keeps. intros H. vm_compute in H.
    repeat (apply elem_of_cons in H as [H|H]; [discriminate H|]).
    inversion H. }
  run_parse args ws E. exists args, ws, 10%Z. split; [reflexivity|].
  assert (HN : args !! "N" = Some (VInt 10)) by lookup_parse E.
  split; [exact HN|].
  exact (step_count_is_positive example_env_sampler _ args ws 10 Hkeeps E HN).
Defined.

(** X9: the files of the options exist.  When [parse] returns (and no flag
    of a sampler module writes the attribute), a string in [cov], [restart]
    or [bf] is the path of an existing file. *)
Theorem file_options_exist
        (env : environment) (cmd : string) (args : namespace)
        (ws : list warning) (k f : string) :
  k ∈ ["cov"; "restart"; "bf"] ->
  keeps env k ->
  parse env cmd = (Ok args, ws) ->
  args !! k = Some (VStr f) -> OsPath.isfile (fs env) f = true.
Proof.
  intros Hk Hkeeps Hparse.
  apply parse_Ok_parsed in Hparse as (pa & Hp & Hargs).
  assert (Hlist : k ∈ ["param"; "cov"; "restart"; "bf"]) by (right; exact Hk).
  rewrite Hargs
    by (repeat (apply elem_of_cons in Hk as [->|Hk]); try discriminate;
        inversion Hk).
  revert f.
  apply (parsed_invariant env cmd pa k
           (fun o => forall f, o = Some (VStr f) ->
                     OsPath.isfile (fs env) f = true));
    try assumption.
  - repeat (apply elem_of_cons in Hk as [->|Hk]); try discriminate.
    inversion Hk.
  - intros a. apply stores_existing_file, Hlist.
  - intros a Ha Hdest.
    repeat (apply elem_of_cons in Hk as [->|Hk]); [| | |inversion Hk];
      no_action Ha Hdest.
  - repeat (apply elem_of_cons in Hk as [->|Hk]); [| | |inversion Hk];
      vm_compute; discriminate.
  - repeat (apply elem_of_cons in Hk as [->|Hk]); [| | |inversion Hk];
      vm_compute; discriminate.
Qed.

Lemma file_options_exist_witness :
  exists args ws,
    parse example_env "-N 10 -o out -c x.param" = (Ok args, ws) /\
    args !! "cov" = Some (VStr "x.param") /\
    OsPath.isfile (fs example_env) "x.param" = true.
Proof.
  run_parse args ws E. exists args, ws. split; [reflexivity|].
  assert (Hcov : args !! "cov" = Some (VStr "x.param")) by lookup_parse E.
  split; [exact Hcov|].
  refine (file_options_exist example_env _ args ws "cov" "x.param"
            _ _ E Hcov).
  - left.
  - unfold keeps. simpl. apply not_elem_of_nil.
Defined.

Lemma isfile_exists (fs : OsPath.filesystem) (path : string) :
  OsPath.isfile fs path = true -> OsPath.exists_ fs path = true.
Proof.
  unfold OsPath.isfile, OsPath.exists_. destruct (fs path) as [[]|];
    try discriminate; reflexivity.
Qed.

(** X10: the parameter file of a run that does not restart is on disk.
    When [parse] returns options without a chain file to restart from (and
    no flag of a sampler module writes [param]), a string in [param] is a
    path that exists: the [log.param] of the folder, or the file given by
    [-p]. *)
Theorem parameter_file_exists
        (env : environment) (cmd : string) (args : namespace)
        (ws : list warning) (param : string) :
  keeps env "param" ->
  parse env cmd = (Ok args, ws) ->
  args !! "restart" = Some VNone ->
  args !! "param" = Some (VStr param) ->
  OsPath.exists_ (fs env) param = true.
Proof.
  intros Hkeeps Hparse.
  destruct (parse_Ok_parsed env cmd args ws Hparse) as (pa & Hp & _).
  assert (Hinv : forall f, pa !! "param" = Some (VStr f) ->
                      OsPath.isfile (fs env) f = true).
  { apply (parsed_invariant env cmd pa "param"
             (fun o => forall f, o = Some (VStr f) ->
                       OsPath.isfile (fs env) f = true));
      try assumption.
    - discriminate.
    - intros a. apply stores_existing_file. left.
    - intros a Ha Hdest. no_action Ha Hdest.
    - vm_compute. discriminate.
    - vm_compute. discriminate. }
  revert Hparse. start_parse Hp; unfold getattr.
  all: destruct (pa !! "subparser_name") as [name|]; [|discriminate]; simpl.
  all: destruct (eq_str name "run");
    [|intros [= <- _] _ Hparam; apply isfile_exists, Hinv, Hparam].
  all: destruct (pa !! "restart") as [restart|] eqn:Hrestart;
    [|discriminate]; simpl.
  all: destruct (is_None restart) eqn:Hnone; simpl.
  all: try (destruct restart; try discriminate; simpl; intros [= <- _];
            unfold setattr; rewrite !lookup_insert_ne by discriminate;
            rewrite Hrestart; discriminate).
  all: destruct (pa !! "folder") as [folder|]; [|discriminate]; simpl.
  all: destruct (is_None folder); [discriminate|].
  all: destruct folder as [| | | |folder|]; try discriminate; simpl.
  all: destruct (OsPath.isdir (fs env) folder).
  all: try destruct (OsPath.exists_ (fs env) (OsPath.join folder "log.param"))
    eqn:Hlog.
  all: destruct (pa !! "param") as [old|] eqn:Hold; [|discriminate]; simpl.
  all: destruct old; try discriminate; simpl; intros [= <- _] _;
    unfold setattr; rewrite ?lookup_insert_eq.
  all: try (intros [= <-]; exact Hlog).
  all: rewrite Hold; intros [= <-]; apply isfile_exists, Hinv; reflexivity.
Qed.

Lemma parameter_file_exists_witness :
  exists args ws,
    parse example_env "-N 10 -o out -p x.param" = (Ok args, ws) /\
    args !! "param" = Some (VStr "out/log.param") /\
    OsPath.exists_ (fs example_env) "out/log.param" = true.
Proof.
  run_parse args ws E. exists args, ws. split; [reflexivity|].
  assert (Hparam : args !! "param" = Some (VStr "out/log.param"))
    by lookup_parse E.
  split; [exact Hparam|].
  refine (parameter_file_exists example_env _ args ws "out/log.param"
            _ E _ Hparam).
  - unfold keeps. simpl. apply not_elem_of_nil.
  - lookup_parse E.
Defined.

(** The options that take one of a set of values, with the set. *)
Definition choice_options : list (string * list string) :=
  [("jumping", ["global"; "sequential"; "fast"]);
   ("method", ["MH"; "NS"; "CH"; "IS"; "Der"]);
   ("legend_style", ["sides"; "top"])].

Lemma stores_choice (a : action) (cs : list string) :
  a_nargs a = NargsNone -> class a = _StoreAction -> choices a = Some cs ->
  stores (fun v => forall s, Some v = Some (VStr s) -> s ∈ cs) a.
Proof.
  intros Hnargs Hclass Hchoices. unfold stores. rewrite Hclass.
  intros l v Hv s [= ->].
  apply _get_values_one in Hv as [(s' & _ & Hc)|[vs [= ]]]; [|exact Hnargs].
  unfold _check_value in Hc. rewrite Hchoices in Hc.
  case_bool_decide as Hin; [exact Hin|discriminate Hc].
Qed.

(** X11: the choices are respected.  When [parse] returns (and no flag of
    a sampler module writes the attribute), a string in [jumping], [method]
    or [legend_style] is one of the values declared for it. *)
Theorem choices_are_respected
        (env : environment) (cmd : string) (args : namespace)
        (ws : list warning) (k : string) (cs : list string) (s : string) :
  (k, cs) ∈ choice_options ->
  keeps env k ->
  parse env cmd = (Ok args, ws) ->
  args !! k = Some (VStr s) -> s ∈ cs.
Proof.
  intros Hk Hkeeps Hparse.
  apply parse_Ok_parsed in Hparse as (pa & Hp & Hargs).
  unfold choice_options in Hk.
  repeat (apply elem_of_cons in Hk as [[= -> ->]|Hk]); [| | |inversion Hk].
  all: rewrite Hargs by discriminate; revert s.
  all: match goal with
       | |- forall s, ?m !! ?k = _ -> s ∈ ?cs =>
           apply (parsed_invariant env cmd m k
                    (fun o => forall s, o = Some (VStr s) -> s ∈ cs));
             [discriminate|exact Hkeeps| | | | |exact Hp]
       end.
  all: try (intros a Ha Hdest;
            repeat (apply elem_of_cons in Ha as [->|Ha];
                    [try (exfalso; vm_compute in Hdest; discriminate Hdest)|]);
            try (inversion Ha; fail);
            apply stores_choice; reflexivity).
  all: match goal with
       | |- forall s, fold_left _ _ _ !! _ = _ -> _ =>
           vm_compute; intros s [= <-]; set_solver
       end.
Qed.

Lemma choices_are_respected_witness :
  exists args ws,
    parse example_env "-N 10 -o out -j fast" = (Ok args, ws) /\
    args !! "jumping" = Some (VStr "fast") /\
    "fast" ∈ ["global"; "sequential"; "fast"].
Proof.
  run_parse args ws E. exists args, ws. split; [reflexivity|].
  assert (Hj : args !! "jumping" = Some (VStr "fast")) by lookup_parse E.
  split; [exact Hj|].
  refine (choices_are_respected example_env _ args ws "jumping" _ "fast"
            _ _ E Hj).
  - left.
  - unfold keeps. simpl. apply not_elem_of_nil.
Defined.


(** ** Defaults *)

(** The options of [run] with their defaults, but for [N], [folder] and
    [param]. *)
Definition run_defaults : list (string * value) :=
  [("cov", VNone); ("jumping", VStr "global"); ("method", VStr "MH");
   ("jumping_factor", VFloat "2.4"); ("config_file", VStr "default.conf");
   ("chain_number", VNone); ("restart", VNone); ("bf", VNone);
   ("silent", VBool false); ("Der_target_folder", VStr "");
   ("derived_parameters", VStr ""); ("IS_starting_folder", VStr "")].

(** The options of [info] with their defaults, but for [files] and the
    three that a flag switches off. *)
Definition info_defaults : list (string * value) :=
  [("bins", VInt 20); ("optional_plot_file", VStr "");
   ("contours_only", VBool false); ("subplot", VBool false);
   ("extension", VStr "pdf"); ("fontsize", VInt 16); ("ticksize", VInt 14);
   ("line_width", VInt 4); ("decimal", VInt 3); ("ticknumber", VInt 3);
   ("legend_style", VStr "sides")].

(** X12: an option of [run] that the command line does not give has its
    default.  For a [run] command line in which no string in front of
    ["--"] is read as an option for the attribute, [parse] returns the
    default: [global] for [jumping], [MH] for [method], 2.4 for
    [jumping_factor], [default.conf] for [config_file], [False] for
    [silent], the empty string for the three options of [Der] and [IS],
    [None] for [cov], [chain_number], [restart] and [bf]. *)
Theorem run_options_default
        (env : environment) (cmd : string) (rest : list string)
        (args : namespace) (ws : list warning) (k : string) (v : value) :
  (k, v) ∈ run_defaults ->
  set_default_subparser env "run" (tokens_of cmd) = Ok ("run" :: rest) ->
  existsb (reads_as (run_parser env) k) (options_part rest) = false ->
  parse env cmd = (Ok args, ws) ->
  args !! k = Some v.
Proof.
  intros Hk Hset Hno Hparse.
  destruct (parse_run env cmd rest args ws Hset Hparse)
    as (ns' & Hrun & Hsub & Hargs).
  apply run_arguments_shape in Hrun
      as (_ & Hpos & Hsimple & extras & Hact & _).
  assert (Hfacts :
            k <> "folder" /\ k <> "param" /\ k <> _UNRECOGNIZED_ARGS_ATTR /\
            fold_left add_default (_actions (runparser_base env))
                      (namespace_of "run") !! k = Some v).
  { unfold run_defaults in Hk.
    repeat (apply elem_of_cons in Hk as [[= -> ->]|Hk];
            [repeat split; try discriminate; vm_compute; reflexivity|]).
    inversion Hk. }
  destruct Hfacts as (H1 & H2 & H3 & Hinit).
  rewrite Hargs by assumption.
  eapply (simple_parser_default (run_parser env)); try eassumption.
  - eapply existsb_false_Forall; [|exact Hno].
    intros s Hs. apply bool_decide_eq_false in Hs. exact Hs.
  - rewrite Hpos. constructor.
  - rewrite Hact, fold_left_app. apply add_default_keep, Hinit.
Qed.

Lemma run_options_default_witness :
  exists args ws,
    parse example_env_sampler "-N 10 -o newfolder -p x.param -j fast"
    = (Ok args, ws) /\
    args !! "method" = Some (VStr "MH") /\
    args !! "jumping_factor" = Some (VFloat "2.4").
Proof.
  run_parse args ws E. exists args, ws. split; [reflexivity|].
  assert (Hset : set_default_subparser
                   example_env_sampler "run"
                   (tokens_of "-N 10 -o newfolder -p x.param -j fast")
                 = Ok ["run"; "-N"; "10"; "-o"; "newfolder"; "-p"; "x.param";
                       "-j"; "fast"])
    by (vm_compute; reflexivity).
  split.
  - refine (run_options_default example_env_sampler _ _ args ws
              "method" (VStr "MH") _ Hset _ E).
    + unfold run_defaults.
      repeat first [left|right].
    + vm_compute. reflexivity.
  - refine (run_options_default example_env_sampler _ _ args ws
              "jumping_factor" (VFloat "2.4") _ Hset _ E).
    + unfold run_defaults.
      repeat first [left|right].
    + vm_compute. reflexivity.
Defined.

(** X13: an option of [info] that the command line does not give has its
    default: 20 bins, no extra plot file, filled contours, one file for all
    subplots, [pdf], font size 16, tick size 14, line width 4, 3 decimal
    places, 3 ticks, the legend on the sides. *)
Theorem info_options_default
        (env : environment) (cmd : string) (rest : list string)
        (args : namespace) (ws : list warning) (k : string) (v : value) :
  (k, v) ∈ info_defaults ->
  set_default_subparser env "run" (tokens_of cmd) = Ok ("info" :: rest) ->
  existsb (reads_as infoparser k) (options_part rest) = false ->
  parse env cmd = (Ok args, ws) ->
  args !! k = Some v.
Proof.
  intros Hk Hset Hno Hparse.
  destruct (parse_info env cmd rest args ws Hset Hparse)
    as (ns' & Hsub & Hargs).
  assert (Hfacts :
            k <> "folder" /\ k <> "param" /\ k <> _UNRECOGNIZED_ARGS_ATTR /\
            forallb (fun a => negb (String.eqb (dest a) k))
                    (_get_positional_actions infoparser) = true /\
            fold_left add_default (_actions infoparser) (namespace_of "info")
              !! k = Some v).
  { unfold info_defaults in Hk.
    repeat (apply elem_of_cons in Hk as [[= -> ->]|Hk];
            [repeat split; try discriminate; vm_compute; reflexivity|]).
    inversion Hk. }
  destruct Hfacts as (H1 & H2 & H3 & Hpos & Hinit).
  rewrite Hargs by assumption.
  eapply (simple_parser_default infoparser); try eassumption.
  - apply infoparser_simple.
  - eapply existsb_false_Forall; [|exact Hno].
    intros s Hs. apply bool_decide_eq_false in Hs. exact Hs.
  - apply dest_not, Hpos.
Qed.

Lemma info_options_default_witness :
  exists args ws,
    parse example_env "info out --bins 10" = (Ok args, ws) /\
    args !! "fontsize" = Some (VInt 16) /\
    args !! "extension" = Some (VStr "pdf").
Proof.
  run_parse args ws E. exists args, ws. split; [reflexivity|].
  assert (Hset : set_default_subparser
                   example_env "run" (tokens_of "info out --bins 10")
                 = Ok ["info"; "out"; "--bins"; "10"])
    by (vm_compute; reflexivity).
  split.
  - refine (info_options_default example_env _ _ args ws
              "fontsize" (VInt 16) _ Hset _ E).
    + unfold info_defaults.
      repeat first [left|right].
    + vm_compute. reflexivity.
  - refine (info_options_default example_env _ _ args ws
              "extension" (VStr "pdf") _ Hset _ E).
    + unfold info_defaults.
      repeat first [left|right].
    + vm_compute. reflexivity.
Defined.

(** The flags of [info] that switch something on, with the attribute each
    one writes. *)
Definition enable_flags : list (string * string) :=
  [("--contours-only", "contours_only"); ("--all", "subplot")].

(** X14: the flags [--contours-only] and [--all] of [info] set
    [contours_only] and [subplot] to [True]: when the flag is among the
    strings in front of ["--"], or one of them is read as the flag. *)
Theorem info_enable_flags
        (env : environment) (cmd : string) (rest : list string)
        (args : namespace) (ws : list warning) (flag k : string) :
  (flag, k) ∈ enable_flags ->
  set_default_subparser env "run" (tokens_of cmd) = Ok ("info" :: rest) ->
  parse env cmd = (Ok args, ws) ->
  flag ∈ options_part rest
  \/ existsb (reads_as infoparser k) (options_part rest) = true ->
  args !! k = Some (VBool true).
Proof.
  intros Hflag Hset Hparse Hthere.
  destruct (parse_info env cmd rest args ws Hset Hparse) as (ns' & Hsub & Hk).
  assert (Hfacts :
            reads_as infoparser k flag = true /\
            k <> "folder" /\ k <> "param" /\ k <> _UNRECOGNIZED_ARGS_ATTR /\
            forallb (const_flagb k (VBool true)) (_actions infoparser) = true).
  { unfold enable_flags in Hflag.
    repeat (apply elem_of_cons in Hflag as [[= -> ->]|Hflag];
            [repeat split; try discriminate; vm_compute; reflexivity|]).
    inversion Hflag. }
  destruct Hfacts as (Hreads & H1 & H2 & H3 & Hconst).
  rewrite Hk by assumption.
  assert (Hex : existsb (reads_as infoparser k) (options_part rest) = true).
  { destruct Hthere as [Hin|Hex]; [|exact Hex].
    eapply elem_of_existsb; eassumption. }
  eapply (simple_parser_sets infoparser); try eassumption.
  - apply infoparser_simple.
  - apply const_flags, Hconst.
  - eapply existsb_true_Exists; [|exact Hex].
    intros s Hs. apply bool_decide_eq_true in Hs. exact Hs.
Qed.

Lemma info_enable_flags_witness :
  exists args ws,
    parse example_env "info out --all --contours" = (Ok args, ws) /\
    args !! "subplot" = Some (VBool true) /\
    args !! "contours_only" = Some (VBool true).
Proof.
  run_parse args ws E. exists args, ws. split; [reflexivity|].
  assert (Hset : set_default_subparser
                   example_env "run" (tokens_of "info out --all --contours")
                 = Ok ["info"; "out"; "--all"; "--contours"])
    by (vm_compute; reflexivity).
  split.
  - refine (info_enable_flags example_env _ _ args ws "--all" "subplot"
              _ Hset E _).
    + right. left.
    + left. right. left.
  - refine (info_enable_flags example_env _ _ args ws
              "--contours-only" "contours_only" _ Hset E _).
    + left.
    + right. vm_compute. reflexivity.
Defined.


(** ** Help and version *)





(** ** The exceptions of [parse] *)

(** The exceptions that come out of [parse]. *)
Definition parse_exception (e : exn) : Prop :=
  (exists m, e = ConfigurationError m) \/ e = SystemExit 0 \/ e = IndexError
  \/ e = IOError \/ e = TypeError \/ e = AttributeError.

(** The same, inside the loop of a parser: [ArgumentError] is still on its
    way to the [error] method. *)
Definition loop_exception (e : exn) : Prop :=
  parse_exception e \/ exists err, e = ArgumentError err.

(** The type functions that the flags of the module use. *)
Definition known_type (env : environment) (a : action) : Prop :=
  type a = None \/ type a = Some str \/ type a = Some int
  \/ type a = Some (float env) \/ type a = Some (of_int positive_int)
  \/ type a = Some (of_str (existing_file env)).

Lemma positive_int_refuses_or_returns (s : string) :
  (exists z, positive_int s = Ok z)
  \/ exists m, positive_int s = Raise (ArgumentTypeError m).
Proof.
  unfold positive_int. destruct (Py.int s) as [z|e] eqn:Hint.
  - cbn [Py.bind]. destruct (z <=? 0)%Z; [right|left]; eexists; reflexivity.
  - apply int_raises in Hint as ->. right. eexists. reflexivity.
Qed.

Lemma known_type_raises (env : environment) :
  forall (a : action) (f : string -> result value) (s : string) (e : exn),
    known_type env a -> type a = Some f -> f s = Raise e ->
    loop_exception e \/ (exists m, e = ArgumentTypeError m) \/ e = TypeError
    \/ e = ValueError.
Proof.
  intros a f s e Hknown Htype Hf. unfold known_type in Hknown.
  rewrite Htype in Hknown.
  destruct Hknown as [[= ]|[[= ->]|[[= ->]|[[= ->]|[[= ->]|[= ->]]]]]].
  - discriminate Hf.
  - unfold int, of_int in Hf. destruct (Py.int s) as [z|e'] eqn:Hint;
      [discriminate Hf|].
    injection Hf as <-. apply int_raises in Hint as ->. auto.
  - unfold float in Hf. destruct (float_accepts env s); [discriminate Hf|].
    injection Hf as <-. auto.
  - unfold of_int in Hf. destruct (positive_int_refuses_or_returns s)
      as [[z Hz]|[m Hm]]; rewrite ?Hz, ?Hm in Hf; [discriminate Hf|].
    injection Hf as <-. right. left. eexists. reflexivity.
  - unfold of_str, existing_file in Hf.
    destruct (OsPath.isfile (fs env) s); [discriminate Hf|].
    injection Hf as <-. right. left. eexists. reflexivity.
Qed.

(** [parse_known_args] hands an [ArgumentError] of its loop to the [error]
    method. *)
Lemma parse_known_args_converts (p : parser) (allowed : action -> Prop)
      (l : list string) (ns : namespace) :
  (forall err, parse_exception (error p err)) ->
  (forall (a : action) (f : string -> result value) (s : string) (e : exn),
      allowed a -> type a = Some f -> f s = Raise e ->
      loop_exception e \/ (exists m, e = ArgumentTypeError m) \/ e = TypeError
      \/ e = ValueError) ->
  (forall a ns0 l0 v,
      allowed a -> _get_values a l0 = Ok v -> True ->
      ok_res loop_exception (fun _ => True) (call a ns0 v)) ->
  Forall plain_default (_actions p) ->
  (forall a, a ∈ _actions p -> allowed a) ->
  (forall a, a ∈ _actions p -> a_nargs a = NargsZero ->
        forall os, os ∈ option_strings a -> second_is_dash os = false ->
              never_returns a) ->
  ok_res parse_exception (fun _ => True) (parse_known_args p l ns).
Proof.
  intros Herror Htype Hcall Hdefaults Hall Hflag.
  assert (Hloop : ok_res loop_exception (fun r => True)
                         (_parse_known_args
                            p l (fold_left add_default (_actions p) ns))).
  { apply (_parse_known_args_ok p loop_exception (fun _ => True) allowed).
    - intros e. right. eexists. reflexivity.
    - intros err. left. apply Herror.
    - left. unfold parse_exception. auto.
    - exact Htype.
    - exact Hcall.
    - exact Hdefaults.
    - exact Logic.I.
    - apply Forall_forall. intros a Ha. apply Hall.
      unfold _get_positional_actions in Ha.
      apply list_elem_of_filter in Ha as [_ Ha]. exact Ha.
    - intros strings Hc. apply Forall_forall. intros [s [t| |]] Hs;
        try exact Logic.I.
      destruct (classify_options_part p l strings s t Hc Hs) as [_ Ht].
      destruct t as [[[a|] os] ea]; [|exact Logic.I].
      apply _parse_optional_table, table_elem in Ht as [Ha Hos].
      split; [apply Hall, Ha|].
      intros Hz Hshort. eapply Hflag; eassumption. }
  unfold parse_known_args.
  destruct (_parse_known_args p l _) as [[ns' args]|e].
  - destruct (ns' !! _UNRECOGNIZED_ARGS_ATTR) as [v|]; [|exact Logic.I].
    eapply ok_res_bind with (I := fun _ => True); [|intros; exact Logic.I].
    destruct v; try (unfold parse_exception; simpl; auto 10; fail).
    apply ok_res_mapM. intros [| | | | |]; simpl; try exact Logic.I;
      unfold parse_exception; auto 10.
  - simpl in Hloop. destruct Hloop as [He|[err ->]]; [|apply Herror].
    destruct e; try exact He. apply Herror.
Qed.

Lemma configuration_error_parse_exception (err : argument_error) :
  parse_exception (MpArgumentParser_error err).
Proof. left. eexists. reflexivity. Qed.

(** The actions of the [info] parser and of the [run] parser without
    sampler modules use the type functions of the module. *)
Lemma infoparser_known_types (env : environment) (a : action) :
  a ∈ _actions infoparser -> known_type env a.
Proof.
  intros Ha. unfold known_type.
  repeat (apply elem_of_cons in Ha as [->|Ha];
          [first [left; reflexivity
                 |right; left; reflexivity
                 |right; right; left; reflexivity]|]).
  inversion Ha.
Qed.

Lemma runparser_base_known_types (env : environment) (a : action) :
  a ∈ _actions (runparser_base env) -> known_type env a.
Proof.
  intros Ha. unfold known_type.
  repeat (apply elem_of_cons in Ha as [->|Ha];
          [first [left; reflexivity
                 |right; left; reflexivity
                 |right; right; left; reflexivity
                 |right; right; right; left; reflexivity
                 |right; right; right; right; left; reflexivity
                 |right; right; right; right; right; reflexivity]|]).
  inversion Ha.
Qed.

Lemma simple_parser_exceptions (env : environment) (p : parser)
      (l : list string) (ns : namespace) :
  Forall simple_action (_actions p) ->
  (forall a, a ∈ _actions p -> known_type env a) ->
  error p = MpArgumentParser_error ->
  ok_res parse_exception (fun _ => True) (parse_known_args p l ns).
Proof.
  intros Hsimple Hknown Herror.
  assert (Hin : forall a, a ∈ _actions p -> simple_action a)
    by (apply Forall_forall, Hsimple).
  apply (parse_known_args_converts
           p (fun a => simple_action a /\ known_type env a)).
  - intros err. rewrite Herror. apply configuration_error_parse_exception.
  - intros a f s e [_ Ha]. apply (known_type_raises env), Ha.
  - intros a ns0 l0 v [(_ & Hclass & _) _] _ _. unfold call.
    destruct (class a); try exact Logic.I; try contradiction;
      left; unfold parse_exception; auto.
  - eapply Forall_impl; [exact Hsimple|]. intros a Ha. apply Ha.
  - intros a Ha. split; [apply Hin, Ha|apply Hknown, Ha].
  - intros a Ha. apply (Hin a Ha).
Qed.

Lemma call_subcommand_exceptions (env : environment) (runparser : parser)
      (ns : namespace) (v : value) :
  Forall simple_action (_actions runparser) ->
  (forall a, a ∈ _actions runparser -> known_type env a) ->
  error runparser = MpArgumentParser_error ->
  ok_res loop_exception (fun _ => True) (call (subcommand runparser) ns v).
Proof.
  intros Hsimple Hknown Herror. unfold call, subcommand. cbn [class dest].
  assert (Htype_error : loop_exception TypeError)
    by (left; unfold parse_exception; auto 10).
  destruct v as [| | | | |[|[| | | |name|] vs]]; try exact Htype_error.
  destruct (Py.mapM str_of vs) as [arg_strings|e] eqn:Hargs.
  2: { assert (H : ok_res loop_exception (fun _ => True)
                          (Py.mapM str_of vs)).
       { apply ok_res_mapM. intros [| | | | |]; simpl; try exact Logic.I;
           exact Htype_error. }
       rewrite Hargs in H. exact H. }
  cbn [Py.bind]. change (String.eqb "subparser_name" SUPPRESS) with false.
  cbv iota. cbn [assoc map].
  assert (Hsub : forall p,
             Forall simple_action (_actions p) ->
             (forall a, a ∈ _actions p -> known_type env a) ->
             error p = MpArgumentParser_error ->
             ok_res loop_exception (fun _ => True)
               (r <- parse_known_args p arg_strings
                       (setattr ns "subparser_name" (VStr name)) ;;
                let '(ns0, arg_strings0) := r in
                match arg_strings0 with
                | [] => Ok ns0
                | _ :: _ =>
                    Ok (setattr ns0 _UNRECOGNIZED_ARGS_ATTR
                          (VList (match ns0 !! _UNRECOGNIZED_ARGS_ATTR with
                                  | Some (VList l) => l
                                  | _ => []
                                  end ++ map VStr arg_strings0)%list))
                end)).
  { intros p Hp Hk He. eapply ok_res_bind with (I := fun _ => True).
    - pose proof (simple_parser_exceptions
                    env p arg_strings
                    (setattr ns "subparser_name" (VStr name)) Hp Hk He) as H.
      destruct (parse_known_args p arg_strings _); [exact Logic.I|].
      left. exact H.
    - intros [ns0 [|x l]] _; exact Logic.I. }
  destruct (String.eqb "run" name); [apply Hsub; assumption|].
  destruct (String.eqb "info" name);
    [apply Hsub;
     [apply infoparser_simple|apply infoparser_known_types|reflexivity]|].
  right. eexists. reflexivity.
Qed.

Lemma main_parser_exceptions (env : environment) (version : string)
      (runparser : parser) (l : list string) :
  Forall simple_action (_actions runparser) ->
  (forall a, a ∈ _actions runparser -> known_type env a) ->
  error runparser = MpArgumentParser_error ->
  ok_res parse_exception (fun _ => True)
         (parse_args (main_parser version runparser) l).
Proof.
  intros Hsimple Hknown Herror. unfold parse_args.
  eapply ok_res_bind with (I := fun _ => True).
  - apply (parse_known_args_converts
             (main_parser version runparser)
             (fun a => a ∈ _actions (main_parser version runparser))).
    + intros err. rewrite main_parser_error.
      apply configuration_error_parse_exception.
    + intros a f s e Ha Htype. rewrite main_parser_actions in Ha.
      repeat (apply elem_of_cons in Ha as [->|Ha]); try discriminate Htype.
      inversion Ha.
    + intros a ns l0 v Ha _ _. rewrite main_parser_actions in Ha.
      repeat (apply elem_of_cons in Ha as [->|Ha]);
        [left; right; left; reflexivity|left; right; left; reflexivity
         | |inversion Ha].
      apply (call_subcommand_exceptions env); assumption.
    + apply main_parser_plain_defaults.
    + intros a Ha. exact Ha.
    + intros a Ha Hz os _ _. rewrite main_parser_actions in Ha.
      repeat (apply elem_of_cons in Ha as [->|Ha]);
        try (intros ns v; eexists; reflexivity);
        [discriminate Hz|inversion Ha].
  - intros [ns [|x argv]] _; [exact Logic.I|].
    rewrite main_parser_error. apply configuration_error_parse_exception.
Qed.

Ltac raised := hnf; unfold parse_exception; eauto 10.

(** X16: the exceptions of [parse].  Without sampler modules, what [parse]
    raises is a [ConfigurationError], [SystemExit] with status 0 (help and
    version), [IndexError] (no argument at all, or a one-letter flag
    followed by [=] and nothing), [IOError] (the file VERSION), or, for a
    value [[]] where a path is expected, [TypeError] or [AttributeError]:
    never [ArgumentError], [ArgumentTypeError] or [ValueError]. *)
Theorem parse_exceptions (env : environment) (cmd : string) (e : exn) :
  nested_sampling env = None -> cosmo_hammer env = None ->
  fst (parse env cmd) = Raise e ->
  parse_exception e.
Proof.
  intros Hns Hch He.
  assert (Hrun : run_arguments env MpArgumentParser
                 = Ok (runparser_base env)).
  { rewrite run_arguments_eq, Hns, Hch. reflexivity. }
  destruct (parsed env cmd) as [pa|e'] eqn:Hp.
  - assert (H : ok_res parse_exception (fun _ => True) (fst (parse env cmd))).
    { start_parse Hp; unfold getattr.
      all: destruct (pa !! "subparser_name") as [name|]; [|raised]; simpl.
      all: destruct (eq_str name "run"); [|exact Logic.I].
      all: destruct (pa !! "restart") as [restart|]; [|raised]; simpl.
      all: destruct (is_None restart) eqn:Hrestart; simpl.
      all: try (destruct restart; try discriminate Hrestart; simpl;
                try exact Logic.I; raised).
      all: destruct (pa !! "folder") as [folder|]; [|raised]; simpl.
      all: destruct (is_None folder); [raised|].
      all: destruct folder as [| | | |folder|]; try raised; simpl.
      all: destruct (OsPath.isdir (fs env) folder).
      all: try destruct (OsPath.exists_ (fs env) _).
      all: destruct (pa !! "param") as [param|]; [|raised]; simpl.
      all: destruct param; simpl; try exact Logic.I; raised. }
    rewrite He in H. exact H.
  - rewrite (parse_parsed_Raise env cmd e' Hp) in He. injection He as <-.
    unfold parsed in Hp.
    destruct (create_parser env) as [p|e''] eqn:Hcreate.
    + cbn [Py.bind] in Hp. unfold safe_parse_args in Hp.
      destruct (set_default_subparser env "run" (tokens_of cmd))
        as [strings|e''] eqn:Hset.
      * cbn [Py.bind] in Hp.
        apply create_parser_shape in Hcreate
            as (version & runparser & Hrun' & ->).
        rewrite Hrun in Hrun'. injection Hrun' as <-.
        pose proof (main_parser_exceptions
                      env version (runparser_base env) strings
                      (runparser_base_simple env)
                      (runparser_base_known_types env) eq_refl) as H.
        rewrite Hp in H. exact H.
      * injection Hp as <-. revert Hset. unfold set_default_subparser.
        cbv zeta.
        destruct (match tokens_of cmd with
                  | Some ((_ :: _) as l) => l
                  | _ => tail (argv env)
                  end); [intros [= <-]; unfold parse_exception; auto 10|].
        destruct (negb _); [destruct (negb _)|destruct (String.eqb _ _)];
          discriminate.
    + injection Hp as <-. revert Hcreate. unfold create_parser.
      destruct (VERSION env) as [text|];
        [|intros [= <-]; unfold parse_exception; auto 10].
      cbn [Py.bind].
      change (add_argument MpArgumentParser ["--version"]
                [kw_action "version"; kw_version (Py.readline text)])
        with (Ok (match add_argument MpArgumentParser ["--version"]
                          [kw_action "version";
                           kw_version (Py.readline text)] with
                  | Ok p => p
                  | Raise _ => MpArgumentParser
                  end)).
      cbn [Py.bind]. rewrite Hrun. cbn [Py.bind]. rewrite info_arguments_eq.
      discriminate.
Qed.

Lemma parse_exceptions_witness :
  exists e,
    fst (parse example_env "-N 10 -o out --bogus") = Raise e /\
    parse_exception e.
Proof.
  destruct (fst (parse example_env "-N 10 -o out --bogus")) as [args|e] eqn:E.
  - exfalso.
    assert (Hraise : match fst (parse example_env "-N 10 -o out --bogus") with
                     | Ok _ => False
                     | Raise _ => True
                     end) by (vm_compute; exact I).
    rewrite E in Hraise. exact Hraise.
  - exists e. split; [reflexivity|].
    exact (parse_exceptions example_env _ e eq_refl eq_refl E).
Defined.


(** ** The positional of a parser is consumed *)

Section Positional.

Context (p : parser) (J : namespace -> Prop) (allowed : action -> Prop)
        (a : action) (U : string -> Prop).

Hypothesis allowed_call :
  forall a' ns l v,
    allowed a' -> _get_values a' l = Ok v -> J ns ->
    ok_res (fun _ => True) J (call a' ns v).

(** What taking the positional establishes. *)
Hypothesis target :
  forall st st' n (strings : list (string * letter)),
    match_nargs false (a_nargs a) (map snd strings) = Some n ->
    Forall U (map fst strings) ->
    take_action st a (map fst (take n strings)) = Ok st' ->
    J (st_namespace st').

(** The positional is still to come, or it has been taken. *)
Definition positional_state (st : state) : Prop :=
  st_positionals st = [a] \/ (J (st_namespace st) /\ st_positionals st = []).

Lemma every_call (a' : action) (ns : namespace) (l : list string)
      (v : value) :
  allowed a' -> _get_values a' l = Ok v -> True ->
  ok_res every_exn (fun _ => True) (call a' ns v).
Proof. intros. destruct (call a' ns v); exact Logic.I. Qed.

Lemma consume_positionals_state (st : state)
      (strings : list (string * letter)) (r : state * nat) :
  positional_state st -> Forall U (map fst strings) ->
  consume_positionals st strings = Ok r -> positional_state (fst r).
Proof.
  intros Hst HU. unfold consume_positionals.
  destruct Hst as [Hp|[HJ Hp]]; rewrite Hp.
  - destruct (match_nargs _ _ _) as [n|] eqn:Hn.
    + destruct (take_action st a _) as [st'|] eqn:Htake; [|discriminate].
      cbn [Py.bind]. intros [= <-]. right. simpl.
      split; [|reflexivity]. eapply target; eassumption.
    + intros [= <-]. left. exact Hp.
  - intros [= <-]. right. split; assumption.
Qed.

Lemma consume_optional_state (st : state) (s : string) (t : option_tuple)
      (rest : list (string * letter)) (r : state * nat) :
  positional_state st -> tuple_ok allowed t ->
  consume_optional p st s t rest = Ok r -> positional_state (fst r).
Proof.
  intros Hst Ht Hr. destruct Hst as [Hp|[HJ Hp]].
  - pose proof (consume_optional_ok
                  p every_exn (fun _ => True) allowed
                  (fun _ => Logic.I) Logic.I (every_type _) every_call
                  st s t rest Ht Logic.I) as H.
    rewrite Hr in H. destruct H as (_ & H & _). left. rewrite H. exact Hp.
  - pose proof (consume_optional_ok
                  p every_exn J allowed
                  (fun _ => Logic.I) Logic.I (every_type _) allowed_call
                  st s t rest Ht HJ) as H.
    rewrite Hr in H. destruct H as (HJ' & H & _). right.
    split; [exact HJ'|rewrite H; exact Hp].
Qed.

Lemma round_state (st : state) (strings : list (string * letter))
      (r : state * nat) :
  positional_state st -> Forall U (map fst strings) ->
  Forall (letter_ok allowed) strings ->
  round p st strings = Ok r -> positional_state (fst r).
Proof.
  intros Hst HU Hletters. unfold round.
  set (before := count_while _ _). clearbody before.
  destruct (if (0 <? before)%nat then consume_positionals st strings
            else Ok (st, 0%nat)) as [[st0 n0]|] eqn:Hpos; [|discriminate].
  assert (Hst0 : positional_state st0).
  { destruct (0 <? before)%nat.
    - apply (consume_positionals_state st strings (st0, n0));
        assumption.
    - injection Hpos as <- <-. exact Hst. }
  cbn [Py.bind]. destruct (0 <? n0)%nat; [intros [= <-]; exact Hst0|].
  destruct (drop before strings) as [|[s [t| |]] rest] eqn:Hdrop;
    try (intros [= <-]; exact Hst0).
  destruct (consume_optional p _ s t rest) as [[st1 n1]|] eqn:Hopt;
    [|discriminate].
  cbn [Py.bind]. intros [= <-].
  apply (consume_optional_state _ s t rest (st1, n1)) in Hopt.
  - exact Hopt.
  - exact Hst0.
  - pose proof (Forall_drop _ before _ Hletters) as H.
    rewrite Hdrop in H. apply Forall_cons in H as [H _]. exact H.
Qed.

Lemma after_last_option_state (st st' : state)
      (strings : list (string * letter)) :
  positional_state st -> Forall U (map fst strings) ->
  after_last_option st strings = Ok st' -> positional_state st'.
Proof.
  intros Hst HU. unfold after_last_option.
  destruct (consume_positionals st strings) as [[st0 n]|] eqn:Hpos;
    [|discriminate].
  cbn [Py.bind]. intros [= <-].
  apply (consume_positionals_state st strings (st0, n)) in Hpos; assumption.
Qed.

Lemma consume_state (strings : list (string * letter)) :
  forall skip st st',
    positional_state st -> Forall U (map fst strings) ->
    Forall (letter_ok allowed) strings ->
    consume p st skip strings = Ok st' -> positional_state st'.
Proof.
  induction strings as [|x strings IH]; intros skip st st' Hst HU Hletters.
  - destruct skip; cbn [consume]; apply after_last_option_state;
      try assumption; constructor.
  - assert (HU' : Forall U (map fst strings))
      by (simpl in HU; apply Forall_cons in HU as [_ H]; exact H).
    assert (Hletters' : Forall (letter_ok allowed) strings)
      by (apply Forall_cons in Hletters as [_ H]; exact H).
    destruct skip as [|skip]; cbn [consume].
    + destruct (has_option (x :: strings));
        [|apply after_last_option_state; assumption].
      destruct (round p st (x :: strings)) as [[st1 n]|] eqn:Hround;
        [|discriminate].
      cbn [Py.bind]. apply IH; try assumption.
      apply (round_state st (x :: strings) (st1, n)); assumption.
    + apply IH; assumption.
Qed.

(** A parser with the one positional [a] that returns has taken it. *)
Lemma parse_known_args_positional (l : list string) (ns ns' : namespace)
      (extras : list string) :
  _get_positional_actions p = [a] ->
  Forall plain_default (_actions p) ->
  (forall ns0, J ns0 -> J (delete _UNRECOGNIZED_ARGS_ATTR ns0)) ->
  (forall strings, classify p l = Ok strings ->
              Forall (letter_ok allowed) strings) ->
  (forall s, s ∈ l -> U s) ->
  parse_known_args p l ns = Ok (ns', extras) -> J ns'.
Proof.
  intros Hpos Hdefaults Hdelete Hletters HU.
  unfold parse_known_args, _parse_known_args.
  destruct (classify p l) as [strings|e] eqn:Hc; [|destruct e; discriminate].
  cbn [Py.bind]. rewrite Hpos.
  set (st0 := State (fold_left add_default (_actions p) ns) [] [] [a]).
  destruct (consume p st0 0 strings) as [st|e] eqn:Hconsume;
    [|destruct e; discriminate].
  cbn [Py.bind].
  assert (Hst : positional_state st).
  { apply (consume_state strings 0%nat st0 st); try assumption.
    - left. reflexivity.
    - rewrite (classify_fst p l strings Hc). apply Forall_forall, HU.
    - apply Hletters. reflexivity. }
  destruct Hst as [Hp|[HJ Hp]]; rewrite Hp;
    [destruct (error p _); discriminate|].
  pose proof (convert_defaults_ok p (fun _ => True)
                ltac:(intros; exact Logic.I) st (_actions p)
                (st_namespace st) Hdefaults) as Hconv.
  destruct (Py.foldM (convert_default p st) (st_namespace st) (_actions p))
    as [ns1|e]; [|destruct e; discriminate].
  simpl in Hconv. subst ns1. cbn [Py.bind].
  destruct (st_namespace st !! _UNRECOGNIZED_ARGS_ATTR) as [v|].
  - destruct (match v with VList l0 => Py.mapM str_of l0 | _ => _ end);
      [|discriminate].
    cbn [Py.bind]. intros [= <- _]. apply Hdelete, HJ.
  - intros [= <- _]. exact HJ.
Qed.

End Positional.

(** The positional of the [info] parser. *)
Definition files_action : action :=
  Action [] "files" ONE_OR_MORE VNone None None true _StoreAction.

Lemma remove_first_nil (x : string) (l : list string) :
  Py.remove_first x l = [] -> l = [] \/ l = [x].
Proof.
  destruct l as [|y l]; [auto|]. simpl.
  destruct (String.eqb_spec y x) as [->|]; [|discriminate].
  intros ->. right. reflexivity.
Qed.

Lemma mapM_check_value_plain (a : action) (vs : list value) :
  choices a = None -> exists us, Py.mapM (_check_value a) vs = Ok us.
Proof.
  intros Hc. induction vs as [|v vs [us IH]]; simpl; [eexists; reflexivity|].
  unfold _check_value at 1. rewrite Hc. cbn [Py.bind]. rewrite IH.
  eexists. reflexivity.
Qed.

Lemma _get_values_files (l : list string) (v : value) :
  _get_values files_action l = Ok v ->
  v = VList (map VStr (Py.remove_first "--" l)).
Proof.
  unfold _get_values. cbn [a_nargs files_action].
  set (arg_strings := Py.remove_first "--" l). clearbody arg_strings.
  assert (H : (vs <- Py.mapM (_get_value files_action) arg_strings ;;
               _ <- Py.mapM (_check_value files_action) vs ;;
               Ok (VList vs)) = Ok v ->
              v = VList (map VStr arg_strings)).
  { rewrite mapM_get_value_plain by reflexivity. cbn [Py.bind].
    destruct (mapM_check_value_plain files_action (map VStr arg_strings)
                                     eq_refl) as [us ->].
    cbn [Py.bind]. intros [= <-]. reflexivity. }
  destruct arg_strings as [|s [|s' l']]; exact H.
Qed.

Lemma match_nargs_one_or_more (pattern : list letter) (n : nat) :
  match_nargs false ONE_OR_MORE pattern = Some n ->
  (1 <= n)%nat /\ pattern <> [].
Proof.
  unfold match_nargs. cbv zeta.
  destruct (drop (count_while is_Dash pattern) pattern) as [|[| |] rest]
    eqn:Hdrop; try discriminate.
  intros [= <-]. split; [lia|]. intros ->. rewrite drop_nil in Hdrop.
  discriminate Hdrop.
Qed.

(** The [info] parser: when it returns, [files] is a list of strings; it is
    empty only when the command line has a bare ["--"]. *)
Lemma infoparser_files (l : list string) (ns ns' : namespace)
      (extras : list string) :
  parse_known_args infoparser l ns = Ok (ns', extras) ->
  exists files,
    ns' !! "files" = Some (VList (map VStr files)) /\
    (files = [] -> "--" ∈ l).
Proof.
  set (J := fun ns0 : namespace =>
              exists files, ns0 !! "files" = Some (VList (map VStr files)) /\
                       (files = [] -> "--" ∈ l)).
  assert (Hopt : forall a, a ∈ _actions infoparser -> is_optional a = true ->
                      dest a <> "files").
  { assert (H : forallb (fun a => negb (is_optional a)
                                  || negb (String.eqb (dest a) "files"))
                        (_actions infoparser) = true) by reflexivity.
    rewrite forallb_forall in H. intros a Ha Ho Hd.
    apply list_elem_of_In, H in Ha. rewrite Ho, Hd in Ha. discriminate Ha. }
  assert (Hin : forall a, a ∈ _actions infoparser -> simple_action a)
    by (apply Forall_forall, infoparser_simple).
  apply (parse_known_args_positional
           infoparser J (fun a => simple_action a /\ dest a <> "files")
           files_action (fun s => s ∈ l)).
  - intros a ns0 l0 v [(_ & Hclass & _) Hdest] _ (files & Hfiles & Hempty).
    unfold call.
    destruct (class a); try exact Logic.I; try contradiction;
      exists files; unfold setattr; rewrite lookup_insert_ne by exact Hdest;
      split; assumption.
  - intros st st' n strings Hn HU Htake. unfold take_action in Htake.
    destruct (_get_values files_action _) as [v|] eqn:Hv; [|discriminate].
    apply _get_values_files in Hv as ->. cbn [Py.bind] in Htake.
    unfold call in Htake. cbn [class files_action dest Py.bind] in Htake.
    injection Htake as <-. cbn [st_namespace].
    eexists. unfold setattr. rewrite lookup_insert_eq.
    split; [reflexivity|]. intros Hnil.
    apply match_nargs_one_or_more in Hn as [Hn Hpattern].
    apply remove_first_nil in Hnil as [Hnil| Hnil].
    + exfalso. destruct strings as [|x strings]; [apply Hpattern; reflexivity|].
      destruct n; [lia|]. discriminate Hnil.
    + rewrite Forall_forall in HU. apply HU.
      assert (Hsub : "--" ∈ map fst (take n strings))
        by (rewrite Hnil; left).
      apply list_elem_of_fmap in Hsub as ([s t] & -> & Hsub).
      apply list_elem_of_fmap. exists (s, t). split; [reflexivity|].
      exact (subseteq_take n strings _ Hsub).
  - reflexivity.
  - eapply Forall_impl; [exact infoparser_simple|]. intros a Ha. apply Ha.
  - intros ns0 (files & Hfiles & Hempty). exists files.
    rewrite lookup_delete_ne by discriminate. split; assumption.
  - intros strings Hc. apply Forall_forall. intros [s [t| |]] Hs;
      try exact Logic.I.
    destruct (classify_options_part infoparser l strings s t Hc Hs)
      as [_ Ht].
    destruct t as [[[a|] os] ea]; [|exact Logic.I].
    apply _parse_optional_table, table_elem in Ht as [Ha Hos].
    split.
    + split; [apply Hin, Ha|]. apply Hopt; [exact Ha|].
      unfold is_optional. destruct (option_strings a); [inversion Hos|].
      reflexivity.
    + intros Hz Hshort. destruct (Hin a Ha) as (_ & _ & Hflag).
      eapply Hflag; eassumption.
  - intros s Hs. exact Hs.
Qed.

(** X17: [info] needs its files.  When [parse] returns for an [info]
    command line, [files] is a list of strings; it is not empty, unless a
    bare ["--"] is among the arguments. *)
Theorem info_has_files
        (env : environment) (cmd : string) (rest : list string)
        (args : namespace) (ws : list warning) :
  set_default_subparser env "run" (tokens_of cmd) = Ok ("info" :: rest) ->
  parse env cmd = (Ok args, ws) ->
  exists files,
    args !! "files" = Some (VList (map VStr files)) /\
    (files = [] -> "--" ∈ rest).
Proof.
  intros Hset Hparse.
  destruct (parse_info env cmd rest args ws Hset Hparse) as (ns' & Hsub & Hk).
  rewrite Hk by discriminate. eapply infoparser_files, Hsub.
Qed.

Lemma info_has_files_witness :
  exists args ws files,
    parse example_env "info out chains --noplot" = (Ok args, ws) /\
    args !! "files" = Some (VList (map VStr files)) /\
    (files = [] -> "--" ∈ ["out"; "chains"; "--noplot"]).
Proof.
  run_parse args ws E.
  destruct (info_has_files example_env "info out chains --noplot"
              ["out"; "chains"; "--noplot"] args ws
              ltac:(vm_compute; reflexivity) E) as (files & Hfiles & Hempty).
  exists args, ws, files. split; [reflexivity|]. split; assumption.
Defined.


(** ** The sub-command in front *)

Lemma parse_same_arguments (env : environment) (cmd cmd' : string) :
  cmd <> "" -> cmd' <> "" ->
  set_default_subparser env "run" (Some (Py.split " " cmd))
  = set_default_subparser env "run" (Some (Py.split " " cmd')) ->
  parse env cmd = parse env cmd'.
Proof.
  intros Hcmd Hcmd' Heq. unfold parse.
  destruct (create_parser env) as [p|]; [|reflexivity].
  rewrite !bindW_lift_Ok.
  apply String.eqb_neq in Hcmd, Hcmd'. rewrite Hcmd, Hcmd'.
  unfold safe_parse_args. rewrite Heq. reflexivity.
Qed.

(** X18: [run] may be left out.  For a command whose first string has a
    hyphen and is none of [-h], [--help], [--version], [-info], [parse]
    gives the same result with and without [run] in front. *)
Theorem explicit_run_is_default
        (env : environment) (cmd first : string) (rest : list string) :
  Py.split " " cmd = first :: rest ->
  has_hyphen first = true ->
  first ∉ ["-h"; "--help"; "--version"; "-info"] ->
  parse env ("run " +:+ cmd) = parse env cmd.
Proof.
  intros Hsplit Hhyphen Hfirst.
  apply parse_same_arguments.
  - discriminate.
  - intros ->. injection Hsplit as <- _. discriminate Hhyphen.
  - change (Py.split " " ("run " +:+ cmd)) with ("run" :: Py.split " " cmd).
    rewrite Hsplit.
    assert (Hexplicit : set_default_subparser
                          env "run" (Some ("run" :: first :: rest))
                        = Ok ("run" :: first :: rest)) by reflexivity.
    rewrite Hexplicit. unfold set_default_subparser.
    rewrite (bool_decide_eq_false_2 _ Hfirst). cbn [negb].
    rewrite find_hyphen, Hhyphen. reflexivity.
Qed.

Lemma explicit_run_is_default_witness :
  parse example_env "run -N 10 -o out" = parse example_env "-N 10 -o out".
Proof.
  apply (explicit_run_is_default example_env "-N 10 -o out" "-N"
           ["10"; "-o"; "out"] eq_refl eq_refl).
  intros H. repeat (apply elem_of_cons in H as [H|H]; [discriminate H|]).
  inversion H.
Defined.

(** X19: the old [-info] is [info].  A command that starts with the
    string [-info] gives the same result as the command with [info] in its
    place. *)
Theorem legacy_info_flag (env : environment) (rest : string) :
  parse env "-info" = parse env "info"
  /\ parse env ("-info " +:+ rest) = parse env ("info " +:+ rest).
Proof.
  split; apply parse_same_arguments; try discriminate; [reflexivity|].
  change (Py.split " " ("-info " +:+ rest))
    with ("-info" :: Py.split " " rest).
  change (Py.split " " ("info " +:+ rest)) with ("info" :: Py.split " " rest).
  reflexivity.
Qed.


(** ** The first option and its argument *)

Lemma consume_cons (p : parser) (st : state) (x : string * letter)
      (strings : list (string * letter)) :
  consume p st 0 (x :: strings)
  = if has_option (x :: strings)
    then r <- round p st (x :: strings) ;;
         let '(st, n) := r in consume p st (Nat.pred n) strings
    else after_last_option st (x :: strings).
Proof. reflexivity. Qed.

(** The loop on an option with one argument, followed by an argument: the
    action is taken on the argument, and the loop goes on after it. *)
Lemma consume_first_option (p : parser) (st : state) (flag : string)
      (a : action) (os arg : string) (strings : list (string * letter)) :
  a_nargs a = NargsNone -> is_optional a = true ->
  consume p st 0 ((flag, O (Some a, os, None)) :: (arg, A) :: strings)
  = (st1 <- take_action
              (State (st_namespace st) (st_extras st ++ []) (st_seen st)
                     (st_positionals st))
              a [arg] ;;
     consume p st1 0 strings).
Proof.
  intros Hnargs Hopt. rewrite consume_cons.
  change (has_option ((flag, O (Some a, os, None)) :: (arg, A) :: strings))
    with true.
  cbv iota. unfold round.
  cbn [map snd count_while is_O negb Nat.ltb Nat.leb Py.bind].
  cbn [take drop map fst]. unfold consume_optional.
  assert (Hmatch : _match_argument a (map snd ((arg, A) :: strings))
                   = Ok 1%nat).
  { unfold _match_argument, match_nargs. rewrite Hnargs, Hopt.
    cbn [map snd drop]. destruct (map snd strings) as [|x l]; reflexivity. }
  rewrite Hmatch. cbn [Py.bind app take map fst Py.foldM].
  rewrite take_0. cbn [map].
  destruct (take_action _ a [arg]) as [st1|]; reflexivity.
Qed.

Lemma take_action_one (st : state) (a : action) (arg : string) :
  a_nargs a = NargsNone -> arg <> "--" ->
  take_action st a [arg]
  = (v <- _get_value a arg ;;
     _ <- _check_value a v ;;
     ns <- call a (st_namespace st) v ;;
     Ok (State ns (st_extras st) (_get_action_name a :: st_seen st)
               (st_positionals st))).
Proof.
  intros Hnargs Harg. apply String.eqb_neq in Harg.
  unfold take_action, _get_values. rewrite Hnargs.
  cbn [Py.remove_first]. rewrite Harg.
  destruct (_get_value a arg) as [v|]; [|reflexivity]. cbn [Py.bind].
  destruct (_check_value a v) as [[]|]; reflexivity.
Qed.

(** A simple parser, a first option with one argument, and no later string
    that writes its attribute: the attribute is the value of the
    argument. *)
Lemma first_option_stored (p : parser) (flag arg : string)
      (rest : list string) (ns ns' : namespace) (extras : list string)
      (a : action) (os : string) :
  Forall simple_action (_actions p) ->
  _parse_optional p flag = Ok (Some (Some a, os, None)) -> flag <> "--" ->
  _parse_optional p arg = Ok None -> arg <> "--" ->
  a_nargs a = NargsNone -> class a = _StoreAction ->
  dest a <> _UNRECOGNIZED_ARGS_ATTR ->
  Forall (fun s => written_by p s <> Some (dest a)) (options_part rest) ->
  Forall (fun a' => dest a' <> dest a) (_get_positional_actions p) ->
  parse_known_args p (flag :: arg :: rest) ns = Ok (ns', extras) ->
  exists v, _get_value a arg = Ok v /\ _check_value a v = Ok tt /\
       ns' !! dest a = Some v.
Proof.
  intros Hsimple Hflag Hflag' Harg Harg' Hnargs Hclass Hattr Hrest Hpos.
  assert (Hin : forall a', a' ∈ _actions p -> simple_action a')
    by (apply Forall_forall, Hsimple).
  assert (Hopt : is_optional a = true).
  { apply _parse_optional_table, table_elem in Hflag as [_ Hos].
    unfold is_optional. destruct (option_strings a); [inversion Hos|].
    reflexivity. }
  unfold parse_known_args, _parse_known_args. cbn [classify].
  apply String.eqb_neq in Hflag'. pose proof Harg' as Harg''.
  apply String.eqb_neq in Harg''.
  rewrite Hflag', Hflag, Harg'', Harg. cbn [Py.bind].
  destruct (classify p rest) as [strings|e] eqn:Hc;
    [|destruct e; discriminate].
  cbn [Py.bind]. rewrite consume_first_option by assumption.
  rewrite take_action_one by assumption.
  destruct (_get_value a arg) as [v|e] eqn:Hv; [|destruct e; discriminate].
  cbn [Py.bind].
  destruct (_check_value a v) as [[]|e] eqn:Hcheck;
    [|destruct e; discriminate].
  cbn [Py.bind]. unfold call at 1. rewrite Hclass. cbn [Py.bind].
  set (st1 := State _ _ _ _).
  assert (Hst1 : holds (dest a) v (st_namespace st1))
    by (unfold holds, st1, setattr; simpl; apply lookup_insert_eq).
  pose proof (consume_ok p every_exn (holds (dest a) v)
                (fun a' => simple_action a' /\ dest a' <> dest a)
                (fun _ => Logic.I) Logic.I (every_type _)
                (simple_call_keeps (dest a) v)
                strings 0%nat st1 Hst1) as Hconsume.
  specialize (Hconsume ltac:(
    change (st_positionals st1) with (_get_positional_actions p);
    apply Forall_forall; intros a' Ha'; split;
    [apply Hin; unfold _get_positional_actions in Ha';
     apply list_elem_of_filter in Ha' as [_ Ha']; exact Ha'
    |revert a' Ha'; apply Forall_forall, Hpos])).
  specialize (Hconsume ltac:(
    apply Forall_forall; intros [s [t| |]] Hs; try exact Logic.I;
    destruct (classify_options_part p rest strings s t Hc Hs) as [Hs' Ht];
    destruct t as [[[a'|] os'] ea']; [|exact Logic.I];
    pose proof Ht as Htable;
    apply _parse_optional_table, table_elem in Htable as [Ha' Hos'];
    split;
    [split; [apply Hin, Ha'|];
     rewrite Forall_forall in Hrest; intros Heq; apply (Hrest s Hs');
     unfold written_by; rewrite Ht, Heq; reflexivity
    |intros Hz Hshort; destruct (Hin a' Ha') as (_ & _ & Hflag0);
     eapply Hflag0; eassumption])).
  destruct (consume p st1 0 strings) as [st|e]; [|destruct e; discriminate].
  simpl in Hconsume. cbn [Py.bind].
  destruct (st_positionals st); [|destruct (error p _); discriminate].
  pose proof (convert_defaults_ok p (fun _ => True)
                ltac:(intros; exact Logic.I) st (_actions p)
                (st_namespace st)
                ltac:(eapply Forall_impl; [exact Hsimple|];
                      intros a' Ha'; apply Ha')) as Hconv.
  destruct (Py.foldM (convert_default p st) (st_namespace st) (_actions p))
    as [ns1|e]; [|destruct e; discriminate].
  simpl in Hconv. subst ns1. cbn [Py.bind].
  destruct (st_namespace st !! _UNRECOGNIZED_ARGS_ATTR) as [u|].
  - destruct (match u with VList l0 => Py.mapM str_of l0 | _ => _ end);
      [|discriminate].
    cbn [Py.bind]. intros [= <- _]. exists v.
    split; [first [reflexivity|exact Hv]|].
    split; [first [reflexivity|exact Hcheck]|].
    rewrite lookup_delete_ne by congruence. exact Hconsume.
  - intros [= <- _]. exists v. split; [first [reflexivity|exact Hv]|].
    split; [first [reflexivity|exact Hcheck]|exact Hconsume].
Qed.

(** An option string of the [run] parser without sampler modules is read
    as its option by the [run] parser. *)
Lemma run_parser_exact (env : environment) (flag : string) (a : action) :
  run_arguments env MpArgumentParser = Ok (run_parser env) ->
  assoc flag (_option_string_actions (runparser_base env)) = Some a ->
  Py.startswith flag "-" = true ->
  _parse_optional (run_parser env) flag = Ok (Some (Some a, flag, None)).
Proof.
  intros Hrun Ha Hs.
  apply run_arguments_shape in Hrun as (_ & _ & _ & extras & Hact & _).
  apply _parse_optional_exact; [exact Hs|].
  unfold _option_string_actions. rewrite Hact, flat_map_app.
  apply assoc_app_Some, Ha.
Qed.

(** X20: the step count given is the step count stored.  For a [run]
    command line that starts with [-N] and its argument, with no other
    string read as [-N], when [parse] returns, [N] is the integer that the
    argument spells, and it is positive. *)
Theorem step_count_is_stored
        (env : environment) (cmd : string) (arg : string)
        (rest : list string) (args : namespace) (ws : list warning) :
  set_default_subparser env "run" (tokens_of cmd)
  = Ok ("run" :: "-N" :: arg :: rest) ->
  _parse_optional (run_parser env) arg = Ok None -> arg <> "--" ->
  existsb (reads_as (run_parser env) "N") (options_part rest) = false ->
  parse env cmd = (Ok args, ws) ->
  exists n, Py.int arg = Ok n /\ (0 < n)%Z /\ args !! "N" = Some (VInt n).
Proof.
  intros Hset Harg Hdash Hno Hparse.
  destruct (parse_run env cmd _ args ws Hset Hparse)
    as (ns' & Hrun & Hsub & Hk).
  pose proof Hrun as Hshape.
  apply run_arguments_shape in Hshape as (_ & Hpos & Hsimple & _).
  set (a := Action ["-N"] "N" NargsNone VNone (Some (of_int positive_int))
                   None false _StoreAction).
  assert (Hflag : _parse_optional (run_parser env) "-N"
                  = Ok (Some (Some a, "-N", None)))
    by (apply run_parser_exact; [exact Hrun|reflexivity|reflexivity]).
  destruct (first_option_stored
              (run_parser env) "-N" arg rest _ ns' [] a "-N" Hsimple Hflag
              ltac:(discriminate) Harg Hdash eq_refl eq_refl
              ltac:(discriminate)
              ltac:(eapply existsb_false_Forall; [|exact Hno];
                    intros s Hs; apply bool_decide_eq_false in Hs; exact Hs)
              ltac:(rewrite Hpos; constructor) Hsub)
    as (v & Hv & _ & Hns).
  apply (_get_value_of_int a positive_int) in Hv as (n & Hn & ->);
    [|reflexivity].
  apply positive_int_Ok in Hn as [Hint Hn].
  exists n. split; [exact Hint|]. split; [exact Hn|].
  rewrite Hk by discriminate. exact Hns.
Qed.

Lemma step_count_is_stored_witness :
  exists args ws,
    parse example_env_sampler "-N 10 -o newfolder -p x.param" = (Ok args, ws)
    /\ exists n, Py.int "10" = Ok n /\ (0 < n)%Z /\
            args !! "N" = Some (VInt n).
Proof.
  run_parse args ws E. exists args, ws. split; [reflexivity|].
  refine (step_count_is_stored
            example_env_sampler _ "10" ["-o"; "newfolder"; "-p"; "x.param"]
            args ws _ _ _ _ E).
  - vm_compute. reflexivity.
  - vm_compute. reflexivity.
  - discriminate.
  - vm_compute. reflexivity.
Defined.




(** ** A value outside the choices *)

(** The first string is an option that takes one argument, the second
    string is an argument that is not among its choices: the parser calls
    its [error] method. *)
Lemma first_option_invalid_choice (p : parser) (flag arg : string)
      (rest : list string) (ns : namespace) (a : action) (os : string)
      (cs : list string) :
  _parse_optional p flag = Ok (Some (Some a, os, None)) -> flag <> "--" ->
  _parse_optional p arg = Ok None -> arg <> "--" ->
  a_nargs a = NargsNone -> is_optional a = true ->
  type a = None \/ type a = Some str ->
  choices a = Some cs -> arg ∉ cs ->
  exists err, parse_known_args p (flag :: arg :: rest) ns
         = Raise (error p err).
Proof.
  intros Hflag Hflag' Harg Harg' Hnargs Hopt Htype Hchoices Hout.
  assert (Hvalue : _get_value a arg = Ok (VStr arg)).
  { unfold _get_value. destruct Htype as [->| ->]; reflexivity. }
  apply String.eqb_neq in Hflag'. pose proof Harg' as Harg''.
  apply String.eqb_neq in Harg''.
  destruct (classify p rest) as [strings|e] eqn:Hc.
  2: { destruct (classify_error p rest e Hc) as [err ->].
       eapply parse_known_args_raise; [|right; eexists; reflexivity].
       unfold _parse_known_args. cbn [classify].
       rewrite Hflag', Hflag, Harg'', Harg, Hc. reflexivity. }
  eapply parse_known_args_raise; [|left; eexists; reflexivity].
  unfold _parse_known_args. cbn [classify].
  rewrite Hflag', Hflag, Harg'', Harg, Hc. cbn [Py.bind].
  rewrite consume_first_option by assumption.
  rewrite take_action_one by assumption.
  rewrite Hvalue. cbn [Py.bind]. unfold _check_value. rewrite Hchoices.
  rewrite bool_decide_eq_false_2 by exact Hout. reflexivity.
Qed.

Lemma parse_args_main_sub_error (version : string) (runparser sub : parser)
      (name : string) (rest : list string) :
  sub_parser runparser name = Some sub ->
  error sub = MpArgumentParser_error ->
  (exists err, parse_known_args sub rest (namespace_of name)
          = Raise (error sub err)) ->
  exists err, parse_args (main_parser version runparser) (name :: rest)
         = Raise (MpArgumentParser_error err).
Proof.
  intros Hname Herror [err Hsub]. rewrite Herror in Hsub.
  assert (Hplain : Py.startswith name "-" = false).
  { unfold sub_parser in Hname. cbn [assoc] in Hname.
    destruct (String.eqb_spec "run" name) as [<-|_]; [reflexivity|].
    destruct (String.eqb_spec "info" name) as [<-|_]; [reflexivity|].
    discriminate Hname. }
  assert (Hcheck : _check_value (subcommand runparser) (VStr name) = Ok tt).
  { unfold sub_parser in Hname. cbn [assoc] in Hname.
    destruct (String.eqb_spec "run" name) as [<-|_]; [reflexivity|].
    destruct (String.eqb_spec "info" name) as [<-|_]; [reflexivity|].
    discriminate Hname. }
  unfold parse_args. unfold parse_known_args at 1.
  rewrite main_parser_defaults, _parse_known_args_main by exact Hplain.
  destruct (classify _ (name :: rest)) as [strings|e] eqn:Hc.
  - cbn [Py.bind]. rewrite Hcheck. cbn [Py.bind].
    rewrite call_subcommand, namespace_of_eq, Hname, Hsub.
    exists err. reflexivity.
  - destruct (classify_error _ _ _ Hc) as [err' ->].
    rewrite main_parser_error. exists err'. reflexivity.
Qed.

(** The sub-parser of a sub-command of an installation. *)
Definition sub_parser_of (env : environment) (name : string) : parser :=
  if String.eqb name "run" then run_parser env else infoparser.

(** The flags that take one of a set of values, with their sub-command and
    the set. *)
Definition choice_flags : list (string * string * list string) :=
  [("run", "-j", ["global"; "sequential"; "fast"]);
   ("run", "--jumping", ["global"; "sequential"; "fast"]);
   ("run", "-m", ["MH"; "NS"; "CH"; "IS"; "Der"]);
   ("run", "--method", ["MH"; "NS"; "CH"; "IS"; "Der"]);
   ("info", "--legend-style", ["sides"; "top"])].

(** X22: a value outside the choices is refused.  For a command line that
    starts, after the sub-command, with [-j], [-m] (or their long forms) or
    [--legend-style] and an argument that is not one of the values declared
    for the flag, [parse] raises [ConfigurationError]. *)
Theorem invalid_choice_is_configuration_error
        (env : environment) (cmd : string) (name flag arg : string)
        (cs : list string) (rest : list string) :
  (forall e, create_parser env <> Raise e) ->
  (name, flag, cs) ∈ choice_flags ->
  set_default_subparser env "run" (tokens_of cmd)
  = Ok (name :: flag :: arg :: rest) ->
  _parse_optional (sub_parser_of env name) arg = Ok None -> arg <> "--" ->
  arg ∉ cs ->
  exists err, parse env cmd
         = (Raise (ConfigurationError (OfArgparse err)), []).
Proof.
  intros Hcreate Hflag Hset Harg Hdash Hout.
  destruct (create_parser env) as [p|e] eqn:Hp;
    [|exfalso; apply (Hcreate e); reflexivity].
  pose proof Hp as Hshape.
  apply create_parser_shape in Hshape as (version & runparser & Hrun & ->).
  assert (Heq : run_parser env = runparser)
    by (unfold run_parser; rewrite Hrun; reflexivity).
  rewrite <- Heq in Hrun.
  pose proof Hrun as Herror.
  apply run_arguments_shape in Herror as (Herror & _).
  assert (Hsub : exists sub,
             sub_parser runparser name = Some sub /\
             sub = sub_parser_of env name /\
             error sub = MpArgumentParser_error /\
             exists err, parse_known_args sub (flag :: arg :: rest)
                                     (namespace_of name)
                    = Raise (error sub err)).
  { unfold choice_flags in Hflag.
    repeat (apply elem_of_cons in Hflag as [[= -> -> ->]|Hflag]);
      [| | | |
       |inversion Hflag].
    1-4: exists (run_parser env); rewrite <- Heq;
      (split; [reflexivity|]); (split; [reflexivity|]);
      (split; [exact Herror|]);
      eapply first_option_invalid_choice;
      [apply run_parser_exact; [exact Hrun|reflexivity|reflexivity]
      |discriminate|exact Harg|exact Hdash|reflexivity|reflexivity
      |left; reflexivity|reflexivity|exact Hout].
    exists infoparser.
    (split; [reflexivity|]); (split; [reflexivity|]);
      (split; [reflexivity|]).
    eapply first_option_invalid_choice;
      [apply _parse_optional_exact; reflexivity
      |discriminate|exact Harg|exact Hdash|reflexivity|reflexivity
      |right; reflexivity|reflexivity|exact Hout]. }
  destruct Hsub as (sub & Hname & _ & Hsub_error & Hraise).
  destruct (parse_args_main_sub_error version runparser sub name _
              Hname Hsub_error Hraise) as [err Herr].
  exists err. apply parse_parsed_Raise. unfold parsed. rewrite Hp.
  cbn [Py.bind]. unfold safe_parse_args. rewrite Hset. cbn [Py.bind].
  exact Herr.
Qed.

Lemma invalid_choice_is_configuration_error_witness :
  exists err,
    parse example_env "-m XX -N 10 -o out"
    = (Raise (ConfigurationError (OfArgparse err)), []).
Proof.
  refine (invalid_choice_is_configuration_error
            example_env "-m XX -N 10 -o out" "run" "-m" "XX"
            ["MH"; "NS"; "CH"; "IS"; "Der"] ["-N"; "10"; "-o"; "out"]
            example_env_create_parser _ _ _ _ _).
  - unfold choice_flags. right. right. left.
  - vm_compute. reflexivity.
  - vm_compute. reflexivity.
  - discriminate.
  - intros H. repeat (apply elem_of_cons in H as [H|H]; [discriminate H|]).
    inversion H.
Defined.


(** ** A first string that is no sub-command *)

(** X23: a first string that is no sub-command is refused.  When the list
    of strings that [set_default_subparser] returns starts with a string
    that does not begin with a hyphen and is neither [run] nor [info],
    [parse] raises [ConfigurationError]. *)
Theorem unknown_subcommand_is_refused
        (env : environment) (cmd : string) (first : string)
        (rest : list string) :
  (forall e, create_parser env <> Raise e) ->
  set_default_subparser env "run" (tokens_of cmd) = Ok (first :: rest) ->
  Py.startswith first "-" = false ->
  first ∉ ["run"; "info"] ->
  exists err, parse env cmd
         = (Raise (ConfigurationError (OfArgparse err)), []).
Proof.
  intros Hcreate Hset Hfirst Hname.
  destruct (create_parser env) as [p|e] eqn:Hp;
    [|exfalso; apply (Hcreate e); reflexivity].
  pose proof Hp as Hshape.
  apply create_parser_shape in Hshape as (version & runparser & _ & ->).
  assert (Hraise : exists err,
             parse_args (main_parser version runparser) (first :: rest)
             = Raise (MpArgumentParser_error err)).
  { unfold parse_args. unfold parse_known_args at 1.
    rewrite main_parser_defaults, _parse_known_args_main by exact Hfirst.
    destruct (classify _ (first :: rest)) as [strings|e] eqn:Hc.
    - cbn [Py.bind]. unfold _check_value. cbn [choices subcommand].
      rewrite bool_decide_eq_false_2 by exact Hname.
      eexists. reflexivity.
    - destruct (classify_error _ _ _ Hc) as [err' ->].
      rewrite main_parser_error. exists err'. reflexivity. }
  destruct Hraise as [err Herr].
  exists err. apply parse_parsed_Raise. unfold parsed. rewrite Hp.
  cbn [Py.bind]. unfold safe_parse_args. rewrite Hset. cbn [Py.bind].
  exact Herr.
Qed.

Lemma unknown_subcommand_is_refused_witness :
  exists err,
    parse example_env "plot out"
    = (Raise (ConfigurationError (OfArgparse err)), []).
Proof.
  refine (unknown_subcommand_is_refused
            example_env "plot out" "plot" ["out"]
            example_env_create_parser _ _ _).
  - vm_compute. reflexivity.
  - reflexivity.
  - intros H. repeat (apply elem_of_cons in H as [H|H]; [discriminate H|]).
    inversion H.
Defined.
Set Warnings "-clear-no-such-hyp".

(** ** Strings that no action takes *)

(** Some string was left over. *)
Definition has_extras (st : state) : Prop := st_extras st <> [].

Lemma take_action_extras (st st' : state) (a : action) (l : list string) :
  take_action st a l = Ok st' -> st_extras st' = st_extras st.
Proof.
  unfold take_action. destruct (_get_values a l); [|discriminate].
  cbn [Py.bind]. destruct (call a _ _); [|discriminate].
  cbn [Py.bind]. intros [= <-]. reflexivity.
Qed.

Lemma foldM_take_action_extras (tuples : list (action * list string)) :
  forall st st',
    Py.foldM (fun st '(a, args) => take_action st a args) st tuples = Ok st' ->
    st_extras st' = st_extras st.
Proof.
  induction tuples as [|[a l] tuples IH]; intros st st'; simpl.
  - intros [= <-]. reflexivity.
  - destruct (take_action st a l) as [st1|] eqn:Htake; [|discriminate].
    cbn [Py.bind]. intros H. apply IH in H. rewrite H.
    eapply take_action_extras, Htake.
Qed.

Lemma consume_optional_extras (p : parser) (st : state) (s : string)
      (t : option_tuple) (rest : list (string * letter)) (r : state * nat) :
  consume_optional p st s t rest = Ok r ->
  match t with
  | (None, _, _) => has_extras (fst r)
  | _ => st_extras (fst r) = st_extras st
  end.
Proof.
  destruct t as [[[a|] os] ea]; unfold consume_optional.
  - match goal with
    | |- (r0 <- ?x ;; _) = _ -> _ => destruct x as [[tuples n]|]
    end; [|discriminate].
    cbn [Py.bind].
    destruct (Py.foldM _ st tuples) as [st1|] eqn:Hfold; [|discriminate].
    cbn [Py.bind]. intros [= <-]. simpl.
    eapply foldM_take_action_extras, Hfold.
  - intros [= <-]. unfold has_extras. simpl. intros H.
    apply app_eq_nil in H as [_ H]. discriminate H.
Qed.

Lemma consume_positionals_extras (st : state)
      (strings : list (string * letter)) (r : state * nat) :
  consume_positionals st strings = Ok r ->
  st_extras (fst r) = st_extras st.
Proof.
  unfold consume_positionals. destruct (st_positionals st) as [|a l];
    [intros [= <-]; reflexivity|].
  destruct (match_nargs _ _ _); [|intros [= <-]; reflexivity].
  destruct (take_action st a _) as [st1|] eqn:Htake; [|discriminate].
  cbn [Py.bind]. intros [= <-]. simpl. eapply take_action_extras, Htake.
Qed.

Lemma has_extras_app (st : state) (ns : namespace) (more : list string)
      (seen : list (option string)) (positionals : list action) :
  has_extras st ->
  has_extras (State ns (st_extras st ++ more) seen positionals).
Proof.
  unfold has_extras. simpl. intros H Heq.
  apply app_eq_nil in Heq as [Heq _]. contradiction.
Qed.

Lemma round_extras (p : parser) (st : state)
      (strings : list (string * letter)) (r : state * nat) :
  has_extras st -> round p st strings = Ok r -> has_extras (fst r).
Proof.
  intros Hst. unfold round.
  set (before := count_while _ _). clearbody before.
  destruct (if (0 <? before)%nat then consume_positionals st strings
            else Ok (st, 0%nat)) as [[st0 n0]|] eqn:Hpos; [|discriminate].
  assert (Hst0 : has_extras st0).
  { destruct (0 <? before)%nat.
    - apply consume_positionals_extras in Hpos. simpl in Hpos.
      unfold has_extras. rewrite Hpos. exact Hst.
    - injection Hpos as <- <-. exact Hst. }
  cbn [Py.bind]. destruct (0 <? n0)%nat; [intros [= <-]; exact Hst0|].
  set (st_e := State _ _ _ _).
  assert (Hst_e : has_extras st_e) by (apply has_extras_app, Hst0).
  destruct (drop before strings) as [|[s [t| |]] rest];
    try (intros [= <-]; exact Hst_e).
  destruct (consume_optional p st_e s t rest) as [[st1 n1]|] eqn:Hopt;
    [|discriminate].
  cbn [Py.bind]. intros [= <-].
  apply consume_optional_extras in Hopt.
  destruct t as [[[a|] os] ea]; simpl in *; [|exact Hopt].
  unfold has_extras. rewrite Hopt. exact Hst_e.
Qed.

Lemma after_last_option_extras (st st' : state)
      (strings : list (string * letter)) :
  has_extras st -> after_last_option st strings = Ok st' -> has_extras st'.
Proof.
  intros Hst. unfold after_last_option.
  destruct (consume_positionals st strings) as [[st0 n]|] eqn:Hpos;
    [|discriminate].
  cbn [Py.bind]. intros [= <-]. apply consume_positionals_extras in Hpos.
  simpl in Hpos. unfold has_extras. simpl. rewrite Hpos. intros Heq.
  apply app_eq_nil in Heq as [Heq _]. contradiction.
Qed.

(** What was left over stays left over. *)
Lemma consume_extras (p : parser) (strings : list (string * letter)) :
  forall skip st st',
    has_extras st -> consume p st skip strings = Ok st' -> has_extras st'.
Proof.
  induction strings as [|x strings IH]; intros skip st st' Hst.
  - destruct skip; cbn [consume]; apply after_last_option_extras, Hst.
  - destruct skip as [|skip]; cbn [consume].
    + destruct (has_option (x :: strings));
        [|apply after_last_option_extras, Hst].
      destruct (round p st (x :: strings)) as [[st1 n]|] eqn:Hround;
        [|discriminate].
      cbn [Py.bind]. apply IH.
      apply (round_extras p st (x :: strings) (st1, n)); assumption.
    + apply IH, Hst.
Qed.

(** Every option of the command line is consumed, told by a property of
    the state that the loop keeps. *)
Section ReachState.

Context (p : parser) (S : state -> Prop) (allowed : action -> Prop).

Hypothesis allowed_plain : forall a, allowed a -> plain a.
Hypothesis S_kept :
  forall strings skip st st',
    S st -> consume p st skip strings = Ok st' -> S st'.

(** The option looked for: [s] with tuple [t], followed by [post]. *)
Context (s : string) (t : option_tuple) (post : list (string * letter)).

Hypothesis target_state :
  forall st0 st1 n, consume_optional p st0 s t post = Ok (st1, n) -> S st1.

Lemma consume_reach_state (strings : list (string * letter)) :
  forall skip st pre,
    strings = (pre ++ (s, O t) :: post)%list ->
    (skip <= List.length pre)%nat ->
    Forall allowed (st_positionals st) ->
    Forall (letter_ok allowed) strings ->
    forall st', consume p st skip strings = Ok st' -> S st'.
Proof.
  induction strings as [|x strings IH];
    intros skip st pre Heq Hskip Hpos Hletters st' Hc.
  { destruct pre; discriminate Heq. }
  destruct skip as [|skip].
  2: { destruct pre as [|x' pre]; [simpl in Hskip; lia|].
       injection Heq as -> Heq. cbn [consume] in Hc.
       apply (IH skip st pre Heq); try assumption.
       - simpl in Hskip. lia.
       - apply Forall_cons in Hletters as [_ H]. exact H. }
  cbn [consume] in Hc.
  assert (Hopt : has_option (x :: strings) = true)
    by (rewrite Heq; apply has_option_app).
  rewrite Hopt in Hc.
  destruct (round p st (x :: strings)) as [[st1 n]|] eqn:Hr;
    [|discriminate Hc].
  step_bind. simpl in Hc.
  assert (Htail : Forall (letter_ok allowed) strings)
    by (apply Forall_cons in Hletters as [_ H]; exact H).
  unfold round in Hr.
  pose proof (next_option pre post s t) as Hnext. cbv zeta in Hnext.
  rewrite <- Heq in Hnext.
  pose proof (count_not_O_app pre post s t) as Hbefore.
  rewrite <- Heq in Hbefore.
  change (fun l => negb (is_O l)) with not_O in Hr.
  set (before := count_while not_O (map snd (x :: strings))) in *.
  assert (Hpositionals :
            ok_res every_exn
              (fun r => (exists k, st_positionals (fst r)
                              = drop k (st_positionals st)) /\
                        (snd r <= before)%nat)
              (if (0 <? before)%nat then consume_positionals st (x :: strings)
               else Ok (st, 0%nat))).
  { destruct (0 <? before)%nat.
    - eapply ok_res_weaken.
      + apply (consume_positionals_ok every_exn (fun _ => True) allowed
                 (fun _ => Logic.I) Logic.I (every_type allowed)
                 (every_call allowed) st (x :: strings) Logic.I Hpos).
      + intros r (_ & Hk & Hn). split; [exact Hk|]. apply Hn.
        eapply Forall_impl; [exact Hpos|exact allowed_plain].
    - split; [exists 0%nat; reflexivity|simpl; lia]. }
  destruct (if (0 <? before)%nat then consume_positionals st (x :: strings)
            else Ok (st, 0%nat)) as [[st0 n0]|]; [|discriminate Hr].
  destruct Hpositionals as [[k Hk] Hn0]. simpl in Hk, Hn0.
  step_bind. cbn [Py.bind] in Hr.
  assert (Hpos0 : Forall allowed (st_positionals st0))
    by (rewrite Hk; apply Forall_drop, Hpos).
  destruct (0 <? n0)%nat eqn:Hn0pos.
  { injection Hr as <- <-. apply Nat.ltb_lt in Hn0pos.
    destruct pre as [|x' pre]; [simpl in Hbefore; lia|].
    injection Heq as -> Heq.
    apply (IH (Nat.pred n0) st0 pre Heq); try assumption.
    simpl in Hbefore. lia. }
  set (st_e := State (st_namespace st0)
                     (st_extras st0 ++ map fst (take before (x :: strings)))%list
                     (st_seen st0) (st_positionals st0)) in *.
  destruct Hnext as [[Hb Hdrop]|[Hb (s' & t' & Hdrop)]].
  - rewrite Hdrop in Hr.
    destruct (consume_optional p st_e s t post) as [[st2 m]|] eqn:Hco;
      [|discriminate Hr].
    cbn [Py.bind] in Hr. injection Hr as <- <-.
    pose proof (target_state st_e st2 m Hco) as HS.
    exact (S_kept strings (Nat.pred (before + m)) st2 st' HS Hc).
  - rewrite Hdrop in Hr.
    set (rest := (drop (Datatypes.S before) pre ++ (s, O t) :: post)%list)
      in *.
    destruct (consume_optional p st_e s' t' rest) as [[st2 m]|] eqn:Hco;
      [|discriminate Hr].
    cbn [Py.bind] in Hr. injection Hr as <- <-.
    assert (Htuple : tuple_ok allowed t').
    { pose proof (Forall_drop _ before _ Hletters) as H.
      rewrite Hdrop in H. apply Forall_cons in H as [H _]. exact H. }
    pose proof (consume_optional_ok p every_exn (fun _ => True) allowed
                  ltac:(intros; exact Logic.I) Logic.I (every_type allowed)
                  (every_call allowed)
                  st_e s' t' rest Htuple Logic.I) as H.
    rewrite Hco in H. destruct H as (_ & Hp2 & Hm1 & Hm). simpl in Hp2, Hm1, Hm.
    assert (Hplain : tuple_plain t').
    { destruct t' as [[[a'|] os'] ea']; simpl; [|exact Logic.I].
      apply allowed_plain, Htuple. }
    specialize (Hm Hplain).
    pose proof (count_not_O_app (drop (Datatypes.S before) pre) post s t)
      as Hrest.
    fold rest in Hrest. rewrite length_drop in Hrest.
    destruct pre as [|x' pre]; [simpl in Hb; lia|].
    injection Heq as -> Heq.
    apply (IH (Nat.pred (before + m)) st2 pre Heq); try assumption.
    + simpl in Hb, Hrest. lia.
    + rewrite Hp2. exact Hpos0.
Qed.

End ReachState.

(** The string is read as an option that the parser does not have: it
    starts with a hyphen, is no flag and no abbreviation of one, no
    negative number and holds no blank. *)
Definition unknown_to (p : parser) (s : string) : bool :=
  match _parse_optional p s with
  | Ok (Some (None, _, _)) => true
  | _ => false
  end.

(** [plain] as a test. *)
Definition plainb (a : action) : bool :=
  match a_nargs a with PARSER => false | _ => true end.

Lemma plainb_spec (l : list action) :
  forallb plainb l = true -> Forall plain l.
Proof.
  rewrite forallb_forall. intros H. apply Forall_forall. intros a Ha.
  apply list_elem_of_In, H in Ha. unfold plainb in Ha. unfold plain.
  intros Heq. rewrite Heq in Ha. discriminate Ha.
Qed.

(** A simple parser none of whose flags takes the rest of the command line
    hands back, among what it did not recognise, an option that it does not
    have. *)
Lemma parse_known_args_unknown (p : parser) (l : list string)
      (ns ns' : namespace) (extras : list string) (s : string) :
  Forall simple_action (_actions p) -> Forall plain (_actions p) ->
  s ∈ options_part l -> unknown_to p s = true ->
  parse_known_args p l ns = Ok (ns', extras) -> extras <> [].
Proof.
  intros Hsimple Hplain Hs Hunknown.
  unfold unknown_to in Hunknown.
  destruct (_parse_optional p s) as [[[[[a|] os] ea]|]|] eqn:Ht;
    try discriminate Hunknown.
  clear Hunknown.
  set (allowed := fun a => simple_action a /\ plain a).
  assert (Hall : forall a, a ∈ _actions p -> allowed a).
  { intros a Ha. rewrite Forall_forall in Hsimple, Hplain.
    split; [apply Hsimple, Ha|apply Hplain, Ha]. }
  unfold parse_known_args, _parse_known_args.
  destruct (classify p l) as [strings|e] eqn:Hc;
    [|destruct e; discriminate].
  cbn [Py.bind].
  destruct (classify_split p l strings s _ Hc Hs Ht) as (pre & post & Heq).
  set (st0 := State (fold_left add_default (_actions p) ns) [] []
                    (_get_positional_actions p)).
  destruct (consume p st0 0 strings) as [st|e] eqn:Hconsume;
    [|destruct e; discriminate].
  cbn [Py.bind].
  assert (Hextras : has_extras st).
  { apply (consume_reach_state p has_extras allowed
             ltac:(intros a Ha; apply Ha) (consume_extras p)
             s (None, os, ea) post
             ltac:(intros st1 st2 n Hco;
                   exact (consume_optional_extras p st1 s (None, os, ea)
                            post (st2, n) Hco))
             strings 0%nat st0 pre Heq ltac:(lia)); [| |exact Hconsume].
    - apply Forall_forall. intros a Ha. apply Hall.
      unfold st0 in Ha. cbn [st_positionals] in Ha.
      unfold _get_positional_actions in Ha.
      apply list_elem_of_filter in Ha as [_ Ha]. exact Ha.
    - apply Forall_forall. intros [s' [t'| |]] Hin; try exact Logic.I.
      destruct (classify_options_part p l strings s' t' Hc Hin) as [_ Ht'].
      destruct t' as [[[a'|] os'] ea']; [|exact Logic.I].
      apply _parse_optional_table, table_elem in Ht' as [Ha' Hos'].
      split; [apply Hall, Ha'|].
      intros Hz Hshort. destruct (Hall a' Ha') as ((_ & _ & Hflag) & _).
      eapply Hflag; eassumption. }
  destruct (st_positionals st); [|destruct (error p _); discriminate].
  destruct (Py.foldM (convert_default p st) (st_namespace st) (_actions p))
    as [ns1|e]; [|destruct e; discriminate].
  cbn [Py.bind].
  destruct (ns1 !! _UNRECOGNIZED_ARGS_ATTR) as [v|].
  - destruct (match v with VList l0 => Py.mapM str_of l0 | _ => _ end);
      [|discriminate].
    cbn [Py.bind]. intros [= _ <-] Hnil.
    apply app_eq_nil in Hnil as [Hnil _]. exact (Hextras Hnil).
  - intros [= _ <-]. exact Hextras.
Qed.

(** X24: an option that the sub-command does not have is refused.  When no
    flag of the sub-command takes the rest of the command line (the flags
    of this file do not; a sampler module could declare one), and a string
    in front of ["--"] is read as an option that the sub-command does not
    have, [parse] raises an exception and returns no options. *)
Theorem unknown_option_is_refused
        (env : environment) (cmd : string) (name : string)
        (rest : list string) (s : string) :
  set_default_subparser env "run" (tokens_of cmd) = Ok (name :: rest) ->
  Forall plain (_actions (sub_parser_of env name)) ->
  s ∈ options_part rest ->
  unknown_to (sub_parser_of env name) s = true ->
  exists e ws, parse env cmd = (Raise e, ws).
Proof.
  intros Hset Hplain Hs Hunknown.
  destruct (parse env cmd) as [[args|e] ws] eqn:Hparse;
    [exfalso|exists e, ws; reflexivity].
  apply parse_Ok_parsed in Hparse as (pa & Hp & _).
  apply parsed_Ok in Hp
      as (runparser & name' & rest' & sub & ns' & Hrun & Hset' & Hsub
          & Hsubparse & _).
  rewrite Hset in Hset'. injection Hset' as <- <-.
  assert (Heq : sub_parser_of env name = sub).
  { unfold sub_parser_of, run_parser.
    destruct Hsub as [[-> ->]|[-> ->]]; [|reflexivity].
    rewrite Hrun. reflexivity. }
  rewrite Heq in Hplain, Hunknown.
  assert (Hsimple : Forall simple_action (_actions sub)).
  { destruct Hsub as [[_ ->]|[_ ->]].
    - apply run_arguments_shape in Hrun as (_ & _ & H & _). exact H.
    - exact infoparser_simple. }
  exact (parse_known_args_unknown sub rest (namespace_of name) ns' [] s
           Hsimple Hplain Hs Hunknown Hsubparse eq_refl).
Qed.

Lemma unknown_option_is_refused_witness :
  exists e ws,
    parse example_env_sampler "run -N 10 --bogus -o out" = (Raise e, ws).
Proof.
  refine (unknown_option_is_refused
            example_env_sampler "run -N 10 --bogus -o out" "run"
            ["-N"; "10"; "--bogus"; "-o"; "out"] "--bogus" _ _ _ _).
  - vm_compute. reflexivity.
  - apply plainb_spec. vm_compute. reflexivity.
  - right. right. left.
  - vm_compute. reflexivity.
Defined.
